(** * bseecs: a sparse-set entity component system (src/beecs.h)

    A shallow embedding of the header [beecs.h] and the properties of its
    sparse-set storage, entity allocator and engine facade.

    Conventions of the embedding.
    - [uint64_t] and [size_t] values are numbers of type [N].  The code never
      relies on wrap-around: the only arithmetic is [/], [%] and an increment
      below [MAX_ENTITIES].
    - A [std::vector] is a list and memory is unbounded, except for the one
      place where a size is stored where [tombstone] is a reserved value:
      the push onto the dense arrays records that a vector cannot grow past
      [max_size()] ([std::length_error]).
    - [BSEECS_ASSERT] prints and calls [::abort()]: an operation returns
      [Fail (Abort a)], naming the assertion that fired, and there is no state
      afterwards.  Unchecked accesses of the source ([operator[]] out of range,
      [back()] or [pop_back()] of an empty vector, a null pointer dereferenced)
      return [Fail Undefined].
    - A template parameter is a [TypeName] ([typeid(T).name()]); a parameter
      pack is a list of them.
    - A pointer or reference into a vector is the index it points at: a
      [T*] into [m_dense] is a dense slot, a [SparseSet<T>&] is the position
      of the pool in [m_componentPools]. *)

From stdpp Require Import gmap strings list fin_maps.
From Stdlib Require Import NArith Lia.

Local Open Scope N_scope.

(** ** Constants of namespace [bseecs] *)

Abbreviation EntityID := N (only parsing).
Abbreviation TypeName := string (only parsing).

Definition NULL_ENTITY : EntityID := 18446744073709551615.
Definition MAX_ENTITIES : N := 1000000.
Definition MAX_COMPONENTS : N := 64.

(** [std::numeric_limits<size_t>::max()], in both classes. *)
Definition tombstone : N := 18446744073709551615.

(** [PTRDIFF_MAX]: no [std::vector] has a larger [max_size()]. *)
Definition vector_max_size : N := 9223372036854775807.

(** ** Outcomes *)

(** One constructor per [BSEECS_ASSERT] of the header. *)
Inductive assertion : Set :=
| DeleteNonExistent        (* "Trying to delete non-existent entity in sparse set" *)
| NullEntityOperated       (* "NULL_ENTITY cannot be operated on by the ECS" *)
| EntityOutOfBounds        (* "Invalid entity ID out of bounds" *)
| UnregisteredComponent    (* "Attempting to operate on unregistered component" *)
| PoolIndexOutOfRange      (* "(Internal): Attempting to index into m_componentPools ..." *)
| DynamicCastFailed        (* "Dynamic cast failed for component pool" *)
| EntityLimitExceeded      (* "Entity limit exceeded" *)
| NullIdCreated            (* "Cannot create entity with null ID" *)
| AlreadyRegistered        (* "Component with name ... already registered" *)
| MaxComponentsExceeded    (* "Exceeded max number of registered components" *)
| AlreadyHasComponent      (* "... already has component ... added" *)
| RequiredMismatch         (* "... required components mismatch" *)
| NoRequiredComponent      (* "... has no REQUIRED component" *)
| MissingRequired          (* "... is missing some required components" *)
| MissingComponent         (* "... missing component in ... pool" *)
| NoComponentToRemove      (* "... has no component ... to remove" *)
| SustainedMismatch        (* "... sustained components mismatch" *)
| HasToRemoveComponent     (* "... has to remove component" *)
| DeleteSustainedFirst.    (* "... Delete first all sustained components" *)

Inductive failure : Set :=
| Abort (a : assertion)
| LengthError
| Undefined.

Inductive outcome (A : Type) : Type :=
| Ok (a : A)
| Fail (f : failure).
Arguments Ok {A} a.
Arguments Fail {A} f.

#[global] Instance outcome_ret : MRet outcome := fun A a => Ok a.
#[global] Instance outcome_bind : MBind outcome := fun A B k m =>
  match m with
  | Ok a => k a
  | Fail f => Fail f
  end.

(** [BSEECS_ASSERT(condition, msg)] *)
Definition BSEECS_ASSERT (condition : bool) (a : assertion) : outcome unit :=
  if condition then Ok tt else Fail (Abort a).

(** The process was terminated by an assertion. *)
Definition fatal {A} (r : outcome A) : Prop := exists a, r = Fail (Abort a).

(** ** std::vector *)

Section vector.
Context {A : Type}.

Definition size (v : list A) : N := N.of_nat (length v).

Definition is_empty (v : list A) : bool :=
  match v with [] => true | _ => false end.

(** [v[i]], read *)
Definition at_ (v : list A) (i : N) : outcome A :=
  match v !! N.to_nat i with
  | Some x => Ok x
  | None => Fail Undefined
  end.

(** [v[i] = x] *)
Definition store (v : list A) (i : N) (x : A) : outcome (list A) :=
  if i <? size v then Ok (<[N.to_nat i := x]> v) else Fail Undefined.

Definition back (v : list A) : outcome A :=
  match last v with
  | Some x => Ok x
  | None => Fail Undefined
  end.

Definition push_back (v : list A) (x : A) : outcome (list A) :=
  if size v <? vector_max_size then Ok (v ++ [x]) else Fail LengthError.

Definition pop_back (v : list A) : outcome (list A) :=
  match v with
  | [] => Fail Undefined
  | _ => Ok (removelast v)
  end.

(** [std::swap(v.back(), v[i])] *)
Definition swap_back (v : list A) (i : N) : outcome (list A) :=
  b ← back v;
  x ← at_ v i;
  v ← store v (size v - 1) x;
  store v i b.

(** [v.resize(n, fill)] *)
Definition vresize (v : list A) (n : N) (fill : A) : list A :=
  resize (N.to_nat n) fill v.
End vector.

(** ** Counted loops *)

(** [for (size_t i = first; i < first + count; i++) body]: the state the
    body acts on is threaded through the iterations. *)
Fixpoint for_ {St : Type} (count : nat) (first : N)
    (body : N → St → outcome St) (st : St) : outcome St :=
  match count with
  | O => mret st
  | S count => st ← body first st; for_ count (first + 1) body st
  end.

(** ** class SparseSet<T> *)

Module SparseSet.

Definition SPARSE_MAX_SIZE : N := 1000.

Record t (T : Type) : Type := mk {
  m_sparsePages : list (list N);
  m_dense : list T;
  m_denseToEntity : list EntityID
}.
Arguments mk {T} _ _ _.
Arguments m_sparsePages {T} _.
Arguments m_dense {T} _.
Arguments m_denseToEntity {T} _.

Section ops.
Context {T : Type}.

(** The constructor: [reserve] changes no size. *)
Definition empty : t T := mk [] [] [].

Definition SetDenseIndex (id : EntityID) (index : N) (s : t T) : t T :=
  let page := id / SPARSE_MAX_SIZE in
  let sparseIndex := id mod SPARSE_MAX_SIZE in
  let pages := m_sparsePages s in
  let pages :=
    if size pages <=? page then vresize pages (page + 1) [] else pages in
  let sparse := pages !!! N.to_nat page in
  let sparse :=
    if size sparse <=? sparseIndex
    then vresize sparse (sparseIndex + 1) tombstone else sparse in
  let sparse := <[N.to_nat sparseIndex := index]> sparse in
  mk (<[N.to_nat page := sparse]> pages) (m_dense s) (m_denseToEntity s).

Definition GetDenseIndex (id : EntityID) (s : t T) : N :=
  let page := id / SPARSE_MAX_SIZE in
  let sparseIndex := id mod SPARSE_MAX_SIZE in
  if page <? size (m_sparsePages s) then
    let sparse := m_sparsePages s !!! N.to_nat page in
    if sparseIndex <? size sparse then sparse !!! N.to_nat sparseIndex
    else tombstone
  else tombstone.

(** [T* Set(EntityID id, T obj)]; the pointer [&m_dense[index]] is the
    dense slot [index]. *)
Definition Set_ (id : EntityID) (obj : T) (s : t T) : outcome (N * t T) :=
  let index := GetDenseIndex id s in
  if negb (index =? tombstone) then
    dense ← store (m_dense s) index obj;
    denseToEntity ← store (m_denseToEntity s) index id;
    mret (index, mk (m_sparsePages s) dense denseToEntity)
  else
    let s := SetDenseIndex id (size (m_dense s)) s in
    dense ← push_back (m_dense s) obj;
    denseToEntity ← push_back (m_denseToEntity s) id;
    mret (size dense - 1, mk (m_sparsePages s) dense denseToEntity).

(** [T* Get(EntityID id)]: [None] is [nullptr]. *)
Definition Get (id : EntityID) (s : t T) : outcome (option N) :=
  let index := GetDenseIndex id s in
  if negb (index =? tombstone) then
    _ ← at_ (m_dense s) index;
    mret (Some index)
  else mret None.

(** [*p] for a pointer into the dense array. *)
Definition deref (p : N) (s : t T) : outcome T := at_ (m_dense s) p.

(** [T& GetRef(EntityID id)] *)
Definition GetRef (id : EntityID) (s : t T) : outcome T :=
  at_ (m_dense s) (GetDenseIndex id s).

Definition GetEntity (compId : N) (s : t T) : outcome EntityID :=
  at_ (m_denseToEntity s) compId.

Definition Delete (id : EntityID) (s : t T) : outcome (t T) :=
  let deletedIndex := GetDenseIndex id s in
  _ ← BSEECS_ASSERT
        (negb (deletedIndex =? tombstone) && negb (is_empty (m_dense s)))
        DeleteNonExistent;
  moved ← back (m_denseToEntity s);
  let s := SetDenseIndex moved deletedIndex s in
  let s := SetDenseIndex id tombstone s in
  dense ← swap_back (m_dense s) deletedIndex;
  denseToEntity ← swap_back (m_denseToEntity s) deletedIndex;
  dense ← pop_back dense;
  denseToEntity ← pop_back denseToEntity;
  mret (mk (m_sparsePages s) dense denseToEntity).

Definition Clear (s : t T) : t T := mk [] [] [].

Definition IsEmpty (s : t T) : bool := is_empty (m_dense s).

Definition Data (s : t T) : list T := m_dense s.
End ops.
End SparseSet.

(** ** class ECS *)

Module ECS.

(** [std::bitset<MAX_COMPONENTS>]: bit [i] of the number is bit [i] of the
    set. *)
Abbreviation ComponentMask := N (only parsing).

Record ComponentInfo : Set := mkInfo {
  m_bitPosition : N;
  m_requiredComponents : ComponentMask;
  m_isRequiredInComponents : ComponentMask
}.

(** An element of [m_componentPools]: the [SparseSet<T>] behind the
    [std::unique_ptr<ISparseSet>], with the type [T] it was made for (what
    [dynamic_cast] inspects).  Component values of all types are drawn from
    one type [Val]. *)
Record Pool (Val : Type) : Type := mkPool {
  pool_type : TypeName;
  pool_set : SparseSet.t Val
}.
Arguments mkPool {Val} _ _.
Arguments pool_type {Val} _.
Arguments pool_set {Val} _.

Record t (Val : Type) : Type := mk {
  m_availableEntities : list EntityID;
  m_entityNames : gmap N string;
  m_componentPools : list (Pool Val);
  m_componentBitPosition : gmap string ComponentInfo;
  m_maxEntityID : EntityID
}.
Arguments mk {Val} _ _ _ _ _.
Arguments m_availableEntities {Val} _.
Arguments m_entityNames {Val} _.
Arguments m_componentPools {Val} _.
Arguments m_componentBitPosition {Val} _.
Arguments m_maxEntityID {Val} _.

Section ops.
Context {Val : Type}.
Implicit Types (e : t Val) (T C : TypeName) (id : EntityID).

(** [ECS() = default] *)
Definition empty : t Val := mk [] ∅ [] ∅ 0.

Definition set_componentPools e pools : t Val :=
  mk (m_availableEntities e) (m_entityNames e) pools
     (m_componentBitPosition e) (m_maxEntityID e).

Definition set_componentBitPosition e infos : t Val :=
  mk (m_availableEntities e) (m_entityNames e) (m_componentPools e)
     infos (m_maxEntityID e).

Definition BSEECS_ASSERT_VALID_ENTITY id e : outcome unit :=
  _ ← BSEECS_ASSERT (negb (id =? NULL_ENTITY)) NullEntityOperated;
  BSEECS_ASSERT ((id <? m_maxEntityID e) && (0 <=? id)) EntityOutOfBounds.

Definition GetComponentBitPosition T e : N :=
  match m_componentBitPosition e !! T with
  | None => tombstone
  | Some info => m_bitPosition info
  end.

(** [None] is [nullptr]. *)
Definition GetRequiredComponent T e : option ComponentMask :=
  match m_componentBitPosition e !! T with
  | None => None
  | Some info => Some (m_requiredComponents info)
  end.

Definition GetSustainedComponent T e : option ComponentMask :=
  match m_componentBitPosition e !! T with
  | None => None
  | Some info => Some (m_isRequiredInComponents info)
  end.

(** [*p] for a mask pointer. *)
Definition deref_mask (p : option ComponentMask) : outcome ComponentMask :=
  match p with
  | Some m => Ok m
  | None => Fail Undefined
  end.

(** [mask[bitPos] = val]: [std::bitset::operator[]] is unchecked. *)
Definition SetComponentBit C (mask : ComponentMask) (val : bool) e
  : outcome ComponentMask :=
  let bitPos := GetComponentBitPosition C e in
  _ ← BSEECS_ASSERT (negb (bitPos =? tombstone)) UnregisteredComponent;
  if bitPos <? MAX_COMPONENTS then
    mret (if val then N.setbit mask bitPos else N.clearbit mask bitPos)
  else Fail Undefined.

(** The fold [(SetComponentBit<Components>(mask, 1), ...)], left to
    right. *)
Fixpoint SetComponentBits (Cs : list TypeName) (mask : ComponentMask) e
  : outcome ComponentMask :=
  match Cs with
  | [] => mret mask
  | C :: Cs =>
      mask ← SetComponentBit C mask true e;
      SetComponentBits Cs mask e
  end.

Definition GetMask (Cs : list TypeName) e : outcome ComponentMask :=
  SetComponentBits Cs 0 e.

(** [SetRequirements<DependentComponent, RequiredComponent>()]; [find]
    is dereferenced unchecked. *)
Definition SetRequirements (D R : TypeName) e : outcome (t Val) :=
  match m_componentBitPosition e !! R with
  | None => Fail Undefined
  | Some info =>
      requiredCompMask ←
        SetComponentBit D (m_isRequiredInComponents info) true e;
      mret (set_componentBitPosition e
              (<[R := mkInfo (m_bitPosition info) (m_requiredComponents info)
                        requiredCompMask]> (m_componentBitPosition e)))
  end.

Fixpoint BroadcastRequirements (D : TypeName) (Rs : list TypeName) e
  : outcome (t Val) :=
  match Rs with
  | [] => mret e
  | R :: Rs =>
      e ← SetRequirements D R e;
      BroadcastRequirements D Rs e
  end.

(** [RegisterComponent<T, Components...>()] *)
Definition RegisterComponent T (Components : list TypeName) e
  : outcome (t Val) :=
  _ ← BSEECS_ASSERT (bool_decide (m_componentBitPosition e !! T = None))
        AlreadyRegistered;
  _ ← BSEECS_ASSERT (size (m_componentPools e) <? MAX_COMPONENTS)
        MaxComponentsExceeded;
  requiredCompMask ← GetMask Components e;
  let e := set_componentBitPosition e
             (<[T := mkInfo (size (m_componentPools e)) requiredCompMask 0]>
                (m_componentBitPosition e)) in
  let e := set_componentPools e
             (m_componentPools e ++ [mkPool T SparseSet.empty]) in
  BroadcastRequirements T Components e.

(** [GetComponentPool<T>(registerIfNotFound)]: the reference returned is
    the position of the pool in [m_componentPools]. *)
Definition GetComponentPool T (registerIfNotFound : bool) e
  : outcome (N * t Val) :=
  let bitPos := GetComponentBitPosition T e in
  '(bitPos, e) ←
    (if bitPos =? tombstone then
       '(bitPos, e) ←
         (if registerIfNotFound then
            e ← RegisterComponent T [] e;
            mret (GetComponentBitPosition T e, e)
          else mret (bitPos, e));
       _ ← BSEECS_ASSERT registerIfNotFound UnregisteredComponent;
       mret (bitPos, e)
     else mret (bitPos, e));
  _ ← BSEECS_ASSERT ((bitPos <? size (m_componentPools e)) && (0 <=? bitPos))
        PoolIndexOutOfRange;
  genericPtr ← at_ (m_componentPools e) bitPos;
  _ ← BSEECS_ASSERT (bool_decide (pool_type genericPtr = T)) DynamicCastFailed;
  mret (bitPos, e).

(** The truth value of a pointer. *)
Definition non_null (p : option N) : bool :=
  match p with Some _ => true | None => false end.

(** Reading and writing through a pool reference. *)
Definition pool_at (pool : N) e : outcome (SparseSet.t Val) :=
  p ← at_ (m_componentPools e) pool;
  mret (pool_set p).

Definition pool_update (pool : N) (s : SparseSet.t Val) e : outcome (t Val) :=
  p ← at_ (m_componentPools e) pool;
  pools ← store (m_componentPools e) pool (mkPool (pool_type p) s);
  mret (set_componentPools e pools).

(** [CreateEntity(name)]; [m_maxEntityID++] stays below [MAX_ENTITIES]. *)
Definition CreateEntity (name : string) e : outcome (EntityID * t Val) :=
  let id := tombstone in
  '(id, e) ←
    (if size (m_availableEntities e) =? 0 then
       _ ← BSEECS_ASSERT (m_maxEntityID e <? MAX_ENTITIES) EntityLimitExceeded;
       mret (m_maxEntityID e,
             mk (m_availableEntities e) (m_entityNames e) (m_componentPools e)
                (m_componentBitPosition e) (m_maxEntityID e + 1))
     else
       id ← back (m_availableEntities e);
       available ← pop_back (m_availableEntities e);
       mret (id,
             mk available (m_entityNames e) (m_componentPools e)
                (m_componentBitPosition e) (m_maxEntityID e)));
  _ ← BSEECS_ASSERT (negb (id =? tombstone)) NullIdCreated;
  let names :=
    if negb (bool_decide (name = EmptyString))
    then <[id := name]> (m_entityNames e) else m_entityNames e in
  mret (id,
        mk (m_availableEntities e) names (m_componentPools e)
           (m_componentBitPosition e) (m_maxEntityID e)).

Definition GetEntityName id e : outcome string :=
  _ ← BSEECS_ASSERT_VALID_ENTITY id e;
  match m_entityNames e !! id with
  | None => mret "Entity"%string
  | Some name => mret name
  end.

(** [DeleteEntity(EntityID& id)]: the first component of the result is
    the value left in the caller's handle. *)
Definition DeleteEntity id e : outcome (EntityID * t Val) :=
  _ ← BSEECS_ASSERT_VALID_ENTITY id e;
  name ← GetEntityName id e;
  let e := mk (m_availableEntities e ++ [id]) (delete id (m_entityNames e))
              (m_componentPools e) (m_componentBitPosition e)
              (m_maxEntityID e) in
  mret (NULL_ENTITY, e).

Definition Has T id e : outcome bool :=
  '(pool, e) ← GetComponentPool T false e;
  s ← pool_at pool e;
  p ← SparseSet.Get id s;
  mret (non_null p).

(** [(Has<Ts>(id) && ...)]: [&&] evaluates its right operand only when
    the left one is true; the empty fold is [true]. *)
Fixpoint HasAll (Ts : list TypeName) id e : outcome bool :=
  match Ts with
  | [] => mret true
  | T :: Ts =>
      b ← Has T id e;
      if (b : bool) then HasAll Ts id e else mret false
  end.

Definition HasRequired T id e : outcome bool :=
  '(pool, e) ← GetComponentPool T false e;
  s ← pool_at pool e;
  hasId ← SparseSet.Get id s;
  _ ← BSEECS_ASSERT (non_null hasId) NoRequiredComponent;
  mret (non_null hasId).

Fixpoint HasAllRequired (Ts : list TypeName) id e : outcome bool :=
  match Ts with
  | [] => mret true
  | T :: Ts =>
      b ← HasRequired T id e;
      if (b : bool) then HasAllRequired Ts id e else mret false
  end.

Definition HasRemoved T id e : outcome bool :=
  '(pool, e) ← GetComponentPool T false e;
  s ← pool_at pool e;
  hasId ← SparseSet.Get id s;
  let ret := if non_null hasId then false else true in
  _ ← BSEECS_ASSERT ret HasToRemoveComponent;
  mret ret.

Fixpoint HasRemovedAll (Ts : list TypeName) id e : outcome bool :=
  match Ts with
  | [] => mret true
  | T :: Ts =>
      b ← HasRemoved T id e;
      if (b : bool) then HasRemovedAll Ts id e else mret false
  end.

(** [Add<T, RequiredComponents...>(id, component)]: the reference
    returned is the dense slot of the value in [T]'s pool. *)
Definition Add T (RequiredComponents : list TypeName) id (component : Val) e
  : outcome (N * t Val) :=
  _ ← BSEECS_ASSERT_VALID_ENTITY id e;
  '(pool, e) ← GetComponentPool T true e;
  s ← pool_at pool e;
  p ← SparseSet.Get id s;
  _ ← BSEECS_ASSERT (negb (non_null p)) AlreadyHasComponent;
  incomingCompMask ← GetMask RequiredComponents e;
  requiredCompMask ← deref_mask (GetRequiredComponent T e);
  let resultDiff := N.lxor incomingCompMask requiredCompMask in
  _ ← BSEECS_ASSERT (resultDiff =? 0) RequiredMismatch;
  requiredSatisfied ← HasAllRequired RequiredComponents id e;
  _ ← BSEECS_ASSERT requiredSatisfied MissingRequired;
  s ← pool_at pool e;
  '(ref, s) ← SparseSet.Set_ id component s;
  e ← pool_update pool s e;
  mret (ref, e).

(** [Get<T>(id)], returning the value referred to. *)
Definition Get T id e : outcome Val :=
  _ ← BSEECS_ASSERT_VALID_ENTITY id e;
  '(pool, e) ← GetComponentPool T false e;
  s ← pool_at pool e;
  component ← SparseSet.Get id s;
  _ ← BSEECS_ASSERT (non_null component) MissingComponent;
  match component with
  | Some p => SparseSet.deref p s
  | None => Fail Undefined
  end.

(** [Remove<T, SustainedComponents...>(id)] *)
Definition Remove T (SustainedComponents : list TypeName) id e
  : outcome (t Val) :=
  _ ← BSEECS_ASSERT_VALID_ENTITY id e;
  '(pool, e) ← GetComponentPool T false e;
  s ← pool_at pool e;
  p ← SparseSet.Get id s;
  _ ← BSEECS_ASSERT (non_null p) NoComponentToRemove;
  incomingCompMask ← GetMask SustainedComponents e;
  sustainedCompMask ← deref_mask (GetSustainedComponent T e);
  let resultDiff := N.lxor incomingCompMask sustainedCompMask in
  _ ← BSEECS_ASSERT (resultDiff =? 0) SustainedMismatch;
  allSustainedRemoved ← HasRemovedAll SustainedComponents id e;
  _ ← BSEECS_ASSERT allSustainedRemoved DeleteSustainedFirst;
  s ← pool_at pool e;
  s ← SparseSet.Delete id s;
  pool_update pool s e.

(** [GetSibiling<TDense, T>(DenseID)], returning the value referred to. *)
Definition GetSibiling TDense T (DenseID : EntityID) e : outcome Val :=
  '(pool, e) ← GetComponentPool TDense false e;
  s ← pool_at pool e;
  EntId ← SparseSet.GetEntity DenseID s;
  '(pool, e) ← GetComponentPool T false e;
  s ← pool_at pool e;
  SparseSet.GetRef EntId s.

(** [GetComponentPool<Components>().GetRef(id)...], the pack expanded from
    left to right. *)
Fixpoint GetRefs (Components : list TypeName) id e : outcome (list Val) :=
  match Components with
  | [] => mret []
  | C :: Components =>
      '(pool, e) ← GetComponentPool C false e;
      s ← pool_at pool e;
      c ← SparseSet.GetRef id s;
      cs ← GetRefs Components id e;
      mret (c :: cs)
  end.

(** The callable given to [ForEach], by the form it is invocable in:
    [(EntityID, MainComponent&, Components&...)] or
    [(MainComponent&, Components&...)].  The callables represented are the
    ones that read the components they are handed and act on a state [A]
    of their own; a callable invocable in neither form, for which the loop
    body is the assertion of the last branch, has no representation. *)
Inductive callable (A : Type) : Type :=
| with_entity (func : EntityID → Val → list Val → A → A)
| components_only (func : Val → list Val → A → A).

Definition invoke {A} (func : callable A) id (main : Val) (others : list Val)
    (a : A) : A :=
  match func with
  | with_entity _ func => func id main others a
  | components_only _ func => func main others a
  end.

(** [ForEach<MainComponent, Components...>(func)] *)
Definition ForEach {A} MainComponent (Components : list TypeName)
    (func : callable A) e (a : A) : outcome A :=
  '(compPool, e) ← GetComponentPool MainComponent false e;
  compPool ← pool_at compPool e;
  let dense := SparseSet.Data compPool in
  for_ (length dense) 0
    (λ i a,
       id ← SparseSet.GetEntity i compPool;
       main ← at_ dense i;
       others ← GetRefs Components id e;
       mret (invoke func id main others a))
    a.
End ops.
End ECS.

(** ** class ISystem *)

Module ISystem.
Section ops.
Context {Val : Type}.

(** The references a system holds into the engine, both to the main pool
    and each given by the position of that pool in the pool vector. *)
Record t : Type := mk {
  m_MainDense : N;
  m_MainComps : N
}.

(** [ISystem(ECS& ecs)]: the members are initialised in the order of their
    declaration, [m_MainDense] before [m_MainComps]; the loop then runs
    [HasAllRequired] on the numbers below the size of the dense array. *)
Definition new (MainComponent : TypeName) (Components : list TypeName)
    (ecs : ECS.t Val) : outcome (t * ECS.t Val) :=
  '(pool, ecs) ← ECS.GetComponentPool MainComponent false ecs;
  s ← ECS.pool_at pool ecs;
  let m_MainDense := SparseSet.Data s in
  '(m_MainComps, ecs) ← ECS.GetComponentPool MainComponent false ecs;
  _ ← for_ (length m_MainDense) 0
        (λ i _, _ ← ECS.HasAllRequired Components i ecs; mret tt) tt;
  mret (mk pool m_MainComps, ecs).
End ops.
End ISystem.

(** * Vocabulary of the properties *)

(** ** The paged sparse array *)

(** What [GetDenseIndex] reads at page [p], slot [k]: an absent page or slot
    reads as [tombstone]. *)
Definition cell (pages : list (list N)) (p k : nat) : N :=
  default tombstone (pages !! p ≫= (.!! k)).

Definition page_of (id : EntityID) : nat := N.to_nat (id / SparseSet.SPARSE_MAX_SIZE).
Definition slot_of (id : EntityID) : nat := N.to_nat (id mod SparseSet.SPARSE_MAX_SIZE).

(** ** Invariants of the sparse set *)

(** The two storage invariants: the dense arrays have one length, and the
    sparse entry of the owner of dense slot [i] is [i]. *)
Definition consistent {T} (s : SparseSet.t T) : Prop :=
  length (SparseSet.m_dense s) = length (SparseSet.m_denseToEntity s) ∧
  ∀ (i : nat) (id : EntityID),
    SparseSet.m_denseToEntity s !! i = Some id →
    SparseSet.GetDenseIndex id s = N.of_nat i.

(** With the converse: an entity the sparse array maps owns the slot it is
    mapped to. *)
Definition sparse_wf {T} (s : SparseSet.t T) : Prop :=
  consistent s ∧
  ∀ id : EntityID,
    SparseSet.GetDenseIndex id s ≠ tombstone →
    SparseSet.m_denseToEntity s !! N.to_nat (SparseSet.GetDenseIndex id s)
    = Some id.

(** ** Runs of a sparse set *)

Inductive sparse_op (T : Type) : Type :=
| OpSet (id : EntityID) (obj : T)
| OpDelete (id : EntityID)
| OpClear.
Arguments OpSet {T} id obj.
Arguments OpDelete {T} id.
Arguments OpClear {T}.

Definition sparse_step {T} (o : sparse_op T) (s : SparseSet.t T)
  : outcome (SparseSet.t T) :=
  match o with
  | OpSet id obj => '(_, s) ← SparseSet.Set_ id obj s; mret s
  | OpDelete id => SparseSet.Delete id s
  | OpClear => mret (SparseSet.Clear s)
  end.

(** The states after each operation of a run; the run ends where an
    operation terminates the process. *)
Fixpoint sparse_trace {T} (ops : list (sparse_op T)) (s : SparseSet.t T)
  : list (SparseSet.t T) :=
  match ops with
  | [] => []
  | o :: ops =>
      match sparse_step o s with
      | Ok s' => s' :: sparse_trace ops s'
      | Fail _ => []
      end
  end.

(** The sparse set a run builds from the empty one. *)
Definition sparse_set_after {T} (ops : list (sparse_op T)) : SparseSet.t T :=
  default SparseSet.empty (last (sparse_trace ops SparseSet.empty)).

(** ** Invariants of the engine *)

(** What holds of every engine built from [ECS()] with RegisterComponent,
    CreateEntity, DeleteEntity, Add and Remove ([ecs_run_wf] below). *)
Record ecs_wf {Val} (e : ECS.t Val) : Prop := mk_ecs_wf {
  (** a registered type has its pool at its bit position *)
  wf_pool_of : ∀ (T : TypeName) info,
    ECS.m_componentBitPosition e !! T = Some info →
    ∃ pool, ECS.m_componentPools e !! N.to_nat (ECS.m_bitPosition info) = Some pool
            ∧ ECS.pool_type pool = T;
  wf_pools : ∀ (i : nat) pool,
    ECS.m_componentPools e !! i = Some pool → sparse_wf (ECS.pool_set pool);
  (** components are attached to ids below the high-water mark *)
  wf_owners : ∀ (i : nat) pool (id : EntityID),
    ECS.m_componentPools e !! i = Some pool →
    id ∈ SparseSet.m_denseToEntity (ECS.pool_set pool) →
    id < ECS.m_maxEntityID e;
  wf_capacity : size (ECS.m_componentPools e) ≤ MAX_COMPONENTS;
  wf_max : ECS.m_maxEntityID e ≤ MAX_ENTITIES;
  wf_free : ∀ id : EntityID,
    id ∈ ECS.m_availableEntities e → id < ECS.m_maxEntityID e
}.

Definition registered {Val} (e : ECS.t Val) (C : TypeName) : Prop :=
  is_Some (ECS.m_componentBitPosition e !! C).

(** [T]'s pool, for a registered [T]. *)
Definition pool_of {Val} (e : ECS.t Val) (T : TypeName) : option (SparseSet.t Val) :=
  info ← ECS.m_componentBitPosition e !! T;
  pool ← ECS.m_componentPools e !! N.to_nat (ECS.m_bitPosition info);
  Some (ECS.pool_set pool).

(** Entity [id] has an entry in [T]'s pool. *)
Definition holds {Val} (e : ECS.t Val) (T : TypeName) (id : EntityID) : bool :=
  match pool_of e T with
  | Some s => negb (SparseSet.GetDenseIndex id s =? tombstone)
  | None => false
  end.

(** What [BSEECS_ASSERT_VALID_ENTITY] accepts. *)
Definition valid_entity {Val} (e : ECS.t Val) (id : EntityID) : Prop :=
  id ≠ NULL_ENTITY ∧ id < ECS.m_maxEntityID e.

(** Two engines that differ at most in names and dependency masks. *)
Definition same_layout {Val} (e e' : ECS.t Val) : Prop :=
  ECS.m_componentPools e' = ECS.m_componentPools e
  ∧ ECS.m_availableEntities e' = ECS.m_availableEntities e
  ∧ ECS.m_maxEntityID e' = ECS.m_maxEntityID e
  ∧ ∀ T : TypeName,
      ECS.m_bitPosition <$> (ECS.m_componentBitPosition e' !! T)
      = ECS.m_bitPosition <$> (ECS.m_componentBitPosition e !! T).

(** The mask with the bits of the given types. *)
Definition mask_from {Val} (e : ECS.t Val) (Cs : list TypeName) (mask : N) : N :=
  foldl (λ m C, N.setbit m (ECS.GetComponentBitPosition C e)) mask Cs.

(** ** The entity allocator *)

(** [if (!name.empty()) m_entityNames[id] = name] *)
Definition record_name (name : string) (id : EntityID) (names : gmap N string)
  : gmap N string :=
  if negb (bool_decide (name = EmptyString)) then <[id := name]> names
  else names.

(** Creations in a row, one per name. *)
Fixpoint create_all {Val} (names : list string) (e : ECS.t Val)
  : outcome (list EntityID * ECS.t Val) :=
  match names with
  | [] => mret ([], e)
  | name :: names =>
      '(id, e) ← ECS.CreateEntity name e;
      '(ids, e) ← create_all names e;
      mret (id :: ids, e)
  end.

Inductive alloc_op : Set :=
| OpCreate (name : string)
| OpDestroy (id : EntityID).

(** Removes one occurrence of [id]. *)
Fixpoint remove_one (id : EntityID) (live : list EntityID) : list EntityID :=
  match live with
  | [] => []
  | x :: live => if decide (x = id) then live else x :: remove_one id live
  end.

(** The allocator together with the ids of the live entities: one entry per
    entity created and not destroyed since. *)
Definition alloc_step {Val} (o : alloc_op) (st : ECS.t Val * list EntityID)
  : outcome (ECS.t Val * list EntityID) :=
  match o with
  | OpCreate name =>
      '(id, e) ← ECS.CreateEntity name st.1;
      mret (e, st.2 ++ [id])
  | OpDestroy id =>
      '(_, e) ← ECS.DeleteEntity id st.1;
      mret (e, remove_one id st.2)
  end.

Fixpoint alloc_trace {Val} (ops : list alloc_op) (st : ECS.t Val * list EntityID)
  : list (ECS.t Val * list EntityID) :=
  match ops with
  | [] => []
  | o :: ops =>
      match alloc_step o st with
      | Ok st' => st' :: alloc_trace ops st'
      | Fail _ => []
      end
  end.

(** Every DeleteEntity of the run is given the id of a live entity. *)
Fixpoint destroys_live {Val} (ops : list alloc_op) (st : ECS.t Val * list EntityID)
  : bool :=
  match ops with
  | [] => true
  | o :: ops =>
      match o with
      | OpDestroy id => bool_decide (id ∈ st.2)
      | OpCreate _ => true
      end
      && match alloc_step o st with
         | Ok st' => destroys_live ops st'
         | Fail _ => true
         end
  end.

(** No id is shared: by two live entities, by two entries of the free pool,
    or by a live entity and the free pool. *)
Definition ids_unshared {Val} (st : ECS.t Val * list EntityID) : Prop :=
  NoDup st.2 ∧ NoDup (ECS.m_availableEntities st.1)
  ∧ ∀ id : EntityID, id ∈ st.2 → id ∉ ECS.m_availableEntities st.1.

Definition alloc_inv {Val} (st : ECS.t Val * list EntityID) : Prop :=
  ids_unshared st
  ∧ (∀ id : EntityID, id ∈ st.2 → id < ECS.m_maxEntityID st.1)
  ∧ (∀ id : EntityID,
       id ∈ ECS.m_availableEntities st.1 → id < ECS.m_maxEntityID st.1)
  ∧ ECS.m_maxEntityID st.1 ≤ MAX_ENTITIES.

(** A run in which an id is destroyed twice. *)
Definition double_destroy : list alloc_op :=
  [OpCreate EmptyString; OpDestroy 0; OpDestroy 0; OpCreate EmptyString; OpCreate EmptyString].

(** ** Runs of the engine *)

Inductive ecs_op (Val : Type) : Type :=
| Register (T : TypeName) (Components : list TypeName)
| Create (name : string)
| Destroy (id : EntityID)
| Attach (T : TypeName) (RequiredComponents : list TypeName) (id : EntityID)
         (component : Val)
| Detach (T : TypeName) (SustainedComponents : list TypeName) (id : EntityID).
Arguments Register {Val} T Components.
Arguments Create {Val} name.
Arguments Destroy {Val} id.
Arguments Attach {Val} T RequiredComponents id component.
Arguments Detach {Val} T SustainedComponents id.

Definition ecs_step {Val} (o : ecs_op Val) (e : ECS.t Val) : outcome (ECS.t Val) :=
  match o with
  | Register T Cs => ECS.RegisterComponent T Cs e
  | Create name => '(_, e) ← ECS.CreateEntity name e; mret e
  | Destroy id => '(_, e) ← ECS.DeleteEntity id e; mret e
  | Attach T Rs id v => '(_, e) ← ECS.Add T Rs id v e; mret e
  | Detach T Ss id => ECS.Remove T Ss id e
  end.

Fixpoint ecs_run {Val} (ops : list (ecs_op Val)) (e : ECS.t Val)
  : outcome (ECS.t Val) :=
  match ops with
  | [] => mret e
  | o :: ops => e ← ecs_step o e; ecs_run ops e
  end.

(** The engine a run builds from the fresh one (the fresh engine itself,
    should the run terminate the process). *)
Definition engine_after {Val} (ops : list (ecs_op Val)) : ECS.t Val :=
  match ecs_run ops ECS.empty with
  | Ok e => e
  | Fail _ => ECS.empty
  end.

(** ** Scenarios *)

(** Two component types, [Engine] requiring [Chassis], and two entities. *)
Definition garage : list (ecs_op N) :=
  [Register "Chassis" []; Register "Engine" ["Chassis"%string];
   Create "car"; Create EmptyString].

(** Both entities have a chassis. *)
Definition garage_chassis : list (ecs_op N) :=
  garage ++ [Attach "Chassis" [] 0 7; Attach "Chassis" [] 1 8].

(** The first entity has an engine as well. *)
Definition garage_engine : list (ecs_op N) :=
  garage_chassis ++ [Attach "Engine" ["Chassis"%string] 0 9].

(** What the registry holds for the two types in these scenarios. *)
Definition chassis_info : ECS.ComponentInfo := ECS.mkInfo 0 0 2.
Definition engine_info : ECS.ComponentInfo := ECS.mkInfo 1 1 0.

(** ** Further vocabulary *)

(** A well-formed sparse set whose dense array fits a vector. *)
Definition sparse_ok {T} (s : SparseSet.t T) : Prop :=
  sparse_wf s ∧ size (SparseSet.m_dense s) ≤ vector_max_size.

(** The registry entry of [C] once a type with bit [b] has declared the
    types [Rs] as required: [C]'s sustained mask gains bit [b] if [C] is
    one of them. *)
Definition add_dependent (b : N) (Rs : list TypeName) (C : TypeName)
    (info : ECS.ComponentInfo) : ECS.ComponentInfo :=
  ECS.mkInfo (ECS.m_bitPosition info) (ECS.m_requiredComponents info)
    (if bool_decide (C ∈ Rs) then N.setbit (ECS.m_isRequiredInComponents info) b
     else ECS.m_isRequiredInComponents info).

(** The two dependency masks mirror each other: [T] requires [C] exactly
    when [C] sustains [T]. *)
Definition masks_dual {Val} (e : ECS.t Val) : Prop :=
  ∀ (T C : TypeName) iT iC,
    ECS.m_componentBitPosition e !! T = Some iT →
    ECS.m_componentBitPosition e !! C = Some iC →
    N.testbit (ECS.m_requiredComponents iT) (ECS.m_bitPosition iC)
    = N.testbit (ECS.m_isRequiredInComponents iC) (ECS.m_bitPosition iT).

(** The masks only have bits of registered types. *)
Definition masks_bounded {Val} (e : ECS.t Val) : Prop :=
  ∀ (C : TypeName) info (k : N),
    ECS.m_componentBitPosition e !! C = Some info →
    N.testbit (ECS.m_requiredComponents info) k = true
    ∨ N.testbit (ECS.m_isRequiredInComponents info) k = true →
    k < size (ECS.m_componentPools e).

(** An entity that has [T] has every type [T] requires. *)
Definition deps_closed {Val} (e : ECS.t Val) : Prop :=
  ∀ (T C : TypeName) iT iC (id : EntityID),
    ECS.m_componentBitPosition e !! T = Some iT →
    ECS.m_componentBitPosition e !! C = Some iC →
    N.testbit (ECS.m_requiredComponents iT) (ECS.m_bitPosition iC) = true →
    holds e T id = true → holds e C id = true.

Definition engine_inv {Val} (e : ECS.t Val) : Prop :=
  ecs_wf e ∧ masks_dual e ∧ masks_bounded e ∧ deps_closed e.

(** The registry of [e'] has the types of [e], at the same bit positions
    and with the same required masks. *)
Definition registry_extends {Val} (e e' : ECS.t Val) : Prop :=
  ∀ (T : TypeName) info,
    ECS.m_componentBitPosition e !! T = Some info →
    ∃ info', ECS.m_componentBitPosition e' !! T = Some info'
             ∧ ECS.m_bitPosition info' = ECS.m_bitPosition info
             ∧ ECS.m_requiredComponents info' = ECS.m_requiredComponents info.

(** An outcome that, if it is a failure, is one of the listed assertions. *)
Definition aborts_with {A} (r : outcome A) (l : list assertion) : Prop :=
  ∀ f, r = Fail f → ∃ a, f = Abort a ∧ a ∈ l.



(** What [ForEach] hands to its callable in one call: the entity, the main
    component and the other components. *)
Definition visit (Val : Type) : Type := EntityID * Val * list Val.

Definition visit_entity {Val} (v : visit Val) : EntityID := v.1.1.
Definition visit_main {Val} (v : visit Val) : Val := v.1.2.
Definition visit_others {Val} (v : visit Val) : list Val := v.2.

(** The calls of a callable, one after the other. *)
Definition invoke_all {Val A} (func : ECS.callable A) (visits : list (visit Val))
    (a : A) : A :=
  foldl (λ a v, ECS.invoke func (visit_entity v) (visit_main v) (visit_others v) a)
    a visits.
(** * Properties *)

(** ** Outcomes *)

Lemma bind_Ok {A B} (m : outcome A) (k : A → outcome B) (b : B) :
  m ≫= k = Ok b ↔ ∃ a, m = Ok a ∧ k a = Ok b.
Proof.
  destruct m as [a|f]; simpl; split.
  - eauto.
  - by intros (a' & [= <-] & ?).
  - done.
  - by intros (a' & ? & ?).
Qed.

Lemma assert_Ok (c : bool) (a : assertion) (u : unit) :
  BSEECS_ASSERT c a = Ok u ↔ c = true.
Proof. destruct c, u; simpl; split; congruence. Qed.

Lemma leb_0_l (n : N) : (0 <=? n) = true.
Proof. apply N.leb_le, N.le_0_l. Qed.

Lemma fatal_bind {A B} (m : outcome A) (k : A → outcome B) :
  fatal m → fatal (m ≫= k).
Proof. intros [a ->]. by exists a. Qed.

Lemma fatal_not_Ok {A} (r : outcome A) (a : A) : fatal r → r ≠ Ok a.
Proof. intros [x ->]. done. Qed.

(** Splits a hypothesis [m ≫= k = Ok b] into its steps. *)
Ltac inv_ok :=
  repeat match goal with
    | H : (_ ≫= _) = Ok _ |- _ =>
        let x := fresh "x" in
        apply bind_Ok in H as (x & ? & H)
    | H : BSEECS_ASSERT _ _ = Ok _ |- _ => apply assert_Ok in H
    | H : mret _ = Ok _ |- _ => injection H as H
    | H : Ok _ = Ok _ |- _ => injection H as H
    | H : Fail _ = Ok _ |- _ => discriminate H
    end.

(** ** std::vector *)

Section vector_facts.
Context {A : Type}.
Implicit Types (v : list A) (i : N) (n : nat).

Lemma at_Ok v i x : at_ v i = Ok x ↔ v !! N.to_nat i = Some x.
Proof. unfold at_. destruct (v !! N.to_nat i); split; congruence. Qed.

Lemma store_Ok v i x v' :
  store v i x = Ok v' ↔ (N.to_nat i < length v)%nat ∧ v' = <[N.to_nat i := x]> v.
Proof.
  unfold store, size. destruct (N.ltb_spec i (N.of_nat (length v))); split.
  - intros [= <-]. split; [lia|done].
  - by intros [_ ->].
  - done.
  - intros [? _]. lia.
Qed.

Lemma back_Ok v x :
  back v = Ok x ↔ v !! (length v - 1)%nat = Some x ∧ (0 < length v)%nat.
Proof.
  unfold back. rewrite last_lookup.
  replace (Nat.pred (length v)) with (length v - 1)%nat by lia.
  destruct (v !! (length v - 1)%nat) eqn:E; split.
  - intros [= ->]. split; [done|]. apply lookup_lt_Some in E. lia.
  - by intros [[= ->] _].
  - done.
  - by intros [? _].
Qed.

Lemma pop_back_Ok v v' :
  pop_back v = Ok v' ↔ (0 < length v)%nat ∧ v' = take (length v - 1) v.
Proof.
  destruct v as [|a v] using rev_ind; simpl.
  - split; [done|]. intros [? _]. lia.
  - unfold pop_back. destruct (v ++ [a]) eqn:E.
    { by destruct v. }
    rewrite <- E. rewrite removelast_last, length_app. simpl.
    replace (length v + 1 - 1)%nat with (length v) by lia.
    rewrite take_app_length. split.
    + intros [= <-]. split; [lia|done].
    + by intros [_ ->].
Qed.

(** [std::swap(v.back(), v[i]); v.pop_back()] moves the last element to
    slot [i] and drops the last slot. *)
Lemma swap_pop_Ok v i x b :
  v !! N.to_nat i = Some x →
  v !! (length v - 1)%nat = Some b →
  ∃ v', swap_back v i ≫= pop_back = Ok v' ∧
        length v' = (length v - 1)%nat ∧
        ∀ n, (n < length v - 1)%nat →
             v' !! n = if decide (n = N.to_nat i) then Some b else v !! n.
Proof.
  intros Hi Hb.
  assert (N.to_nat i < length v)%nat as Hlt by by eapply lookup_lt_Some.
  unfold swap_back.
  assert (back v = Ok b) as -> by (apply back_Ok; split; [done|lia]).
  assert (at_ v i = Ok x) as -> by by apply at_Ok.
  simpl.
  assert (store v (size v - 1) x = Ok (<[(length v - 1)%nat := x]> v)) as ->.
  { apply store_Ok. unfold size.
    replace (N.to_nat (N.of_nat (length v) - 1)) with (length v - 1)%nat by lia.
    split; [lia|done]. }
  simpl.
  assert (store (<[(length v - 1)%nat := x]> v) i b
          = Ok (<[N.to_nat i := b]> (<[(length v - 1)%nat := x]> v))) as ->.
  { apply store_Ok. rewrite length_insert. done. }
  simpl. eexists. split.
  { apply pop_back_Ok. rewrite !length_insert. split; [lia|done]. }
  split.
  { rewrite length_take, !length_insert. lia. }
  intros n Hn. rewrite lookup_take_lt by done.
  case_decide as E.
  - subst n. rewrite list_lookup_insert_eq; [done|]. rewrite length_insert. lia.
  - rewrite list_lookup_insert_ne by done.
    rewrite list_lookup_insert_ne by lia. done.
Qed.
End vector_facts.

(** ** The paged sparse array *)

Lemma page_slot_inj (id id' : EntityID) :
  page_of id = page_of id' → slot_of id = slot_of id' → id = id'.
Proof.
  unfold page_of, slot_of, SparseSet.SPARSE_MAX_SIZE. intros Hp Hs.
  rewrite (N.div_mod id 1000), (N.div_mod id' 1000) by done. lia.
Qed.

Lemma cell_resize_pages (pages : list (list N)) (n p k : nat) :
  (length pages ≤ n)%nat → cell (resize n [] pages) p k = cell pages p k.
Proof.
  intros Hn. unfold cell.
  destruct (decide (p < length pages)%nat) as [Hp|Hp].
  - rewrite lookup_resize by lia. done.
  - rewrite (lookup_ge_None_2 pages) by lia.
    destruct (decide (p < n)%nat).
    + rewrite lookup_resize_new by lia. done.
    + rewrite lookup_resize_old by lia. done.
Qed.

Lemma slot_resize (sparse : list N) (n k : nat) :
  (length sparse ≤ n)%nat →
  default tombstone (resize n tombstone sparse !! k)
  = default tombstone (sparse !! k).
Proof.
  intros Hn.
  destruct (decide (k < length sparse)%nat) as [Hk|Hk].
  - rewrite lookup_resize by lia. done.
  - rewrite (lookup_ge_None_2 sparse) by lia.
    destruct (decide (k < n)%nat).
    + rewrite lookup_resize_new by lia. done.
    + rewrite lookup_resize_old by lia. done.
Qed.

Section sparse_pages.
Context {T : Type}.
Implicit Types (s : SparseSet.t T) (id : EntityID).

Lemma GetDenseIndex_cell id s :
  SparseSet.GetDenseIndex id s
  = cell (SparseSet.m_sparsePages s) (page_of id) (slot_of id).
Proof.
  unfold SparseSet.GetDenseIndex, cell, size. fold (page_of id) (slot_of id).
  destruct (N.ltb_spec (id / SparseSet.SPARSE_MAX_SIZE)
              (N.of_nat (length (SparseSet.m_sparsePages s)))) as [Hp|Hp].
  - destruct (lookup_lt_is_Some_2 (SparseSet.m_sparsePages s) (page_of id))
      as [sparse Hsp]; [unfold page_of; lia|].
    rewrite (list_lookup_total_correct _ _ _ Hsp), Hsp. simpl.
    destruct (N.ltb_spec (id mod SparseSet.SPARSE_MAX_SIZE)
                (N.of_nat (length sparse))) as [Hk|Hk].
    + destruct (lookup_lt_is_Some_2 sparse (slot_of id)) as [x Hx];
        [unfold slot_of; lia|].
      by rewrite (list_lookup_total_correct _ _ _ Hx), Hx.
    + rewrite lookup_ge_None_2; [done|unfold slot_of; lia].
  - rewrite lookup_ge_None_2; [done|unfold page_of; lia].
Qed.

Lemma SetDenseIndex_pages id index s p k :
  cell (SparseSet.m_sparsePages (SparseSet.SetDenseIndex id index s)) p k
  = if decide (p = page_of id ∧ k = slot_of id) then index
    else cell (SparseSet.m_sparsePages s) p k.
Proof.
  unfold SparseSet.SetDenseIndex. fold (page_of id) (slot_of id). simpl.
  set (pages := SparseSet.m_sparsePages s).
  set (pages1 := if size pages <=? id / SparseSet.SPARSE_MAX_SIZE
                 then vresize pages (id / SparseSet.SPARSE_MAX_SIZE + 1) []
                 else pages).
  assert (page_of id < length pages1)%nat as Hlen1.
  { subst pages1. unfold size, vresize, page_of.
    destruct (N.leb_spec (N.of_nat (length pages))
                (id / SparseSet.SPARSE_MAX_SIZE));
      [rewrite length_resize|]; lia. }
  assert (∀ p k, cell pages1 p k = cell pages p k) as Hcell1.
  { intros p' k'. subst pages1. unfold size, vresize.
    destruct (N.leb_spec (N.of_nat (length pages))
                (id / SparseSet.SPARSE_MAX_SIZE)); [|done].
    apply cell_resize_pages. lia. }
  destruct (lookup_lt_is_Some_2 pages1 (page_of id) Hlen1) as [sparse Hsp].
  rewrite (list_lookup_total_correct _ _ _ Hsp).
  set (sparse1 := if size sparse <=? id mod SparseSet.SPARSE_MAX_SIZE
                  then vresize sparse (id mod SparseSet.SPARSE_MAX_SIZE + 1) tombstone
                  else sparse).
  assert (slot_of id < length sparse1)%nat as Hlen2.
  { subst sparse1. unfold size, vresize, slot_of.
    destruct (N.leb_spec (N.of_nat (length sparse))
                (id mod SparseSet.SPARSE_MAX_SIZE));
      [rewrite length_resize|]; lia. }
  assert (∀ k, default tombstone (sparse1 !! k) = default tombstone (sparse !! k))
    as Hcell2.
  { intros k'. subst sparse1. unfold size, vresize.
    destruct (N.leb_spec (N.of_nat (length sparse))
                (id mod SparseSet.SPARSE_MAX_SIZE)); [|done].
    apply slot_resize. lia. }
  unfold cell at 1.
  destruct (decide (p = page_of id)) as [->|Hp].
  - rewrite list_lookup_insert_eq by done. simpl.
    destruct (decide (k = slot_of id)) as [->|Hk].
    + rewrite list_lookup_insert_eq by done.
      rewrite decide_True by done. done.
    + rewrite list_lookup_insert_ne by done.
      rewrite decide_False by (intros [_ ?]; done).
      rewrite Hcell2, <- Hcell1. unfold cell. by rewrite Hsp.
  - rewrite list_lookup_insert_ne by done.
    rewrite decide_False by (intros [? _]; done).
    apply Hcell1.
Qed.

(** Reading the sparse array after a write: the written entity reads the
    new index, every other entity reads what it read before. *)
Lemma GetDenseIndex_SetDenseIndex id index s id' :
  SparseSet.GetDenseIndex id' (SparseSet.SetDenseIndex id index s)
  = if decide (id' = id) then index else SparseSet.GetDenseIndex id' s.
Proof.
  rewrite !GetDenseIndex_cell, SetDenseIndex_pages.
  destruct (decide (id' = id)) as [->|Hne].
  - by rewrite decide_True.
  - rewrite decide_False; [done|].
    intros [? ?]. apply Hne. by apply page_slot_inj.
Qed.

Lemma SetDenseIndex_dense id index s :
  SparseSet.m_dense (SparseSet.SetDenseIndex id index s) = SparseSet.m_dense s.
Proof. done. Qed.

Lemma SetDenseIndex_denseToEntity id index s :
  SparseSet.m_denseToEntity (SparseSet.SetDenseIndex id index s)
  = SparseSet.m_denseToEntity s.
Proof. done. Qed.

(** [GetDenseIndex] only reads the pages. *)
Lemma GetDenseIndex_pages_only id s s' :
  SparseSet.m_sparsePages s = SparseSet.m_sparsePages s' →
  SparseSet.GetDenseIndex id s = SparseSet.GetDenseIndex id s'.
Proof. unfold SparseSet.GetDenseIndex. by intros ->. Qed.
End sparse_pages.

(** ** Invariants of the sparse set *)

Section sparse_set_invariant.
Context {T : Type}.
Implicit Types (s : SparseSet.t T) (id : EntityID).

Lemma sparse_wf_empty : sparse_wf (SparseSet.empty (T:=T)).
Proof.
  split; [split; [done|by intros i id Hi]|].
  intros id. by rewrite GetDenseIndex_cell.
Qed.

Lemma sparse_wf_index_lt s id :
  sparse_wf s → SparseSet.GetDenseIndex id s ≠ tombstone →
  (N.to_nat (SparseSet.GetDenseIndex id s) < length (SparseSet.m_dense s))%nat.
Proof.
  intros [[Hlen _] Hc] Hne. rewrite Hlen.
  eapply lookup_lt_Some, Hc, Hne.
Qed.

(** [Set] on an entity that has an entry. *)
Lemma Set_present s id obj :
  sparse_wf s → SparseSet.GetDenseIndex id s ≠ tombstone →
  SparseSet.Set_ id obj s
  = Ok (SparseSet.GetDenseIndex id s,
        SparseSet.mk (SparseSet.m_sparsePages s)
          (<[N.to_nat (SparseSet.GetDenseIndex id s) := obj]> (SparseSet.m_dense s))
          (SparseSet.m_denseToEntity s)).
Proof.
  intros Hwf Hne. pose proof (sparse_wf_index_lt _ _ Hwf Hne) as Hlt.
  destruct Hwf as [[Hlen _] Hc]. unfold SparseSet.Set_.
  rewrite (proj2 (N.eqb_neq _ _) Hne). simpl.
  rewrite (proj2 (store_Ok _ _ _ _) (conj Hlt eq_refl)). simpl.
  assert (N.to_nat (SparseSet.GetDenseIndex id s)
          < length (SparseSet.m_denseToEntity s))%nat as Hlt' by lia.
  rewrite (proj2 (store_Ok _ _ id _) (conj Hlt' eq_refl)). simpl.
  by rewrite (list_insert_id _ _ _ (Hc id Hne)).
Qed.

(** [Set] on an entity that has none. *)
Lemma Set_absent s id obj :
  SparseSet.GetDenseIndex id s = tombstone →
  length (SparseSet.m_dense s) = length (SparseSet.m_denseToEntity s) →
  SparseSet.Set_ id obj s
  = if size (SparseSet.m_dense s) <? vector_max_size then
      Ok (size (SparseSet.m_dense s),
          SparseSet.mk
            (SparseSet.m_sparsePages
               (SparseSet.SetDenseIndex id (size (SparseSet.m_dense s)) s))
            (SparseSet.m_dense s ++ [obj])
            (SparseSet.m_denseToEntity s ++ [id]))
    else Fail LengthError.
Proof.
  intros Hts Hlen. unfold SparseSet.Set_. rewrite Hts, N.eqb_refl.
  cbn [negb]. rewrite SetDenseIndex_dense, SetDenseIndex_denseToEntity.
  assert (size (SparseSet.m_denseToEntity s) = size (SparseSet.m_dense s))
    as Hsz by (unfold size; lia).
  unfold push_back. rewrite Hsz.
  destruct (size (SparseSet.m_dense s) <? vector_max_size); [|done].
  simpl. do 2 f_equal. unfold size. rewrite length_app. simpl. lia.
Qed.

Lemma Set_wf s id obj p s' :
  sparse_wf s → SparseSet.Set_ id obj s = Ok (p, s') → sparse_wf s'.
Proof.
  intros Hwf HS.
  destruct (decide (SparseSet.GetDenseIndex id s = tombstone)) as [Hts|Hne].
  - destruct Hwf as [[Hlen Hb] Hc].
    rewrite Set_absent in HS by done.
    destruct (N.ltb_spec (size (SparseSet.m_dense s)) vector_max_size)
      as [Hroom|]; [|done].
    injection HS as <- <-.
    assert (∀ id', SparseSet.GetDenseIndex id'
               (SparseSet.mk
                  (SparseSet.m_sparsePages
                     (SparseSet.SetDenseIndex id (size (SparseSet.m_dense s)) s))
                  (SparseSet.m_dense s ++ [obj])
                  (SparseSet.m_denseToEntity s ++ [id]))
             = if decide (id' = id) then size (SparseSet.m_dense s)
               else SparseSet.GetDenseIndex id' s) as Hget.
    { intros id'. rewrite <- GetDenseIndex_SetDenseIndex.
      by apply GetDenseIndex_pages_only. }
    unfold size, vector_max_size in *.
    repeat split; simpl.
    + rewrite !length_app. simpl. lia.
    + intros i id' Hi. rewrite Hget.
      destruct (decide (i < length (SparseSet.m_denseToEntity s))%nat).
      * rewrite lookup_app_l in Hi by done.
        apply Hb in Hi. case_decide; [|done]. subst id'.
        rewrite Hts in Hi. unfold tombstone in Hi. lia.
      * apply lookup_lt_Some in Hi as Hlt. rewrite length_app in Hlt.
        simpl in Hlt. assert (i = length (SparseSet.m_denseToEntity s)) as ->
          by lia.
        rewrite lookup_app_r, Nat.sub_diag in Hi by lia.
        injection Hi as <-. rewrite decide_True by done. lia.
    + intros id'. rewrite Hget. case_decide as E.
      * subst id'. intros _. rewrite Nat2N.id, Hlen.
        rewrite lookup_app_r, Nat.sub_diag by lia. done.
      * intros Hne. apply Hc in Hne as Hl.
        rewrite lookup_app_l; [done|]. by eapply lookup_lt_Some.
  - rewrite Set_present in HS by done. injection HS as <- <-.
    destruct Hwf as [[Hlen Hb] Hc].
    repeat split; simpl.
    + by rewrite length_insert.
    + intros i id' Hi. by apply Hb in Hi.
    + intros id' Hne'. by apply Hc in Hne'.
Qed.

Lemma Delete_absent s id :
  SparseSet.GetDenseIndex id s = tombstone →
  SparseSet.Delete id s = Fail (Abort DeleteNonExistent).
Proof. intros Hts. unfold SparseSet.Delete. by rewrite Hts, N.eqb_refl. Qed.

(** [Delete] on an entity that has an entry: the last dense record, owned
    by [moved], takes the vacated slot. *)
Lemma Delete_present s id :
  sparse_wf s → SparseSet.GetDenseIndex id s ≠ tombstone →
  let di := N.to_nat (SparseSet.GetDenseIndex id s) in
  let len := length (SparseSet.m_dense s) in
  ∃ s' moved b,
    SparseSet.m_denseToEntity s !! (len - 1)%nat = Some moved ∧
    SparseSet.m_dense s !! (len - 1)%nat = Some b ∧
    SparseSet.Delete id s = Ok s' ∧
    length (SparseSet.m_dense s') = (len - 1)%nat ∧
    length (SparseSet.m_denseToEntity s') = (len - 1)%nat ∧
    (∀ n, (n < len - 1)%nat →
          SparseSet.m_dense s' !! n
          = if decide (n = di) then Some b else SparseSet.m_dense s !! n) ∧
    (∀ n, (n < len - 1)%nat →
          SparseSet.m_denseToEntity s' !! n
          = if decide (n = di) then Some moved
            else SparseSet.m_denseToEntity s !! n) ∧
    (∀ id', SparseSet.GetDenseIndex id' s'
            = if decide (id' = id) then tombstone
              else if decide (id' = moved) then SparseSet.GetDenseIndex id s
              else SparseSet.GetDenseIndex id' s).
Proof.
  intros Hwf Hne di len.
  pose proof (sparse_wf_index_lt _ _ Hwf Hne) as Hlt. fold di len in Hlt.
  destruct Hwf as [[Hlen Hb] Hc]. fold len in Hlen.
  pose proof (Hc id Hne) as Hid. fold di in Hid.
  destruct (lookup_lt_is_Some_2 (SparseSet.m_denseToEntity s) (len - 1)%nat)
    as [moved Hmoved]; [lia|].
  destruct (lookup_lt_is_Some_2 (SparseSet.m_dense s) (len - 1)%nat)
    as [b Hlast]; [lia|].
  destruct (lookup_lt_is_Some_2 (SparseSet.m_dense s) di) as [x Hx]; [lia|].
  destruct (swap_pop_Ok (SparseSet.m_dense s) (SparseSet.GetDenseIndex id s) x b)
    as (dense' & Hsp1 & Hlen1 & Hlk1); [done..|].
  destruct (swap_pop_Ok (SparseSet.m_denseToEntity s)
              (SparseSet.GetDenseIndex id s) id moved)
    as (d2e' & Hsp2 & Hlen2 & Hlk2); [done|by rewrite <- Hlen|].
  apply bind_Ok in Hsp1 as (w1 & Hsw1 & Hpop1).
  apply bind_Ok in Hsp2 as (w2 & Hsw2 & Hpop2).
  eexists _, moved, b. split; [done|]. split; [done|].
  split.
  { unfold SparseSet.Delete. rewrite (proj2 (N.eqb_neq _ _) Hne).
    assert (is_empty (SparseSet.m_dense s) = false) as ->.
    { destruct (SparseSet.m_dense s); [simpl in *; lia|done]. }
    cbn [negb andb BSEECS_ASSERT mbind outcome_bind].
    assert (back (SparseSet.m_denseToEntity s) = Ok moved) as ->.
    { apply back_Ok. rewrite <- Hlen. split; [done|lia]. }
    cbn [mbind outcome_bind].
    rewrite !SetDenseIndex_dense, !SetDenseIndex_denseToEntity.
    rewrite Hsw1. cbn [mbind outcome_bind].
    rewrite Hsw2. cbn [mbind outcome_bind].
    rewrite Hpop1. cbn [mbind outcome_bind].
    rewrite Hpop2. cbn [mbind outcome_bind]. done. }
  simpl. split; [done|]. split; [lia|]. split; [done|].
  split.
  { intros n Hn. apply Hlk2. lia. }
  intros id'.
  rewrite (GetDenseIndex_pages_only id' _
             (SparseSet.SetDenseIndex id tombstone
                (SparseSet.SetDenseIndex moved (SparseSet.GetDenseIndex id s) s)))
    by done.
  rewrite !GetDenseIndex_SetDenseIndex. done.
Qed.

Lemma Delete_wf s id s' :
  sparse_wf s → SparseSet.Delete id s = Ok s' → sparse_wf s'.
Proof.
  intros Hwf HD.
  destruct (decide (SparseSet.GetDenseIndex id s = tombstone)) as [Hts|Hne].
  { by rewrite Delete_absent in HD. }
  destruct (Delete_present s id Hwf Hne)
    as (s1 & moved & b & Hmoved & _ & HD' & Hl1 & Hl2 & _ & Hlk & Hget).
  rewrite HD in HD'. injection HD' as <-.
  pose proof (sparse_wf_index_lt _ _ Hwf Hne) as Hlt.
  destruct Hwf as [[Hlen Hb] Hc].
  pose proof (Hc id Hne) as Hid.
  pose proof (Hb _ _ Hmoved) as Hgm.
  repeat split.
  - lia.
  - intros i id' Hi. apply lookup_lt_Some in Hi as Hilt.
    rewrite Hl2 in Hilt. rewrite Hlk in Hi by done. rewrite Hget.
    case_decide as E.
    + injection Hi as <-.
      rewrite decide_False, decide_True by (done || intros ->; lia). lia.
    + apply Hb in Hi as Hgi.
      rewrite decide_False, decide_False; [done|intros ->; lia|intros ->; lia].
  - intros id'. rewrite Hget. case_decide as E1; [done|].
    case_decide as E2.
    + subst id'. intros _. rewrite Hlk.
      * by rewrite decide_True.
      * assert (N.to_nat (SparseSet.GetDenseIndex id s)
                ≠ length (SparseSet.m_dense s) - 1)%nat; [|lia].
        intros Heq. rewrite Heq in Hid. congruence.
    + intros Hne'. pose proof (Hc _ Hne') as Hid'.
      apply lookup_lt_Some in Hid' as Hlt'.
      rewrite Hlk.
      * rewrite decide_False; [done|].
        intros Heq. rewrite Heq in Hid'. congruence.
      * assert (N.to_nat (SparseSet.GetDenseIndex id' s)
                ≠ length (SparseSet.m_dense s) - 1)%nat; [|lia].
        intros Heq. rewrite Heq in Hid'. congruence.
Qed.

Lemma Clear_wf s : sparse_wf (SparseSet.Clear s).
Proof. apply sparse_wf_empty. Qed.
End sparse_set_invariant.

(** ** Runs of a sparse set *)

Lemma sparse_step_wf {T} (o : sparse_op T) (s s' : SparseSet.t T) :
  sparse_wf s → sparse_step o s = Ok s' → sparse_wf s'.
Proof.
  intros Hwf Hstep. destruct o as [id obj|id|]; simpl in Hstep.
  - apply bind_Ok in Hstep as ([p s1] & HS & [= <-]). by eapply Set_wf.
  - by eapply Delete_wf.
  - injection Hstep as <-. apply Clear_wf.
Qed.

Lemma sparse_trace_wf {T} (ops : list (sparse_op T)) (s : SparseSet.t T) :
  sparse_wf s → Forall sparse_wf (sparse_trace ops s).
Proof.
  revert s. induction ops as [|o ops IH]; intros s Hwf; simpl; [constructor|].
  destruct (sparse_step o s) as [s'|f] eqn:Hstep; [|constructor].
  assert (sparse_wf s') by by eapply sparse_step_wf.
  constructor; [done|by apply IH].
Qed.

(** C1: after each operation of every run of Set, Delete and Clear on a
    sparse set, the dense array and the dense-to-entity array have the same
    length, and the sparse entry of the entity stored at dense-to-entity[i]
    is i, for every dense slot i. *)
Theorem sparse_set_consistent_after_each_operation
    {T} (ops : list (sparse_op T)) :
  Forall consistent (sparse_trace ops SparseSet.empty).
Proof.
  eapply Forall_impl; [apply sparse_trace_wf, sparse_wf_empty|].
  by intros s [Hc _].
Qed.

(** A run that deletes the entity whose record is the last dense element,
    then one whose record is not. *)
Example sparse_trace_delete_last :
  map (λ s, (SparseSet.m_dense s, SparseSet.m_denseToEntity s))
      (sparse_trace [OpSet 5 50; OpSet 1003 60; OpSet 2 70; OpDelete 2;
                     OpSet 7 80; OpDelete 5; OpDelete 9] SparseSet.empty)
  = [([50], [5]); ([50; 60], [5; 1003]); ([50; 60; 70], [5; 1003; 2]);
     ([50; 60], [5; 1003]); ([50; 60; 80], [5; 1003; 7]);
     ([80; 60], [7; 1003])].
Proof. reflexivity. Qed.

(** C7: Set on an entity that is present overwrites its value in place; its
    dense index, and the dense index of every other entity, is the same
    after the call as before. *)
Theorem Set_present_keeps_dense_indices
    {T} (s : SparseSet.t T) (id : EntityID) (obj : T) :
  sparse_wf s →
  SparseSet.GetDenseIndex id s ≠ tombstone →
  ∃ s', SparseSet.Set_ id obj s = Ok (SparseSet.GetDenseIndex id s, s') ∧
        (∀ id', SparseSet.GetDenseIndex id' s' = SparseSet.GetDenseIndex id' s) ∧
        SparseSet.m_dense s'
        = <[N.to_nat (SparseSet.GetDenseIndex id s) := obj]> (SparseSet.m_dense s) ∧
        SparseSet.m_denseToEntity s' = SparseSet.m_denseToEntity s ∧
        SparseSet.deref (SparseSet.GetDenseIndex id s) s' = Ok obj.
Proof.
  intros Hwf Hne. eexists. split; [by apply Set_present|].
  split; [done|]. split; [done|]. split; [done|].
  apply at_Ok. simpl. apply list_lookup_insert_eq.
  by apply sparse_wf_index_lt.
Qed.

(** ** Invariants of the engine *)

(** Reduces the field projections of an engine, and nothing else. *)
Ltac ecs_simpl :=
  cbn [ECS.m_componentPools ECS.m_componentBitPosition ECS.m_maxEntityID
       ECS.m_availableEntities ECS.m_entityNames ECS.set_componentPools
       ECS.set_componentBitPosition ECS.pool_type ECS.pool_set] in *.

Section ecs_invariant.
Context {Val : Type}.
Implicit Types (e : ECS.t Val) (T C : TypeName) (id : EntityID).

Lemma ecs_wf_empty : ecs_wf (ECS.empty (Val:=Val)).
Proof.
  split; simpl; try done.
  intros id Hid. by apply elem_of_nil in Hid.
Qed.

Lemma wf_bit_lt e T info :
  ecs_wf e → ECS.m_componentBitPosition e !! T = Some info →
  ECS.m_bitPosition info < size (ECS.m_componentPools e)
  ∧ ECS.m_bitPosition info < MAX_COMPONENTS.
Proof.
  intros Hwf HT. destruct (wf_pool_of e Hwf T info HT) as (pool & Hp & _).
  apply lookup_lt_Some in Hp. pose proof (wf_capacity e Hwf).
  unfold size in *. lia.
Qed.

Lemma wf_bit_inj e T T' info info' :
  ecs_wf e →
  ECS.m_componentBitPosition e !! T = Some info →
  ECS.m_componentBitPosition e !! T' = Some info' →
  ECS.m_bitPosition info = ECS.m_bitPosition info' → T = T'.
Proof.
  intros Hwf HT HT' Heq.
  destruct (wf_pool_of e Hwf T info HT) as (pool & Hp & <-).
  destruct (wf_pool_of e Hwf T' info' HT') as (pool' & Hp' & <-).
  rewrite Heq in Hp. congruence.
Qed.

Lemma pool_of_registered e T info :
  ecs_wf e → ECS.m_componentBitPosition e !! T = Some info →
  ∃ pool, ECS.m_componentPools e !! N.to_nat (ECS.m_bitPosition info) = Some pool
          ∧ ECS.pool_type pool = T
          ∧ pool_of e T = Some (ECS.pool_set pool)
          ∧ sparse_wf (ECS.pool_set pool).
Proof.
  intros Hwf HT. destruct (wf_pool_of e Hwf T info HT) as (pool & Hp & Hty).
  exists pool. split; [done|]. split; [done|].
  split; [|by eapply wf_pools].
  unfold pool_of. rewrite HT. simpl. by rewrite Hp.
Qed.

Lemma valid_entity_Ok e id :
  valid_entity e id → ECS.BSEECS_ASSERT_VALID_ENTITY id e = Ok tt.
Proof.
  intros [Hn Hlt]. unfold ECS.BSEECS_ASSERT_VALID_ENTITY.
  rewrite (proj2 (N.eqb_neq _ _) Hn), (proj2 (N.ltb_lt _ _) Hlt), leb_0_l.
  done.
Qed.

Lemma invalid_entity_fatal e id :
  ¬ valid_entity e id → fatal (ECS.BSEECS_ASSERT_VALID_ENTITY id e).
Proof.
  intros Hnv. unfold ECS.BSEECS_ASSERT_VALID_ENTITY.
  destruct (N.eqb_spec id NULL_ENTITY) as [|Hn]; simpl; [by eexists|].
  rewrite leb_0_l.
  destruct (N.ltb_spec id (ECS.m_maxEntityID e)); simpl; [|by eexists].
  destruct Hnv. by split.
Qed.

Lemma valid_entity_cases e id :
  ECS.BSEECS_ASSERT_VALID_ENTITY id e = Ok tt ∧ valid_entity e id
  ∨ fatal (ECS.BSEECS_ASSERT_VALID_ENTITY id e).
Proof.
  destruct (decide (id = NULL_ENTITY)) as [->|Hn].
  { right. by eexists. }
  destruct (N.ltb_spec id (ECS.m_maxEntityID e)).
  - left. split; [by apply valid_entity_Ok|done].
  - right. apply invalid_entity_fatal. intros [_ ?]. lia.
Qed.

(** *** Pool lookup *)

Lemma GetComponentBitPosition_registered e T info :
  ECS.m_componentBitPosition e !! T = Some info →
  ECS.GetComponentBitPosition T e = ECS.m_bitPosition info.
Proof. unfold ECS.GetComponentBitPosition. by intros ->. Qed.

Lemma GetComponentPool_registered e T info reg :
  ecs_wf e → ECS.m_componentBitPosition e !! T = Some info →
  ECS.GetComponentPool T reg e = Ok (ECS.m_bitPosition info, e).
Proof.
  intros Hwf HT. destruct (wf_bit_lt e T info Hwf HT) as [Hlt Hlt'].
  destruct (wf_pool_of e Hwf T info HT) as (pool & Hp & Hty).
  unfold ECS.GetComponentPool.
  rewrite (GetComponentBitPosition_registered e T info HT).
  assert ((ECS.m_bitPosition info =? tombstone) = false) as ->.
  { apply N.eqb_neq. unfold MAX_COMPONENTS, tombstone in *. lia. }
  cbn [mbind outcome_bind mret outcome_ret].
  rewrite (proj2 (N.ltb_lt _ _) Hlt), leb_0_l. cbn.
  rewrite (proj2 (at_Ok _ _ _) Hp). cbn.
  rewrite bool_decide_eq_true_2 by done. done.
Qed.

Lemma GetComponentPool_unregistered e T :
  ECS.m_componentBitPosition e !! T = None →
  ECS.GetComponentPool T false e = Fail (Abort UnregisteredComponent).
Proof.
  intros HT. unfold ECS.GetComponentPool, ECS.GetComponentBitPosition.
  rewrite HT. done.
Qed.

Lemma pool_at_registered e T info :
  ecs_wf e → ECS.m_componentBitPosition e !! T = Some info →
  ∃ s, pool_of e T = Some s ∧ sparse_wf s
       ∧ ECS.pool_at (ECS.m_bitPosition info) e = Ok s.
Proof.
  intros Hwf HT.
  destruct (pool_of_registered e T info Hwf HT) as (pool & Hp & _ & Hpo & Hs).
  exists (ECS.pool_set pool). split; [done|]. split; [done|].
  unfold ECS.pool_at. by rewrite (proj2 (at_Ok _ _ _) Hp).
Qed.

Lemma Get_wf (s : SparseSet.t Val) id :
  sparse_wf s →
  SparseSet.Get id s
  = Ok (if SparseSet.GetDenseIndex id s =? tombstone then None
        else Some (SparseSet.GetDenseIndex id s)).
Proof.
  intros Hwf. unfold SparseSet.Get.
  destruct (N.eqb_spec (SparseSet.GetDenseIndex id s) tombstone) as [|Hne];
    simpl; [done|].
  pose proof (sparse_wf_index_lt _ _ Hwf Hne) as Hlt.
  destruct (lookup_lt_is_Some_2 _ _ Hlt) as [x Hx].
  by rewrite (proj2 (at_Ok _ _ _) Hx).
Qed.

Lemma Has_registered e T id :
  ecs_wf e → is_Some (ECS.m_componentBitPosition e !! T) →
  ECS.Has T id e = Ok (holds e T id).
Proof.
  intros Hwf [info HT]. unfold ECS.Has.
  rewrite (GetComponentPool_registered e T info false Hwf HT). cbn.
  destruct (pool_at_registered e T info Hwf HT) as (s & Hpo & Hs & ->). cbn.
  rewrite (Get_wf s id Hs). cbn. unfold holds. rewrite Hpo.
  by destruct (SparseSet.GetDenseIndex id s =? tombstone).
Qed.

Lemma Has_unregistered e T id :
  ECS.m_componentBitPosition e !! T = None →
  ECS.Has T id e = Fail (Abort UnregisteredComponent).
Proof.
  intros HT. unfold ECS.Has. by rewrite GetComponentPool_unregistered.
Qed.

Lemma HasRequired_registered e T id :
  ecs_wf e → is_Some (ECS.m_componentBitPosition e !! T) →
  ECS.HasRequired T id e
  = if holds e T id then Ok true else Fail (Abort NoRequiredComponent).
Proof.
  intros Hwf [info HT]. unfold ECS.HasRequired.
  rewrite (GetComponentPool_registered e T info false Hwf HT). cbn.
  destruct (pool_at_registered e T info Hwf HT) as (s & Hpo & Hs & ->). cbn.
  rewrite (Get_wf s id Hs). cbn. unfold holds. rewrite Hpo.
  by destruct (SparseSet.GetDenseIndex id s =? tombstone).
Qed.

Lemma HasRemoved_registered e T id :
  ecs_wf e → is_Some (ECS.m_componentBitPosition e !! T) →
  ECS.HasRemoved T id e
  = if holds e T id then Fail (Abort HasToRemoveComponent) else Ok true.
Proof.
  intros Hwf [info HT]. unfold ECS.HasRemoved.
  rewrite (GetComponentPool_registered e T info false Hwf HT). cbn.
  destruct (pool_at_registered e T info Hwf HT) as (s & Hpo & Hs & ->). cbn.
  rewrite (Get_wf s id Hs). cbn. unfold holds. rewrite Hpo.
  by destruct (SparseSet.GetDenseIndex id s =? tombstone).
Qed.
End ecs_invariant.

(** ** The entity allocator *)

Section allocator.
Context {Val : Type}.
Implicit Types (e : ECS.t Val) (id : EntityID) (name : string).

Lemma back_snoc {A} (l : list A) (x : A) : back (l ++ [x]) = Ok x.
Proof. unfold back. by rewrite last_snoc. Qed.

Lemma pop_back_snoc {A} (l : list A) (x : A) : pop_back (l ++ [x]) = Ok l.
Proof.
  unfold pop_back. destruct (l ++ [x]) eqn:E; [by destruct l|].
  by rewrite <- E, removelast_last.
Qed.

Lemma CreateEntity_reuse e name free id :
  ECS.m_availableEntities e = free ++ [id] → id ≠ tombstone →
  ECS.CreateEntity name e
  = Ok (id, ECS.mk free (record_name name id (ECS.m_entityNames e))
              (ECS.m_componentPools e) (ECS.m_componentBitPosition e)
              (ECS.m_maxEntityID e)).
Proof.
  intros Hfree Hne. unfold ECS.CreateEntity, size.
  rewrite Hfree, length_app, back_snoc, pop_back_snoc. simpl.
  replace (N.of_nat (length free + 1) =? 0) with false
    by (symmetry; apply N.eqb_neq; lia).
  cbn. by rewrite (proj2 (N.eqb_neq _ _) Hne).
Qed.

Lemma CreateEntity_fresh e name :
  ECS.m_availableEntities e = [] → ECS.m_maxEntityID e < MAX_ENTITIES →
  ECS.CreateEntity name e
  = Ok (ECS.m_maxEntityID e,
        ECS.mk [] (record_name name (ECS.m_maxEntityID e) (ECS.m_entityNames e))
          (ECS.m_componentPools e) (ECS.m_componentBitPosition e)
          (ECS.m_maxEntityID e + 1)).
Proof.
  intros Hfree Hlt. unfold ECS.CreateEntity. rewrite Hfree. simpl.
  rewrite (proj2 (N.ltb_lt _ _) Hlt). cbn.
  assert ((ECS.m_maxEntityID e =? tombstone) = false) as ->; [|done].
  apply N.eqb_neq. unfold MAX_ENTITIES, tombstone in *. lia.
Qed.

Lemma CreateEntity_full e name :
  ECS.m_availableEntities e = [] → MAX_ENTITIES ≤ ECS.m_maxEntityID e →
  ECS.CreateEntity name e = Fail (Abort EntityLimitExceeded).
Proof.
  intros Hfree Hge. unfold ECS.CreateEntity. rewrite Hfree. simpl.
  by rewrite (proj2 (N.ltb_ge _ _) Hge).
Qed.

Lemma create_all_fresh (names : list string) e :
  ECS.m_availableEntities e = [] →
  ECS.m_maxEntityID e + N.of_nat (length names) ≤ MAX_ENTITIES →
  ∃ e', create_all names e
        = Ok (N.of_nat <$> seq (N.to_nat (ECS.m_maxEntityID e)) (length names), e')
        ∧ ECS.m_availableEntities e' = []
        ∧ ECS.m_maxEntityID e' = ECS.m_maxEntityID e + N.of_nat (length names)
        ∧ ECS.m_componentPools e' = ECS.m_componentPools e.
Proof.
  revert e. induction names as [|name names IH]; intros e Hfree Hle.
  - exists e. simpl. repeat split; [done|lia].
  - cbn [create_all length] in *.
    rewrite (CreateEntity_fresh e name Hfree) by lia.
    cbn [mbind outcome_bind].
    edestruct IH as (e' & -> & Hf' & Hm' & Hp');
      [..|exists e'; cbn [mbind outcome_bind mret outcome_ret]].
    + done.
    + cbn [ECS.m_maxEntityID]. lia.
    + cbn [ECS.m_maxEntityID ECS.m_componentPools] in *.
      split; [|split; [done|split; [lia|done]]].
      do 2 f_equal. cbn [seq fmap list_fmap]. f_equal; [lia|].
      do 2 f_equal. lia.
Qed.

Lemma DeleteEntity_valid e id :
  valid_entity e id →
  ECS.DeleteEntity id e
  = Ok (NULL_ENTITY,
        ECS.mk (ECS.m_availableEntities e ++ [id])
          (delete id (ECS.m_entityNames e))
          (ECS.m_componentPools e) (ECS.m_componentBitPosition e)
          (ECS.m_maxEntityID e)).
Proof.
  intros Hv. unfold ECS.DeleteEntity, ECS.GetEntityName.
  rewrite (valid_entity_Ok e id Hv). cbn.
  by destruct (ECS.m_entityNames e !! id).
Qed.

Lemma DeleteEntity_invalid e id :
  ¬ valid_entity e id → fatal (ECS.DeleteEntity id e).
Proof. intros Hv. by apply fatal_bind, invalid_entity_fatal. Qed.
End allocator.

(** C8: CreateEntity pops the last id of the free pool when the pool is not
    empty; with an empty pool it is fatal once the high-water mark has
    reached MAX_ENTITIES, and otherwise returns the mark and increments it.
    On a fresh engine, creations without destroys return 0, 1, 2, ... in
    order, and after MAX_ENTITIES of them the next creation is fatal. *)
Theorem CreateEntity_pops_or_bumps
    {Val} (e : ECS.t Val) (name : string) (names : list string) :
  ecs_wf e →
  N.of_nat (length names) ≤ MAX_ENTITIES →
  match last (ECS.m_availableEntities e) with
  | Some id =>
      ECS.CreateEntity name e
      = Ok (id, ECS.mk (removelast (ECS.m_availableEntities e))
                  (record_name name id (ECS.m_entityNames e))
                  (ECS.m_componentPools e) (ECS.m_componentBitPosition e)
                  (ECS.m_maxEntityID e))
  | None =>
      if ECS.m_maxEntityID e <? MAX_ENTITIES then
        ECS.CreateEntity name e
        = Ok (ECS.m_maxEntityID e,
              ECS.mk [] (record_name name (ECS.m_maxEntityID e) (ECS.m_entityNames e))
                (ECS.m_componentPools e) (ECS.m_componentBitPosition e)
                (ECS.m_maxEntityID e + 1))
      else ECS.CreateEntity name e = Fail (Abort EntityLimitExceeded)
  end
  ∧ ∃ e', create_all names (ECS.empty (Val:=Val))
          = Ok (N.of_nat <$> seq 0 (length names), e')
          ∧ ECS.m_availableEntities e' = []
          ∧ ECS.m_maxEntityID e' = N.of_nat (length names)
          ∧ (N.of_nat (length names) = MAX_ENTITIES →
             ∀ name', ECS.CreateEntity name' e' = Fail (Abort EntityLimitExceeded)).
Proof.
  intros Hwf Hlen. split.
  - destruct (ECS.m_availableEntities e) as [|id0 free0] eqn:Hfree using rev_ind.
    + simpl. destruct (N.ltb_spec (ECS.m_maxEntityID e) MAX_ENTITIES).
      * by apply CreateEntity_fresh.
      * by apply CreateEntity_full.
    + clear IHfree0. rewrite last_snoc, removelast_last.
      apply CreateEntity_reuse; [done|].
      assert (id0 < ECS.m_maxEntityID e) as Hlt.
      { apply (wf_free e Hwf). rewrite Hfree. set_solver. }
      pose proof (wf_max e Hwf). unfold MAX_ENTITIES, tombstone in *. lia.
  - destruct (create_all_fresh names (ECS.empty (Val:=Val)))
      as (e' & Hrun & Hfree & Hmax & _); [done|simpl; lia|].
    exists e'. simpl in *. split; [done|]. split; [done|].
    split; [lia|]. intros Hfull name'. apply CreateEntity_full; [done|lia].
Qed.

(** C9: DeleteEntity on a valid id removes the name of the id, pushes the id
    onto the free pool and leaves NULL_ENTITY in the caller's handle; the
    component pools are what they were, so no component of the entity is
    removed. *)
Theorem DeleteEntity_keeps_components {Val} (e : ECS.t Val) (id : EntityID) :
  valid_entity e id →
  ∃ e', ECS.DeleteEntity id e = Ok (NULL_ENTITY, e')
        ∧ ECS.m_entityNames e' = delete id (ECS.m_entityNames e)
        ∧ ECS.m_entityNames e' !! id = None
        ∧ ECS.m_availableEntities e' = ECS.m_availableEntities e ++ [id]
        ∧ ECS.m_componentPools e' = ECS.m_componentPools e
        ∧ ECS.m_componentBitPosition e' = ECS.m_componentBitPosition e
        ∧ ECS.m_maxEntityID e' = ECS.m_maxEntityID e.
Proof.
  intros Hv. eexists. split; [by apply DeleteEntity_valid|]. simpl.
  repeat split. apply lookup_delete_eq.
Qed.

(** ** Runs of the allocator *)

Lemma elem_of_remove_one (id x : EntityID) (live : list EntityID) :
  x ∈ remove_one id live → x ∈ live.
Proof.
  induction live as [|y live IH]; simpl; [done|].
  destruct (decide (y = id)); rewrite !elem_of_cons; tauto.
Qed.

Lemma NoDup_remove_one (id : EntityID) (live : list EntityID) :
  NoDup live → NoDup (remove_one id live) ∧ id ∉ remove_one id live.
Proof.
  induction 1 as [|y live Hy Hnd IH]; simpl.
  - split; [constructor|by intros ?%elem_of_nil].
  - case_decide as E.
    + subst y. done.
    + destruct IH as [IH1 IH2]. split.
      * constructor; [|done]. intros Hin. by apply elem_of_remove_one in Hin.
      * rewrite elem_of_cons. intros [?|?]; congruence.
Qed.

Lemma alloc_step_inv {Val} (o : alloc_op) (st st' : ECS.t Val * list EntityID) :
  alloc_inv st →
  match o with OpDestroy id => id ∈ st.2 | OpCreate _ => True end →
  alloc_step o st = Ok st' → alloc_inv st'.
Proof.
  destruct st as [e live]. intros ((Hl & Hf & Hd) & Hlm & Hfm & Hmax) Hop Hstep.
  simpl in *. destruct o as [name|id]; simpl in Hstep.
  - apply bind_Ok in Hstep as ([id e1] & HC & [= <-]).
    destruct (ECS.m_availableEntities e) as [|id0 free0] eqn:Hfree using rev_ind.
    + destruct (N.ltb_spec (ECS.m_maxEntityID e) MAX_ENTITIES) as [Hlt|Hge].
      * rewrite CreateEntity_fresh in HC by done. injection HC as <- <-.
        repeat split; simpl.
        -- apply NoDup_app. split; [done|]. split; [|apply NoDup_singleton].
           intros x Hx ->%list_elem_of_singleton. apply Hlm in Hx. lia.
        -- constructor.
        -- set_solver.
        -- intros x [Hx| ->%list_elem_of_singleton]%elem_of_app; [|lia].
           apply Hlm in Hx. lia.
        -- set_solver.
        -- lia.
      * by rewrite CreateEntity_full in HC.
    + clear IHfree0.
      assert (id0 ≠ tombstone) as Hne.
      { assert (id0 < ECS.m_maxEntityID e) by (apply Hfm; set_solver).
        unfold MAX_ENTITIES, tombstone in *. lia. }
      rewrite (CreateEntity_reuse e name free0 id0 Hfree Hne) in HC.
      injection HC as <- <-. apply NoDup_app in Hf as (Hf0 & Hf1 & _).
      repeat split; simpl.
      * apply NoDup_app. split; [done|]. split; [|apply NoDup_singleton].
        intros x Hx ->%list_elem_of_singleton. apply Hd in Hx. set_solver.
      * done.
      * intros x [Hx| ->%list_elem_of_singleton]%elem_of_app Hin.
        -- apply Hd in Hx. set_solver.
        -- apply Hf1 in Hin. set_solver.
      * intros x [Hx| ->%list_elem_of_singleton]%elem_of_app.
        -- by apply Hlm.
        -- apply Hfm. set_solver.
      * intros x Hx. apply Hfm. set_solver.
      * done.
  - apply bind_Ok in Hstep as ([h e1] & HD & [= <-]).
    assert (valid_entity e id) as Hv.
    { split; [|by apply Hlm]. apply Hlm in Hop.
      unfold MAX_ENTITIES, NULL_ENTITY in *. lia. }
    rewrite (DeleteEntity_valid e id Hv) in HD. injection HD as <- <-.
    destruct (NoDup_remove_one id live Hl) as [Hl1 Hl2].
    repeat split; simpl.
    + done.
    + apply NoDup_app. split; [done|]. split; [|apply NoDup_singleton].
      intros x Hx ->%list_elem_of_singleton. by apply Hd in Hop.
    + intros x Hx [Hin| ->%list_elem_of_singleton]%elem_of_app; [|done].
      apply elem_of_remove_one in Hx. by apply Hd in Hx.
    + intros x Hx. by apply Hlm, elem_of_remove_one with id.
    + intros x [Hx| ->%list_elem_of_singleton]%elem_of_app; [by apply Hfm|].
      by apply Hlm.
    + done.
Qed.

Lemma alloc_trace_inv {Val} (ops : list alloc_op) (st : ECS.t Val * list EntityID) :
  alloc_inv st → destroys_live ops st = true →
  Forall alloc_inv (alloc_trace ops st).
Proof.
  revert st. induction ops as [|o ops IH]; intros st Hinv Hlive; simpl;
    [constructor|].
  simpl in Hlive. apply andb_true_iff in Hlive as [Ho Hrest].
  destruct (alloc_step o st) as [st'|f] eqn:Hstep; [|constructor].
  assert (alloc_inv st').
  { eapply alloc_step_inv; [done| |done].
    destruct o; [done|]. by apply bool_decide_eq_true_1 in Ho. }
  constructor; [done|by apply IH].
Qed.

(** C2, as the code has it: in a run of CreateEntity and DeleteEntity calls
    where every DeleteEntity is given the id of a live entity, after each
    call no two live entities have the same id, the free pool has no
    duplicates, and no id is both live and in the free pool. *)
Theorem live_ids_unshared {Val} (ops : list alloc_op) :
  destroys_live ops (ECS.empty (Val:=Val), []) = true →
  Forall ids_unshared (alloc_trace ops (ECS.empty (Val:=Val), [])).
Proof.
  intros Hlive. eapply Forall_impl; [apply alloc_trace_inv; [|done]|].
  - unfold alloc_inv, ids_unshared. simpl.
    repeat split;
      first [apply NoDup_nil_2 | by intros id ?%elem_of_nil | done].
  - by intros st [H _].
Qed.

(** C2 fails as stated: after a DeleteEntity on an id that was already
    destroyed and not yet reissued, the free pool holds the id twice, and
    the next two creations give two live entities the id 0. *)
Lemma double_destroy_shares_id :
  (∃ e, alloc_trace double_destroy (ECS.empty (Val:=unit), []) !! 4%nat
        = Some (e, [0; 0]))
  ∧ ¬ Forall ids_unshared (alloc_trace double_destroy (ECS.empty (Val:=unit), [])).
Proof.
  assert (∃ e, alloc_trace double_destroy (ECS.empty (Val:=unit), []) !! 4%nat
               = Some (e, [0; 0])) as [e He] by by eexists.
  split; [by exists e|].
  intros H. pose proof (Forall_lookup_1 _ _ _ _ H He) as (Hnd & _).
  simpl in Hnd. apply NoDup_cons in Hnd as [Hin _]. apply Hin. by left.
Qed.

Lemma live_ids_unshared_witness :
  let ops := [OpCreate "a"; OpCreate EmptyString; OpDestroy 0; OpCreate "b"; OpDestroy 1] in
  destroys_live ops (ECS.empty (Val:=unit), []) = true
  ∧ Forall ids_unshared (alloc_trace ops (ECS.empty (Val:=unit), [])).
Proof.
  split; [reflexivity|]. apply (live_ids_unshared (Val:=unit)). reflexivity.
Defined.

(** ** The invariant along the engine's operations *)

Section ecs_preservation.
Context {Val : Type}.
Implicit Types (e : ECS.t Val) (T C : TypeName) (id : EntityID).

Lemma same_layout_refl e : same_layout e e.
Proof. done. Qed.

Lemma same_layout_trans e1 e2 e3 :
  same_layout e1 e2 → same_layout e2 e3 → same_layout e1 e3.
Proof.
  intros (Hp1 & Hf1 & Hm1 & Hb1) (Hp2 & Hf2 & Hm2 & Hb2).
  repeat split; [congruence..|]. intros T. by rewrite Hb2.
Qed.

Lemma wf_same_layout e e' : ecs_wf e → same_layout e e' → ecs_wf e'.
Proof.
  intros Hwf (Hp & Hf & Hm & Hb). split; rewrite ?Hp, ?Hf, ?Hm;
    try by destruct Hwf.
  intros T info' HT. pose proof (Hb T) as HbT. rewrite HT in HbT.
  symmetry in HbT. apply fmap_Some in HbT as (info & HT0 & Hpos).
  simpl in Hpos. rewrite Hpos. by eapply wf_pool_of.
Qed.

Lemma SetRequirements_layout (D R : TypeName) e e' :
  ECS.SetRequirements D R e = Ok e' → same_layout e e'.
Proof.
  unfold ECS.SetRequirements.
  destruct (ECS.m_componentBitPosition e !! R) as [info|] eqn:HR; [|done].
  intros H. inv_ok. subst e'. repeat split; simpl. intros T.
  destruct (decide (R = T)) as [<-|Hne].
  - by rewrite lookup_insert_eq, HR.
  - by rewrite lookup_insert_ne.
Qed.

Lemma BroadcastRequirements_layout (D : TypeName) (Rs : list TypeName) e e' :
  ECS.BroadcastRequirements D Rs e = Ok e' → same_layout e e'.
Proof.
  revert e. induction Rs as [|R Rs IH]; intros e H; simpl in H.
  - injection H as <-. apply same_layout_refl.
  - inv_ok. eapply same_layout_trans; [by eapply SetRequirements_layout|].
    by apply IH.
Qed.

Lemma RegisterComponent_wf T (Cs : list TypeName) e e' :
  ecs_wf e → ECS.RegisterComponent T Cs e = Ok e' → ecs_wf e'.
Proof.
  intros Hwf H. unfold ECS.RegisterComponent in H. inv_ok.
  rename H0 into Hfresh, H1 into Hcap, H into Hbc.
  apply bool_decide_eq_true_1 in Hfresh. apply N.ltb_lt in Hcap.
  eapply wf_same_layout; [|by eapply BroadcastRequirements_layout].
  unfold size in *. split; simpl.
  - intros T' info HT'. destruct (decide (T = T')) as [<-|Hne].
    + rewrite lookup_insert_eq in HT'. injection HT' as <-. simpl.
      rewrite Nat2N.id. exists (ECS.mkPool T SparseSet.empty).
      split; [|done].
      by rewrite lookup_app_r, Nat.sub_diag by lia.
    + rewrite lookup_insert_ne in HT' by done.
      destruct (wf_pool_of e Hwf T' info HT') as (pool & Hp & Hty).
      exists pool. split; [|done]. rewrite lookup_app_l; [done|].
      by eapply lookup_lt_Some.
  - intros i pool [Hi|[_ Hi]]%lookup_app_Some.
    + by eapply wf_pools.
    + apply list_lookup_singleton_Some in Hi as [_ <-]. apply sparse_wf_empty.
  - intros i pool id [Hi|[_ Hi]]%lookup_app_Some Hid.
    + by eapply wf_owners.
    + apply list_lookup_singleton_Some in Hi as [_ <-]. simpl in Hid.
      by apply elem_of_nil in Hid.
  - unfold size. rewrite length_app. simpl. unfold MAX_COMPONENTS in *. lia.
  - by destruct Hwf.
  - by destruct Hwf.
Qed.

Lemma RegisterComponent_registers T (Cs : list TypeName) e e' :
  ECS.RegisterComponent T Cs e = Ok e' →
  is_Some (ECS.m_componentBitPosition e' !! T)
  ∧ ECS.m_maxEntityID e' = ECS.m_maxEntityID e
  ∧ ECS.m_availableEntities e' = ECS.m_availableEntities e.
Proof.
  intros H. unfold ECS.RegisterComponent in H. inv_ok.
  apply BroadcastRequirements_layout in H as (_ & Hf & Hm & Hb).
  simpl in *. split; [|done]. specialize (Hb T).
  rewrite lookup_insert_eq in Hb. simpl in Hb.
  destruct (ECS.m_componentBitPosition e' !! T); [done|discriminate].
Qed.

(** A pool reference that [GetComponentPool] returns is the bit position
    of a registered type. *)
Lemma GetComponentPool_Ok T reg e pool e' :
  ecs_wf e → ECS.GetComponentPool T reg e = Ok (pool, e') →
  ecs_wf e'
  ∧ (∃ info, ECS.m_componentBitPosition e' !! T = Some info
             ∧ pool = ECS.m_bitPosition info)
  ∧ ECS.m_maxEntityID e' = ECS.m_maxEntityID e
  ∧ ECS.m_availableEntities e' = ECS.m_availableEntities e.
Proof.
  intros Hwf H.
  destruct (ECS.m_componentBitPosition e !! T) as [info|] eqn:HT.
  - rewrite (GetComponentPool_registered e T info reg Hwf HT) in H.
    injection H as <- <-. eauto 6.
  - unfold ECS.GetComponentPool, ECS.GetComponentBitPosition in H.
    rewrite HT, N.eqb_refl in H. destruct reg; [|done].
    apply bind_Ok in H as ([b1 e1] & H1 & H).
    apply bind_Ok in H1 as ([b2 e2] & H2 & H1).
    apply bind_Ok in H2 as (e3 & Hreg & H2).
    cbn [mbind outcome_bind mret outcome_ret BSEECS_ASSERT] in H1, H2.
    injection H2 as <- <-. injection H1 as <- <-.
    pose proof (RegisterComponent_wf _ _ _ _ Hwf Hreg) as Hwf3.
    destruct (RegisterComponent_registers _ _ _ _ Hreg) as ([info HT3] & ? & ?).
    rewrite HT3 in H. inv_ok. subst. eauto 6.
Qed.

(** *** Writing a pool back *)

Lemma pool_update_registered e T info (s' : SparseSet.t Val) :
  ecs_wf e → ECS.m_componentBitPosition e !! T = Some info →
  ECS.pool_update (ECS.m_bitPosition info) s' e
  = Ok (ECS.set_componentPools e
          (<[N.to_nat (ECS.m_bitPosition info) := ECS.mkPool T s']>
             (ECS.m_componentPools e))).
Proof.
  intros Hwf HT. destruct (wf_pool_of e Hwf T info HT) as (pool & Hp & Hty).
  unfold ECS.pool_update. rewrite (proj2 (at_Ok _ _ _) Hp). cbn.
  rewrite Hty.
  rewrite (proj2 (store_Ok _ _ _ _) (conj (lookup_lt_Some _ _ _ Hp) eq_refl)).
  done.
Qed.

Lemma pool_update_wf e T info (s' : SparseSet.t Val) :
  ecs_wf e → ECS.m_componentBitPosition e !! T = Some info →
  sparse_wf s' →
  (∀ id, id ∈ SparseSet.m_denseToEntity s' → id < ECS.m_maxEntityID e) →
  ecs_wf (ECS.set_componentPools e
            (<[N.to_nat (ECS.m_bitPosition info) := ECS.mkPool T s']>
               (ECS.m_componentPools e))).
Proof.
  intros Hwf HT Hs' Hown.
  destruct (wf_pool_of e Hwf T info HT) as (pool & Hp & Hty).
  apply lookup_lt_Some in Hp as Hlt.
  split; ecs_simpl; try by destruct Hwf.
  - intros T' info' HT'.
    destruct (decide (ECS.m_bitPosition info' = ECS.m_bitPosition info))
      as [Heq|Hne].
    + rewrite Heq. eexists. split; [by apply list_lookup_insert_eq|].
      ecs_simpl. by eapply wf_bit_inj.
    + rewrite list_lookup_insert_ne by lia. by eapply wf_pool_of.
  - intros i p [(<- & <- & _)|[_ Hi]]%list_lookup_insert_Some; [done|].
    by eapply wf_pools.
  - intros i p id [(<- & <- & _)|[_ Hi]]%list_lookup_insert_Some Hid.
    + by apply Hown.
    + by eapply wf_owners.
  - unfold size. rewrite length_insert. by destruct Hwf.
Qed.

Lemma pool_of_update e T info (s' : SparseSet.t Val) T' :
  ecs_wf e → ECS.m_componentBitPosition e !! T = Some info →
  pool_of (ECS.set_componentPools e
             (<[N.to_nat (ECS.m_bitPosition info) := ECS.mkPool T s']>
                (ECS.m_componentPools e))) T'
  = if decide (T' = T) then Some s' else pool_of e T'.
Proof.
  intros Hwf HT. destruct (wf_pool_of e Hwf T info HT) as (pool & Hp & Hty).
  apply lookup_lt_Some in Hp as Hlt. unfold pool_of. ecs_simpl.
  case_decide as E.
  - subst T'. rewrite HT. cbn [mbind option_bind].
    by rewrite list_lookup_insert_eq.
  - destruct (ECS.m_componentBitPosition e !! T') as [info'|] eqn:HT'; [|done].
    cbn [mbind option_bind]. rewrite list_lookup_insert_ne; [done|].
    intros Heq. apply E. symmetry. eapply wf_bit_inj; [done..|lia].
Qed.

(** *** Owners of a pool's records *)

Lemma Set_owners (s s' : SparseSet.t Val) id obj p :
  sparse_wf s → SparseSet.Set_ id obj s = Ok (p, s') →
  ∀ x, x ∈ SparseSet.m_denseToEntity s' →
       x ∈ SparseSet.m_denseToEntity s ∨ x = id.
Proof.
  intros Hwf HS x Hx.
  destruct (decide (SparseSet.GetDenseIndex id s = tombstone)) as [Hts|Hne].
  - rewrite Set_absent in HS by (done || by destruct Hwf as [[? _] _]).
    destruct (size (SparseSet.m_dense s) <? vector_max_size); [|done].
    injection HS as <- <-. simpl in Hx.
    apply elem_of_app in Hx as [?|?%list_elem_of_singleton]; auto.
  - rewrite Set_present in HS by done. injection HS as <- <-. by left.
Qed.

Lemma Delete_owners (s s' : SparseSet.t Val) id :
  sparse_wf s → SparseSet.Delete id s = Ok s' →
  ∀ x, x ∈ SparseSet.m_denseToEntity s' → x ∈ SparseSet.m_denseToEntity s.
Proof.
  intros Hwf HD x Hx.
  destruct (decide (SparseSet.GetDenseIndex id s = tombstone)) as [Hts|Hne].
  { by rewrite Delete_absent in HD. }
  destruct (Delete_present s id Hwf Hne)
    as (s1 & moved & b & Hmoved & _ & HD' & _ & Hl2 & _ & Hlk & _).
  rewrite HD in HD'. injection HD' as <-.
  apply list_elem_of_lookup in Hx as [n Hn].
  apply lookup_lt_Some in Hn as Hlt. rewrite Hl2 in Hlt.
  rewrite Hlk in Hn by done. apply list_elem_of_lookup.
  case_decide; [|by eexists]. injection Hn as <-. by eexists.
Qed.

(** *** The operations *)

Lemma CreateEntity_wf e name id e' :
  ecs_wf e → ECS.CreateEntity name e = Ok (id, e') →
  ecs_wf e' ∧ valid_entity e' id
  ∧ ECS.m_componentPools e' = ECS.m_componentPools e
  ∧ ECS.m_componentBitPosition e' = ECS.m_componentBitPosition e.
Proof.
  intros Hwf HC. pose proof (wf_max e Hwf) as Hmax.
  destruct (ECS.m_availableEntities e) as [|id0 free0] eqn:Hfree using rev_ind.
  - destruct (N.ltb_spec (ECS.m_maxEntityID e) MAX_ENTITIES) as [Hlt|Hge].
    + rewrite CreateEntity_fresh in HC by done. injection HC as <- <-.
      split; [split; simpl; try by destruct Hwf|].
      * intros i pool id Hi Hid.
        pose proof (wf_owners e Hwf i pool id Hi Hid). lia.
      * lia.
      * by intros id ?%elem_of_nil.
      * repeat split; simpl; [|lia].
        unfold MAX_ENTITIES, NULL_ENTITY in *. lia.
    + by rewrite CreateEntity_full in HC.
  - clear IHfree0.
    assert (id0 < ECS.m_maxEntityID e) as Hlt.
    { apply (wf_free e Hwf). rewrite Hfree. apply elem_of_app. right.
      by apply list_elem_of_singleton. }
    assert (id0 ≠ tombstone) as Hne
      by (unfold MAX_ENTITIES, tombstone in *; lia).
    rewrite (CreateEntity_reuse e name free0 id0 Hfree Hne) in HC.
    injection HC as <- <-.
    split; [split; simpl; try by destruct Hwf|].
    + intros id Hid. apply (wf_free e Hwf). rewrite Hfree.
      apply elem_of_app. by left.
    + repeat split; simpl; [|done].
      unfold MAX_ENTITIES, NULL_ENTITY in *. lia.
Qed.

Lemma DeleteEntity_wf e id h e' :
  ecs_wf e → ECS.DeleteEntity id e = Ok (h, e') → ecs_wf e'.
Proof.
  intros Hwf HD. destruct (valid_entity_cases e id) as [[_ Hv]|Hf].
  - rewrite (DeleteEntity_valid e id Hv) in HD. injection HD as <- <-.
    split; simpl; try by destruct Hwf.
    intros x [Hx| ->%list_elem_of_singleton]%elem_of_app.
    + by apply (wf_free e Hwf).
    + by destruct Hv.
  - exfalso. eapply fatal_not_Ok; [|done]. by apply fatal_bind.
Qed.

Lemma pool_at_Ok e (pool : N) (s : SparseSet.t Val) :
  ECS.pool_at pool e = Ok s →
  ∃ p, ECS.m_componentPools e !! N.to_nat pool = Some p ∧ ECS.pool_set p = s.
Proof.
  unfold ECS.pool_at. intros H. inv_ok. apply at_Ok in H0. eauto.
Qed.

Lemma Add_wf T (Rs : list TypeName) id (v : Val) e p e' :
  ecs_wf e → ECS.Add T Rs id v e = Ok (p, e') → ecs_wf e'.
Proof.
  intros Hwf H. unfold ECS.Add in H.
  destruct (valid_entity_cases e id) as [[Hvok Hv]|Hf];
    [|exfalso; eapply fatal_not_Ok; [|done]; by apply fatal_bind].
  rewrite Hvok in H. cbn [mbind outcome_bind] in H.
  apply bind_Ok in H as ([pool e1] & HG & H).
  destruct (GetComponentPool_Ok _ _ _ _ _ Hwf HG)
    as (Hwf1 & (info & HT & ->) & Hmax & _).
  destruct (pool_at_registered e1 T info Hwf1 HT) as (s & Hpo & Hs & Hat).
  rewrite Hat in H. cbn [mbind outcome_bind] in H.
  apply bind_Ok in H as (p0 & _ & H). apply bind_Ok in H as (u1 & _ & H).
  apply bind_Ok in H as (m & _ & H). apply bind_Ok in H as (R & _ & H).
  apply bind_Ok in H as (u2 & _ & H). apply bind_Ok in H as (ok & _ & H).
  apply bind_Ok in H as (u3 & _ & H).
  apply bind_Ok in H as ([ref s3] & HS & H).
  apply bind_Ok in H as (e2 & HU & H). injection H as <- <-.
  rewrite (pool_update_registered e1 T info s3 Hwf1 HT) in HU.
  injection HU as <-.
  apply pool_update_wf; [done..|by eapply Set_wf|].
  intros x Hx. eapply Set_owners in Hx as [Hx| ->]; [| |done..].
  - destruct (pool_of_registered e1 T info Hwf1 HT) as (pl & Hpl & _ & Hpo' & _).
    rewrite Hpo in Hpo'. injection Hpo' as ->. by eapply wf_owners.
  - rewrite Hmax. by destruct Hv.
Qed.

Lemma Remove_wf T (Ss : list TypeName) id e e' :
  ecs_wf e → ECS.Remove T Ss id e = Ok e' → ecs_wf e'.
Proof.
  intros Hwf H. unfold ECS.Remove in H.
  destruct (valid_entity_cases e id) as [[Hvok Hv]|Hf];
    [|exfalso; eapply fatal_not_Ok; [|done]; by apply fatal_bind].
  rewrite Hvok in H. cbn [mbind outcome_bind] in H.
  apply bind_Ok in H as ([pool e1] & HG & H).
  destruct (GetComponentPool_Ok _ _ _ _ _ Hwf HG)
    as (Hwf1 & (info & HT & ->) & Hmax & _).
  destruct (pool_at_registered e1 T info Hwf1 HT) as (s & Hpo & Hs & Hat).
  rewrite Hat in H. cbn [mbind outcome_bind] in H.
  apply bind_Ok in H as (p0 & _ & H). apply bind_Ok in H as (u1 & _ & H).
  apply bind_Ok in H as (m & _ & H). apply bind_Ok in H as (S & _ & H).
  apply bind_Ok in H as (u2 & _ & H). apply bind_Ok in H as (ok & _ & H).
  apply bind_Ok in H as (u3 & _ & H).
  apply bind_Ok in H as (s3 & HD & H).
  rewrite (pool_update_registered e1 T info s3 Hwf1 HT) in H.
  injection H as <-.
  apply pool_update_wf; [done..|by eapply Delete_wf|].
  intros x Hx. eapply Delete_owners in Hx; [|done..].
  destruct (pool_of_registered e1 T info Hwf1 HT) as (pl & Hpl & _ & Hpo' & _).
  rewrite Hpo in Hpo'. injection Hpo' as ->. by eapply wf_owners.
Qed.
End ecs_preservation.

(** ** Room in the dense arrays *)

Lemma NoDup_bounded_length (l : list N) (n : N) :
  NoDup l → (∀ x, x ∈ l → x < n) → N.of_nat (length l) ≤ n.
Proof.
  intros Hnd Hlt.
  assert (Inj (=) (=) N.to_nat) as Hinj by (intros x y; apply N2Nat.inj).
  assert (N.to_nat <$> l ⊆+ seq 0 (N.to_nat n)) as Hsub.
  { apply NoDup_submseteq; [by apply NoDup_fmap_2|].
    intros k (x & -> & Hx)%list_elem_of_fmap. apply elem_of_seq.
    apply Hlt in Hx. lia. }
  apply submseteq_length in Hsub. rewrite length_fmap, length_seq in Hsub. lia.
Qed.

Lemma sparse_wf_NoDup {T} (s : SparseSet.t T) :
  sparse_wf s → NoDup (SparseSet.m_denseToEntity s).
Proof.
  intros [[_ Hb] _]. apply NoDup_alt. intros i j x Hi Hj.
  apply Hb in Hi, Hj. lia.
Qed.

Lemma pool_has_room {Val} (e : ECS.t Val) (i : nat) (pool : ECS.Pool Val) :
  ecs_wf e → ECS.m_componentPools e !! i = Some pool →
  size (SparseSet.m_dense (ECS.pool_set pool)) < vector_max_size.
Proof.
  intros Hwf Hi. pose proof (wf_pools e Hwf i pool Hi) as Hs.
  pose proof (NoDup_bounded_length _ (ECS.m_maxEntityID e) (sparse_wf_NoDup _ Hs))
    as Hlen.
  destruct Hs as [[Heq _] _]. pose proof (wf_max e Hwf).
  unfold size, vector_max_size, MAX_ENTITIES in *. rewrite Heq.
  assert (N.of_nat (length (SparseSet.m_denseToEntity (ECS.pool_set pool)))
          ≤ ECS.m_maxEntityID e); [|lia].
  apply Hlen. intros x Hx. by eapply wf_owners.
Qed.

(** ** Masks *)

Section masks.
Context {Val : Type}.
Implicit Types (e : ECS.t Val) (T C : TypeName) (id : EntityID).

Lemma SetComponentBit_registered e C info (mask : N) :
  ecs_wf e → ECS.m_componentBitPosition e !! C = Some info →
  ECS.SetComponentBit C mask true e = Ok (N.setbit mask (ECS.m_bitPosition info)).
Proof.
  intros Hwf HC. destruct (wf_bit_lt e C info Hwf HC) as [_ Hlt].
  unfold ECS.SetComponentBit.
  rewrite (GetComponentBitPosition_registered e C info HC).
  assert ((ECS.m_bitPosition info =? tombstone) = false) as ->.
  { apply N.eqb_neq. unfold MAX_COMPONENTS, tombstone in *. lia. }
  cbn. by rewrite (proj2 (N.ltb_lt _ _) Hlt).
Qed.

Lemma SetComponentBit_unregistered e C (mask : N) :
  ECS.m_componentBitPosition e !! C = None →
  ECS.SetComponentBit C mask true e = Fail (Abort UnregisteredComponent).
Proof.
  intros HC. unfold ECS.SetComponentBit, ECS.GetComponentBitPosition.
  by rewrite HC.
Qed.

(** Assembling a mask either aborts on an unregistered type or sets the
    bit of every listed type. *)
Lemma SetComponentBits_cases e (Cs : list TypeName) (mask : N) :
  ecs_wf e →
  (Forall (registered e) Cs
   ∧ ECS.SetComponentBits Cs mask e = Ok (mask_from e Cs mask))
  ∨ ECS.SetComponentBits Cs mask e = Fail (Abort UnregisteredComponent).
Proof.
  intros Hwf. revert mask. induction Cs as [|C Cs IH]; intros mask; simpl.
  - left. by split.
  - destruct (ECS.m_componentBitPosition e !! C) as [info|] eqn:HC.
    + rewrite (SetComponentBit_registered e C info mask Hwf HC).
      cbn [mbind outcome_bind].
      rewrite (GetComponentBitPosition_registered e C info HC).
      destruct (IH (N.setbit mask (ECS.m_bitPosition info))) as [[HF ->]| ->];
        [left|by right].
      split; [|done]. constructor; [by eexists|done].
    + right. by rewrite SetComponentBit_unregistered.
Qed.

Lemma GetMask_cases e (Cs : list TypeName) :
  ecs_wf e →
  (Forall (registered e) Cs ∧ ECS.GetMask Cs e = Ok (mask_from e Cs 0))
  ∨ ECS.GetMask Cs e = Fail (Abort UnregisteredComponent).
Proof. apply SetComponentBits_cases. Qed.

Lemma testbit_mask_from e (Cs : list TypeName) (mask b : N) :
  N.testbit (mask_from e Cs mask) b = true ↔
  N.testbit mask b = true ∨ ∃ C, C ∈ Cs ∧ ECS.GetComponentBitPosition C e = b.
Proof.
  revert mask. induction Cs as [|C Cs IH]; intros mask; simpl.
  - split; [by left|]. intros [?|(C & []%elem_of_nil & _)]. done.
  - rewrite IH, N.setbit_eqb, orb_true_iff, N.eqb_eq. split.
    + intros [[Heq|?]|(C' & ? & ?)]; [right|by left|right].
      * exists C. split; [by left|done].
      * exists C'. split; [by right|done].
    + intros [?|(C' & [->|?]%elem_of_cons & ?)]; [by left; right|by left; left|].
      right. by exists C'.
Qed.

(** Membership of a registered type's bit in the mask of a list of
    registered types is membership of the type in the list. *)
Lemma bit_in_mask e (Cs : list TypeName) C info :
  ecs_wf e → Forall (registered e) Cs →
  ECS.m_componentBitPosition e !! C = Some info →
  N.testbit (mask_from e Cs 0) (ECS.m_bitPosition info) = true ↔ C ∈ Cs.
Proof.
  intros Hwf HF HC. rewrite testbit_mask_from, N.bits_0. split.
  - intros [?|(C' & HC' & Hbit)]; [done|].
    rewrite Forall_forall in HF. destruct (HF C' HC') as [info' HC'i].
    rewrite (GetComponentBitPosition_registered e C' info' HC'i) in Hbit.
    by rewrite <- (wf_bit_inj e C' C info' info Hwf HC'i HC Hbit).
  - intros Hin. right. exists C. split; [done|].
    by apply GetComponentBitPosition_registered.
Qed.

(** *** The folds over a parameter pack *)

Lemma HasAll_registered e (Ts : list TypeName) id :
  ecs_wf e → Forall (registered e) Ts →
  ECS.HasAll Ts id e = Ok (forallb (λ C, holds e C id) Ts).
Proof.
  intros Hwf. induction 1 as [|C Ts HC HF IH]; simpl; [done|].
  rewrite (Has_registered e C id Hwf HC). cbn [mbind outcome_bind].
  destruct (holds e C id); [by rewrite IH|done].
Qed.

Lemma HasAllRequired_registered e (Ts : list TypeName) id :
  ecs_wf e → Forall (registered e) Ts →
  ECS.HasAllRequired Ts id e
  = if forallb (λ C, holds e C id) Ts then Ok true
    else Fail (Abort NoRequiredComponent).
Proof.
  intros Hwf. induction 1 as [|C Ts HC HF IH]; simpl; [done|].
  rewrite (HasRequired_registered e C id Hwf HC).
  destruct (holds e C id); [|done].
  cbn [mbind outcome_bind andb]. by rewrite IH.
Qed.

Lemma HasRemovedAll_registered e (Ts : list TypeName) id :
  ecs_wf e → Forall (registered e) Ts →
  ECS.HasRemovedAll Ts id e
  = if existsb (λ C, holds e C id) Ts then Fail (Abort HasToRemoveComponent)
    else Ok true.
Proof.
  intros Hwf. induction 1 as [|C Ts HC HF IH]; simpl; [done|].
  rewrite (HasRemoved_registered e C id Hwf HC).
  destruct (holds e C id); [done|].
  cbn [mbind outcome_bind orb]. by rewrite IH.
Qed.
End masks.

(** ** Attaching a component *)

Ltac step := cbn [mbind outcome_bind mret outcome_ret].

Section add.
Context {Val : Type}.
Implicit Types (e : ECS.t Val) (T C : TypeName) (id : EntityID).

Lemma holds_pool e T (s : SparseSet.t Val) id :
  pool_of e T = Some s →
  holds e T id = negb (SparseSet.GetDenseIndex id s =? tombstone).
Proof. unfold holds. by intros ->. Qed.

Lemma Has_Ok_holds e T id (b : bool) :
  ecs_wf e → registered e T → ECS.Has T id e = Ok b → holds e T id = b.
Proof. intros Hwf HT. rewrite Has_registered by done. congruence. Qed.

Lemma Set_absent_Ok (s : SparseSet.t Val) id (v : Val) :
  sparse_wf s → SparseSet.GetDenseIndex id s = tombstone →
  size (SparseSet.m_dense s) < vector_max_size →
  ∃ s', SparseSet.Set_ id v s = Ok (size (SparseSet.m_dense s), s')
        ∧ sparse_wf s'
        ∧ SparseSet.GetDenseIndex id s' = size (SparseSet.m_dense s)
        ∧ SparseSet.m_dense s' = SparseSet.m_dense s ++ [v]
        ∧ SparseSet.m_denseToEntity s' = SparseSet.m_denseToEntity s ++ [id].
Proof.
  intros Hwf Hts Hroom.
  pose proof (Set_absent s id v Hts ltac:(by destruct Hwf as [[? _] _])) as HS.
  rewrite (proj2 (N.ltb_lt _ _) Hroom) in HS.
  eexists. split; [done|]. split; [by eapply Set_wf|].
  split; [|done].
  rewrite (GetDenseIndex_pages_only id _
             (SparseSet.SetDenseIndex id (size (SparseSet.m_dense s)) s)) by done.
  by rewrite GetDenseIndex_SetDenseIndex, decide_True.
Qed.

(** [Add] on a registered type, with the pool lookups resolved. *)
Lemma Add_registered e T info (Rs : list TypeName) id (v : Val) s :
  ecs_wf e → ECS.m_componentBitPosition e !! T = Some info →
  pool_of e T = Some s →
  ECS.Add T Rs id v e
  = (_ ← ECS.BSEECS_ASSERT_VALID_ENTITY id e;
     _ ← BSEECS_ASSERT (negb (holds e T id)) AlreadyHasComponent;
     m ← ECS.GetMask Rs e;
     _ ← BSEECS_ASSERT (N.lxor m (ECS.m_requiredComponents info) =? 0)
           RequiredMismatch;
     ok ← ECS.HasAllRequired Rs id e;
     _ ← BSEECS_ASSERT ok MissingRequired;
     '(ref, s') ← SparseSet.Set_ id v s;
     mret (ref,
           ECS.set_componentPools e
             (<[N.to_nat (ECS.m_bitPosition info) := ECS.mkPool T s']>
                (ECS.m_componentPools e)))).
Proof.
  intros Hwf HT Hpo. unfold ECS.Add.
  destruct (ECS.BSEECS_ASSERT_VALID_ENTITY id e) as [[]|f]; [|done]. step.
  rewrite (GetComponentPool_registered e T info true Hwf HT). step.
  destruct (pool_at_registered e T info Hwf HT) as (s0 & Hpo0 & Hs & Hat).
  rewrite Hpo in Hpo0. injection Hpo0 as <-. rewrite Hat. step.
  rewrite (Get_wf s id Hs). step. rewrite (holds_pool e T s id Hpo).
  destruct (SparseSet.GetDenseIndex id s =? tombstone); [|done].
  cbn [ECS.non_null negb BSEECS_ASSERT]. step.
  destruct (ECS.GetMask Rs e) as [m|f]; [|done]. step.
  unfold ECS.GetRequiredComponent. rewrite HT. cbn [ECS.deref_mask]. step.
  destruct (BSEECS_ASSERT (N.lxor m (ECS.m_requiredComponents info) =? 0)
              RequiredMismatch) as [[]|f]; [|done]. step.
  destruct (ECS.HasAllRequired Rs id e) as [ok|f]; [|done]. step.
  destruct (BSEECS_ASSERT ok MissingRequired) as [[]|f]; [|done]. step.
  destruct (SparseSet.Set_ id v s) as [[ref s']|f]; [|done]. step.
  by rewrite (pool_update_registered e T info s' Hwf HT).
Qed.

Lemma Get_registered e T info s id :
  ecs_wf e → ECS.m_componentBitPosition e !! T = Some info →
  pool_of e T = Some s → valid_entity e id →
  ECS.Get T id e
  = if holds e T id
    then at_ (SparseSet.m_dense s) (SparseSet.GetDenseIndex id s)
    else Fail (Abort MissingComponent).
Proof.
  intros Hwf HT Hpo Hv. unfold ECS.Get.
  rewrite (valid_entity_Ok e id Hv). step.
  rewrite (GetComponentPool_registered e T info false Hwf HT). step.
  destruct (pool_at_registered e T info Hwf HT) as (s0 & Hpo0 & Hs & Hat).
  rewrite Hpo in Hpo0. injection Hpo0 as <-. rewrite Hat. step.
  rewrite (Get_wf s id Hs). step. rewrite (holds_pool e T s id Hpo).
  by destruct (SparseSet.GetDenseIndex id s =? tombstone).
Qed.
End add.

(** C3: Add<T>(e, v, declared...) for a registered type T with required
    mask R is fatal when T is already present on e, when the mask of the
    declared types is not R (the XOR of the two is not zero, or a declared
    type is not registered), and when e lacks a type of R.  Otherwise, for a
    valid entity, it stores v in T's sparse set and returns a reference to
    the stored value; T is then present on e with value v.  So when T
    requires C, Add<T> is fatal on an entity that lacks C and succeeds once C
    has been added. *)
Theorem Add_enforces_required_mask
    {Val} (e : ECS.t Val) (T : TypeName) (info : ECS.ComponentInfo)
    (Rs : list TypeName) (id : EntityID) (v : Val) :
  ecs_wf e →
  ECS.m_componentBitPosition e !! T = Some info →
  let R := ECS.m_requiredComponents info in
  let add := ECS.Add T Rs id v e in
  (ECS.Has T id e = Ok true → fatal add)
  ∧ (ECS.GetMask Rs e ≠ Ok R → fatal add)
  ∧ (∀ m, ECS.GetMask Rs e = Ok m → N.lxor m R ≠ 0 → fatal add)
  ∧ ((∃ C infoC, ECS.m_componentBitPosition e !! C = Some infoC
                 ∧ N.testbit R (ECS.m_bitPosition infoC) = true
                 ∧ ECS.Has C id e = Ok false) → fatal add)
  ∧ (valid_entity e id →
     ECS.Has T id e = Ok false →
     ECS.GetMask Rs e = Ok R →
     (∀ C infoC, ECS.m_componentBitPosition e !! C = Some infoC →
                 N.testbit R (ECS.m_bitPosition infoC) = true →
                 ECS.Has C id e = Ok true) →
     ∃ p e', add = Ok (p, e')
             ∧ (∃ s', ECS.pool_at (ECS.m_bitPosition info) e' = Ok s'
                      ∧ SparseSet.deref p s' = Ok v)
             ∧ ECS.Has T id e' = Ok true
             ∧ ECS.Get T id e' = Ok v).
Proof.
  intros Hwf HT R add.
  destruct (pool_of_registered e T info Hwf HT) as (pool & Hpl & Hty & Hpo & Hs).
  assert (registered e T) as HregT by by eexists.
  assert (add = ECS.Add T Rs id v e) as Hadd by done.
  rewrite (Add_registered e T info Rs id v _ Hwf HT Hpo) in Hadd.
  clearbody add. subst add.
  (* the part that every branch shares: the mask check *)
  assert (∀ m, ECS.GetMask Rs e = Ok m → m ≠ R →
               BSEECS_ASSERT (N.lxor m R =? 0) RequiredMismatch
               = Fail (Abort RequiredMismatch)) as Hxor.
  { intros m _ Hne. destruct (N.eqb_spec (N.lxor m R) 0) as [Hz|]; [|done].
    by apply N.lxor_eq in Hz. }
  split; [|split; [|split; [|split]]].
  - intros Hhas%Has_Ok_holds; [|done..].
    destruct (valid_entity_cases e id) as [[-> _]|Hf]; [|by apply fatal_bind].
    step. rewrite Hhas. by eexists.
  - intros Hmask.
    destruct (valid_entity_cases e id) as [[-> _]|Hf]; [|by apply fatal_bind].
    step. destruct (holds e T id); [by eexists|]. cbn [negb BSEECS_ASSERT]. step.
    destruct (GetMask_cases e Rs Hwf) as [[_ HM]|HM]; rewrite HM in *;
      [|by eexists].
    step. rewrite Hxor; [by eexists|done|congruence].
  - intros m HM Hne.
    destruct (valid_entity_cases e id) as [[-> _]|Hf]; [|by apply fatal_bind].
    step. destruct (holds e T id); [by eexists|]. cbn [negb BSEECS_ASSERT]. step.
    rewrite HM. step. fold R.
    rewrite (proj2 (N.eqb_neq _ _) Hne). by eexists.
  - intros (C & infoC & HC & Hbit & HhasC).
    apply Has_Ok_holds in HhasC; [|done|by eexists].
    destruct (valid_entity_cases e id) as [[-> _]|Hf]; [|by apply fatal_bind].
    step. destruct (holds e T id); [by eexists|]. cbn [negb BSEECS_ASSERT]. step.
    destruct (GetMask_cases e Rs Hwf) as [[HF HM]|HM]; rewrite HM;
      [|by eexists].
    step. destruct (decide (mask_from e Rs 0 = R)) as [HR|HR];
      [|rewrite Hxor; [by eexists|done..]].
    fold R. rewrite HR, N.lxor_nilpotent. cbn [N.eqb BSEECS_ASSERT]. step.
    rewrite (HasAllRequired_registered e Rs id Hwf HF).
    assert (forallb (λ C, holds e C id) Rs = false) as ->; [|by eexists].
    apply not_true_is_false. intros Hall.
    rewrite <- HR in Hbit. apply (bit_in_mask e Rs C infoC Hwf HF HC) in Hbit.
    rewrite forallb_forall in Hall. apply list_elem_of_In in Hbit.
    apply Hall in Hbit. congruence.
  - intros Hv HhasT HM Hall.
    apply Has_Ok_holds in HhasT; [|done..].
    rewrite (valid_entity_Ok e id Hv). step. rewrite HhasT.
    cbn [negb BSEECS_ASSERT]. step. rewrite HM. step. fold R.
    rewrite N.lxor_nilpotent. cbn [N.eqb BSEECS_ASSERT]. step.
    destruct (GetMask_cases e Rs Hwf) as [[HF HM']|HM']; rewrite HM' in HM;
      [|done].
    injection HM as HR.
    rewrite (HasAllRequired_registered e Rs id Hwf HF).
    assert (forallb (λ C, holds e C id) Rs = true) as ->.
    { apply forallb_forall. intros C HC%list_elem_of_In.
      destruct (proj1 (Forall_forall _ _) HF C HC) as [infoC HCi].
      apply Has_Ok_holds; [done|by eexists|].
      apply (Hall C infoC HCi). rewrite <- HR.
      by apply (bit_in_mask e Rs C infoC Hwf HF HCi). }
    cbn [BSEECS_ASSERT]. step.
    rewrite (holds_pool e T _ id Hpo) in HhasT.
    apply negb_false_iff, N.eqb_eq in HhasT.
    pose proof (pool_has_room e _ pool Hwf Hpl) as Hroom.
    destruct (Set_absent_Ok (ECS.pool_set pool) id v Hs HhasT Hroom)
      as (s' & -> & Hs' & Hidx & Hdense & Hd2e).
    step. eexists _, _. split; [done|].
    set (e' := ECS.set_componentPools e _).
    assert (ecs_wf e') as Hwf'.
    { apply pool_update_wf; [done..|]. rewrite Hd2e.
      intros x [Hx| ->%list_elem_of_singleton]%elem_of_app.
      - by eapply wf_owners.
      - by destruct Hv. }
    assert (pool_of e' T = Some s') as Hpo'.
    { unfold e'. by rewrite (pool_of_update e T info s' T Hwf HT), decide_True. }
    assert (holds e' T id = true) as Hholds'.
    { rewrite (holds_pool e' T s' id Hpo'), Hidx.
      apply negb_true_iff, N.eqb_neq. unfold vector_max_size, tombstone in *. lia. }
    assert (SparseSet.m_dense s' !! N.to_nat (size (SparseSet.m_dense (ECS.pool_set pool)))
            = Some v) as Hval.
    { rewrite Hdense. unfold size. rewrite Nat2N.id.
      by rewrite lookup_app_r, Nat.sub_diag by lia. }
    split; [|split].
    + exists s'. split; [|by apply at_Ok].
      destruct (pool_at_registered e' T info Hwf' HT) as (s0 & Hpo0 & _ & ->).
      congruence.
    + rewrite Has_registered; [by rewrite Hholds'|done|by eexists].
    + rewrite (Get_registered e' T info s' id Hwf' HT Hpo' Hv), Hholds', Hidx.
      by apply at_Ok.
Qed.

(** ** Detaching a component *)

Section remove.
Context {Val : Type}.
Implicit Types (e : ECS.t Val) (T C : TypeName) (id : EntityID).

(** Swap-remove: the deleted entity has no entry left, and every other
    entity's entry leads to the value it led to, maybe at another slot. *)
Lemma Delete_others (s s' : SparseSet.t Val) id :
  sparse_wf s → SparseSet.Delete id s = Ok s' →
  SparseSet.GetDenseIndex id s' = tombstone
  ∧ ∀ id2, id2 ≠ id → SparseSet.GetDenseIndex id2 s ≠ tombstone →
      SparseSet.GetDenseIndex id2 s' ≠ tombstone
      ∧ SparseSet.m_dense s' !! N.to_nat (SparseSet.GetDenseIndex id2 s')
        = SparseSet.m_dense s !! N.to_nat (SparseSet.GetDenseIndex id2 s).
Proof.
  intros Hwf HD.
  destruct (decide (SparseSet.GetDenseIndex id s = tombstone)) as [Hts|Hne].
  { by rewrite Delete_absent in HD. }
  destruct (Delete_present s id Hwf Hne)
    as (s1 & moved & b & Hmoved & Hlast & HD' & _ & _ & Hlk & _ & Hget).
  rewrite HD in HD'. injection HD' as <-.
  pose proof (sparse_wf_index_lt _ _ Hwf Hne) as Hlt.
  destruct Hwf as [[Hlen Hb] Hc].
  pose proof (Hc id Hne) as Hid. pose proof (Hb _ _ Hmoved) as Hgm.
  split; [by rewrite Hget, decide_True|].
  intros id2 Hne2 Hpres. rewrite Hget, decide_False by done.
  pose proof (Hc id2 Hpres) as Hid2. apply lookup_lt_Some in Hid2 as Hlt2.
  case_decide as E.
  - subst id2. split; [done|]. rewrite Hgm, Nat2N.id, Hlk.
    + by rewrite decide_True.
    + assert (N.to_nat (SparseSet.GetDenseIndex id s)
              ≠ length (SparseSet.m_dense s) - 1)%nat; [|lia].
      intros Heq. rewrite Heq in Hid. congruence.
  - split; [done|]. rewrite Hlk.
    + rewrite decide_False; [done|].
      intros Heq. rewrite Heq in Hid2. congruence.
    + assert (N.to_nat (SparseSet.GetDenseIndex id2 s)
              ≠ length (SparseSet.m_dense s) - 1)%nat; [|lia].
      intros Heq. rewrite Heq in Hid2. congruence.
Qed.

Lemma Delete_present_Ok (s : SparseSet.t Val) id :
  sparse_wf s → SparseSet.GetDenseIndex id s ≠ tombstone →
  ∃ s', SparseSet.Delete id s = Ok s'.
Proof.
  intros Hwf Hne.
  destruct (Delete_present s id Hwf Hne) as (s' & _ & _ & _ & _ & HD & _).
  by exists s'.
Qed.

(** [Remove] on a registered type, with the pool lookups resolved. *)
Lemma Remove_registered e T info (Ss : list TypeName) id s :
  ecs_wf e → ECS.m_componentBitPosition e !! T = Some info →
  pool_of e T = Some s →
  ECS.Remove T Ss id e
  = (_ ← ECS.BSEECS_ASSERT_VALID_ENTITY id e;
     _ ← BSEECS_ASSERT (holds e T id) NoComponentToRemove;
     m ← ECS.GetMask Ss e;
     _ ← BSEECS_ASSERT (N.lxor m (ECS.m_isRequiredInComponents info) =? 0)
           SustainedMismatch;
     ok ← ECS.HasRemovedAll Ss id e;
     _ ← BSEECS_ASSERT ok DeleteSustainedFirst;
     s' ← SparseSet.Delete id s;
     mret (ECS.set_componentPools e
             (<[N.to_nat (ECS.m_bitPosition info) := ECS.mkPool T s']>
                (ECS.m_componentPools e)))).
Proof.
  intros Hwf HT Hpo. unfold ECS.Remove.
  destruct (ECS.BSEECS_ASSERT_VALID_ENTITY id e) as [[]|f]; [|done]. step.
  rewrite (GetComponentPool_registered e T info false Hwf HT). step.
  destruct (pool_at_registered e T info Hwf HT) as (s0 & Hpo0 & Hs & Hat).
  rewrite Hpo in Hpo0. injection Hpo0 as <-. rewrite Hat. step.
  rewrite (Get_wf s id Hs). step. rewrite (holds_pool e T s id Hpo).
  destruct (SparseSet.GetDenseIndex id s =? tombstone); [done|].
  cbn [ECS.non_null negb BSEECS_ASSERT]. step.
  destruct (ECS.GetMask Ss e) as [m|f]; [|done]. step.
  unfold ECS.GetSustainedComponent. rewrite HT. cbn [ECS.deref_mask]. step.
  destruct (BSEECS_ASSERT (N.lxor m (ECS.m_isRequiredInComponents info) =? 0)
              SustainedMismatch) as [[]|f]; [|done]. step.
  destruct (ECS.HasRemovedAll Ss id e) as [ok|f]; [|done]. step.
  destruct (BSEECS_ASSERT ok DeleteSustainedFirst) as [[]|f]; [|done]. step.
  destruct (SparseSet.Delete id s) as [s'|f]; [|done]. step.
  by rewrite (pool_update_registered e T info s' Hwf HT).
Qed.

(** What a completed [Remove] went through. *)
Lemma Remove_Ok_inv e T (Ss : list TypeName) id e' :
  ecs_wf e → ECS.Remove T Ss id e = Ok e' →
  ∃ info s s',
    ECS.m_componentBitPosition e !! T = Some info
    ∧ pool_of e T = Some s ∧ sparse_wf s
    ∧ valid_entity e id
    ∧ holds e T id = true
    ∧ ECS.GetMask Ss e = Ok (ECS.m_isRequiredInComponents info)
    ∧ ECS.HasRemovedAll Ss id e = Ok true
    ∧ SparseSet.Delete id s = Ok s'
    ∧ e' = ECS.set_componentPools e
             (<[N.to_nat (ECS.m_bitPosition info) := ECS.mkPool T s']>
                (ECS.m_componentPools e)).
Proof.
  intros Hwf H.
  destruct (ECS.m_componentBitPosition e !! T) as [info|] eqn:HT.
  - destruct (pool_of_registered e T info Hwf HT) as (pool & _ & _ & Hpo & Hs).
    rewrite (Remove_registered e T info Ss id _ Hwf HT Hpo) in H.
    destruct (valid_entity_cases e id) as [[Hvok Hv]|Hf];
      [|exfalso; eapply fatal_not_Ok; [|done]; by apply fatal_bind].
    rewrite Hvok in H. cbn [mbind outcome_bind] in H.
    apply bind_Ok in H as (u1 & Hh%assert_Ok & H).
    apply bind_Ok in H as (m & HM & H).
    apply bind_Ok in H as (u2 & Hx%assert_Ok & H).
    apply bind_Ok in H as (ok & HR & H).
    apply bind_Ok in H as (u3 & ->%assert_Ok & H).
    apply bind_Ok in H as (s' & HD & H). injection H as <-.
    apply N.eqb_eq, N.lxor_eq in Hx. subst m.
    by exists info, (ECS.pool_set pool), s'.
  - unfold ECS.Remove in H.
    destruct (ECS.BSEECS_ASSERT_VALID_ENTITY id e) as [[]|f]; [|done].
    by rewrite GetComponentPool_unregistered in H.
Qed.
End remove.

(** C4: Remove<T>(e, declared...) for a registered type T with sustained
    mask S is fatal when T is absent on e, when the mask of the declared
    types is not S, and while e holds a type of S.  It deletes T from e's
    storage only when e holds no type of S, and for a valid entity that holds
    T and no type of S it does.  So when C sustains T, Remove<C> is fatal
    while e has T and succeeds after T has been removed. *)
Theorem Remove_enforces_sustained_mask
    {Val} (e : ECS.t Val) (T : TypeName) (info : ECS.ComponentInfo)
    (Ss : list TypeName) (id : EntityID) :
  ecs_wf e →
  ECS.m_componentBitPosition e !! T = Some info →
  let S := ECS.m_isRequiredInComponents info in
  let remove := ECS.Remove T Ss id e in
  (ECS.Has T id e = Ok false → fatal remove)
  ∧ (ECS.GetMask Ss e ≠ Ok S → fatal remove)
  ∧ (∀ m, ECS.GetMask Ss e = Ok m → N.lxor m S ≠ 0 → fatal remove)
  ∧ ((∃ C infoC, ECS.m_componentBitPosition e !! C = Some infoC
                 ∧ N.testbit S (ECS.m_bitPosition infoC) = true
                 ∧ ECS.Has C id e = Ok true) → fatal remove)
  ∧ (∀ e', remove = Ok e' →
           (∀ C infoC, ECS.m_componentBitPosition e !! C = Some infoC →
                       N.testbit S (ECS.m_bitPosition infoC) = true →
                       ECS.Has C id e = Ok false)
           ∧ ECS.Has T id e = Ok true
           ∧ ECS.Has T id e' = Ok false)
  ∧ (valid_entity e id →
     ECS.Has T id e = Ok true →
     ECS.GetMask Ss e = Ok S →
     (∀ C infoC, ECS.m_componentBitPosition e !! C = Some infoC →
                 N.testbit S (ECS.m_bitPosition infoC) = true →
                 ECS.Has C id e = Ok false) →
     ∃ e', remove = Ok e' ∧ ECS.Has T id e' = Ok false).
Proof.
  intros Hwf HT S remove.
  destruct (pool_of_registered e T info Hwf HT) as (pool & Hpl & Hty & Hpo & Hs).
  assert (registered e T) as HregT by by eexists.
  (* after a completed delete, [T] is absent *)
  assert (∀ s', SparseSet.Delete id (ECS.pool_set pool) = Ok s' →
     ECS.Has T id
       (ECS.set_componentPools e
          (<[N.to_nat (ECS.m_bitPosition info) := ECS.mkPool T s']>
             (ECS.m_componentPools e))) = Ok false) as Hgone.
  { intros s' HD. destruct (Delete_others _ _ id Hs HD) as [Hts _].
    rewrite Has_registered; [|apply pool_update_wf; try done|by eexists].
    - unfold holds. rewrite (pool_of_update e T info s' T Hwf HT), decide_True by done.
      by rewrite Hts.
    - by eapply Delete_wf.
    - intros x Hx. eapply Delete_owners in Hx; [|done..]. by eapply wf_owners. }
  assert (∀ m, ECS.GetMask Ss e = Ok m → m ≠ S →
               BSEECS_ASSERT (N.lxor m S =? 0) SustainedMismatch
               = Fail (Abort SustainedMismatch)) as Hxor.
  { intros m _ Hne. destruct (N.eqb_spec (N.lxor m S) 0) as [Hz|]; [|done].
    by apply N.lxor_eq in Hz. }
  assert (remove = ECS.Remove T Ss id e) as Hrem by done.
  rewrite (Remove_registered e T info Ss id _ Hwf HT Hpo) in Hrem.
  split; [|split; [|split; [|split; [|split]]]].
  - clearbody remove. subst remove.
    intros Hhas%Has_Ok_holds; [|done..].
    destruct (valid_entity_cases e id) as [[-> _]|Hf]; [|by apply fatal_bind].
    step. rewrite Hhas. by eexists.
  - clearbody remove. subst remove. intros Hmask.
    destruct (valid_entity_cases e id) as [[-> _]|Hf]; [|by apply fatal_bind].
    step. destruct (holds e T id); [|by eexists]. cbn [BSEECS_ASSERT]. step.
    destruct (GetMask_cases e Ss Hwf) as [[_ HM]|HM]; rewrite HM in *;
      [|by eexists].
    step. rewrite Hxor; [by eexists|done|congruence].
  - clearbody remove. subst remove. intros m HM Hne.
    destruct (valid_entity_cases e id) as [[-> _]|Hf]; [|by apply fatal_bind].
    step. destruct (holds e T id); [|by eexists]. cbn [BSEECS_ASSERT]. step.
    rewrite HM. step. fold S.
    rewrite (proj2 (N.eqb_neq _ _) Hne). by eexists.
  - clearbody remove. subst remove. intros (C & infoC & HC & Hbit & HhasC).
    apply Has_Ok_holds in HhasC; [|done|by eexists].
    destruct (valid_entity_cases e id) as [[-> _]|Hf]; [|by apply fatal_bind].
    step. destruct (holds e T id); [|by eexists]. cbn [BSEECS_ASSERT]. step.
    destruct (GetMask_cases e Ss Hwf) as [[HF HM]|HM]; rewrite HM;
      [|by eexists].
    step. destruct (decide (mask_from e Ss 0 = S)) as [HR|HR];
      [|rewrite Hxor; [by eexists|done..]].
    fold S. rewrite HR, N.lxor_nilpotent. cbn [N.eqb BSEECS_ASSERT]. step.
    rewrite (HasRemovedAll_registered e Ss id Hwf HF).
    assert (existsb (λ C, holds e C id) Ss = true) as ->; [|by eexists].
    apply existsb_exists. exists C. split; [|done]. apply list_elem_of_In.
    rewrite <- HR in Hbit. by apply (bit_in_mask e Ss C infoC Hwf HF HC).
  - clear Hrem. intros e' Hok.
    destruct (Remove_Ok_inv e T Ss id e' Hwf Hok)
      as (info' & s & s' & HT' & Hpo' & _ & Hv & Hh & HM & HR & HD & ->).
    rewrite HT in HT'. injection HT' as <-.
    rewrite Hpo in Hpo'. injection Hpo' as <-.
    split; [|split; [|by apply Hgone]].
    + intros C infoC HC Hbit.
      destruct (GetMask_cases e Ss Hwf) as [[HF HM']|HM']; rewrite HM' in HM;
        [|done].
      injection HM as HS. fold S in HS.
      rewrite (HasRemovedAll_registered e Ss id Hwf HF) in HR.
      destruct (existsb (λ C, holds e C id) Ss) eqn:Hex; [done|].
      rewrite Has_registered; [|done|by eexists]. f_equal.
      apply not_true_is_false. intros Hholds.
      assert (existsb (λ C, holds e C id) Ss = true); [|congruence].
      apply existsb_exists. exists C. split; [|done]. apply list_elem_of_In.
      rewrite <- HS in Hbit. by apply (bit_in_mask e Ss C infoC Hwf HF HC).
    + rewrite Has_registered; [by rewrite Hh|done..].
  - clearbody remove. subst remove. intros Hv HhasT HM Hnone.
    apply Has_Ok_holds in HhasT; [|done..].
    rewrite (valid_entity_Ok e id Hv). step. rewrite HhasT.
    cbn [BSEECS_ASSERT]. step. rewrite HM. step. fold S.
    rewrite N.lxor_nilpotent. cbn [N.eqb BSEECS_ASSERT]. step.
    destruct (GetMask_cases e Ss Hwf) as [[HF HM']|HM']; rewrite HM' in HM;
      [|done].
    injection HM as HS.
    rewrite (HasRemovedAll_registered e Ss id Hwf HF).
    assert (existsb (λ C, holds e C id) Ss = false) as ->.
    { apply not_true_is_false. intros (C & HC%list_elem_of_In & Hh)%existsb_exists.
      destruct (proj1 (Forall_forall _ _) HF C HC) as [infoC HCi].
      assert (ECS.Has C id e = Ok false) as Hno.
      { apply (Hnone C infoC HCi). rewrite <- HS.
        by apply (bit_in_mask e Ss C infoC Hwf HF HCi). }
      apply Has_Ok_holds in Hno; [congruence|done|by eexists]. }
    cbn [BSEECS_ASSERT]. step.
    rewrite (holds_pool e T _ id Hpo) in HhasT.
    apply negb_true_iff, N.eqb_neq in HhasT.
    destruct (Delete_present_Ok _ id Hs HhasT) as [s' HD]. rewrite HD. step.
    eexists. split; [done|]. by apply Hgone.
Qed.

(** C5: after a completed Remove<T>(e), Has<T>(e) is false, and Get<T>(e2)
    returns, for every other entity e2 that held T, the value it returned
    before the removal. *)
Theorem Remove_keeps_other_values
    {Val} (e e' : ECS.t Val) (T : TypeName) (Ss : list TypeName) (id : EntityID) :
  ecs_wf e →
  ECS.Remove T Ss id e = Ok e' →
  ECS.Has T id e = Ok true
  ∧ ECS.Has T id e' = Ok false
  ∧ ∀ id2 v, id2 ≠ id → ECS.Get T id2 e = Ok v →
             ECS.Has T id2 e' = Ok true ∧ ECS.Get T id2 e' = Ok v.
Proof.
  intros Hwf Hok.
  destruct (Remove_Ok_inv e T Ss id e' Hwf Hok)
    as (info & s & s' & HT & Hpo & Hs & Hv & Hh & _ & _ & HD & ->).
  assert (registered e T) as HregT by by eexists.
  destruct (Delete_others _ _ id Hs HD) as [Hts Hothers].
  set (e' := ECS.set_componentPools e _) in *.
  assert (ecs_wf e') as Hwf'.
  { apply pool_update_wf; [done..|by eapply Delete_wf|].
    intros x Hx. eapply Delete_owners in Hx; [|done..].
    destruct (pool_of_registered e T info Hwf HT) as (pl & Hpl & _ & Hpo' & _).
    rewrite Hpo in Hpo'. injection Hpo' as ->. by eapply wf_owners. }
  assert (pool_of e' T = Some s') as Hpo'.
  { unfold e'. by rewrite (pool_of_update e T info s' T Hwf HT), decide_True. }
  split; [by rewrite Has_registered, Hh|].
  split.
  { rewrite Has_registered; [|done|by eexists].
    by rewrite (holds_pool e' T s' id Hpo'), Hts. }
  intros id2 v Hne HG.
  assert (valid_entity e id2) as Hv2.
  { destruct (valid_entity_cases e id2) as [[_ ?]|Hf]; [done|].
    exfalso. eapply fatal_not_Ok; [|done]. by apply fatal_bind. }
  rewrite (Get_registered e T info s id2 Hwf HT Hpo Hv2) in HG.
  rewrite (holds_pool e T s id2 Hpo) in HG.
  destruct (N.eqb_spec (SparseSet.GetDenseIndex id2 s) tombstone) as [|Hpres];
    [done|].
  cbn [negb] in HG. apply at_Ok in HG.
  destruct (Hothers id2 Hne Hpres) as [Hpres' Hval].
  assert (holds e' T id2 = true) as Hh2.
  { rewrite (holds_pool e' T s' id2 Hpo').
    by apply negb_true_iff, N.eqb_neq. }
  split.
  - rewrite Has_registered; [by rewrite Hh2|done|by eexists].
  - rewrite (Get_registered e' T info s' id2 Hwf' HT Hpo' Hv2), Hh2.
    apply at_Ok. by rewrite Hval.
Qed.

(** ** Presence checks *)

(** C6 fails as stated: a presence check on a type that was never
    registered terminates the process. *)
Lemma Has_unregistered_fatal :
  ECS.Has "Position" 0 (ECS.empty (Val:=unit)) = Fail (Abort UnregisteredComponent)
  ∧ ECS.HasAll ["Position"%string] 0 (ECS.empty (Val:=unit))
    = Fail (Abort UnregisteredComponent).
Proof. split; reflexivity. Qed.

(** C6, as the code has it: for registered component types and every
    entity id, Has<T>(id) and HasAll<Types...>(id) return a boolean and are
    not fatal. *)
Theorem Has_total_on_registered
    {Val} (e : ECS.t Val) (T : TypeName) (Ts : list TypeName) (id : EntityID) :
  ecs_wf e →
  registered e T →
  Forall (registered e) Ts →
  ECS.Has T id e = Ok (holds e T id)
  ∧ ECS.HasAll Ts id e = Ok (forallb (λ C, holds e C id) Ts).
Proof.
  intros Hwf HT HTs. split.
  - by apply Has_registered.
  - by apply HasAll_registered.
Qed.

(** C10: the lookup of a registered type's sparse set is total over the
    entity ids.  For an id whose page, or whose slot in its page, was never
    allocated (ids larger than any id created among them), GetDenseIndex
    returns the tombstone, Get returns null and Has<T> returns false. *)
Theorem unallocated_id_reads_tombstone
    {Val} (e : ECS.t Val) (T : TypeName) (info : ECS.ComponentInfo)
    (s : SparseSet.t Val) (id : EntityID) :
  ecs_wf e →
  ECS.m_componentBitPosition e !! T = Some info →
  pool_of e T = Some s →
  (size (SparseSet.m_sparsePages s) ≤ id / SparseSet.SPARSE_MAX_SIZE
   ∨ ∃ sparse,
       SparseSet.m_sparsePages s !! N.to_nat (id / SparseSet.SPARSE_MAX_SIZE)
       = Some sparse
       ∧ size sparse ≤ id mod SparseSet.SPARSE_MAX_SIZE) →
  SparseSet.GetDenseIndex id s = tombstone
  ∧ SparseSet.Get id s = Ok None
  ∧ ECS.Has T id e = Ok false.
Proof.
  intros Hwf HT Hpo Hun.
  assert (SparseSet.GetDenseIndex id s = tombstone) as Hts.
  { unfold SparseSet.GetDenseIndex.
    destruct Hun as [Hpage|(sparse & Hsp & Hslot)].
    - by rewrite (proj2 (N.ltb_ge _ _) Hpage).
    - rewrite (list_lookup_total_correct _ _ _ Hsp).
      rewrite (proj2 (N.ltb_ge _ _) Hslot).
      by destruct (_ <? _). }
  split; [done|]. split.
  - unfold SparseSet.Get. by rewrite Hts.
  - rewrite Has_registered; [|done|by eexists].
    by rewrite (holds_pool e T s id Hpo), Hts.
Qed.

(** ** Runs of the engine *)

Lemma ecs_step_wf {Val} (o : ecs_op Val) (e e' : ECS.t Val) :
  ecs_wf e → ecs_step o e = Ok e' → ecs_wf e'.
Proof.
  intros Hwf H. destruct o; simpl in H.
  - by eapply RegisterComponent_wf.
  - apply bind_Ok in H as ([id e1] & HC & [= <-]).
    by destruct (CreateEntity_wf _ _ _ _ Hwf HC).
  - apply bind_Ok in H as ([h e1] & HD & [= <-]). by eapply DeleteEntity_wf.
  - apply bind_Ok in H as ([p e1] & HA & [= <-]). by eapply Add_wf.
  - by eapply Remove_wf.
Qed.

Lemma ecs_run_wf {Val} (ops : list (ecs_op Val)) (e e' : ECS.t Val) :
  ecs_wf e → ecs_run ops e = Ok e' → ecs_wf e'.
Proof.
  revert e. induction ops as [|o ops IH]; intros e Hwf H; simpl in H.
  - unfold mret, outcome_ret in H. by injection H as <-.
  - apply bind_Ok in H as (e1 & Hstep & H).
    eapply IH; [|done]. by eapply ecs_step_wf.
Qed.

Lemma engine_after_wf {Val} (ops : list (ecs_op Val)) : ecs_wf (engine_after ops).
Proof.
  unfold engine_after. destruct (ecs_run ops ECS.empty) as [e|f] eqn:H.
  - eapply ecs_run_wf; [apply ecs_wf_empty|done].
  - apply ecs_wf_empty.
Qed.

Lemma sparse_set_after_wf {T} (ops : list (sparse_op T)) :
  sparse_wf (sparse_set_after ops).
Proof.
  unfold sparse_set_after.
  destruct (last (sparse_trace ops SparseSet.empty)) as [s|] eqn:H; simpl.
  - apply last_Some in H as [l H].
    pose proof (sparse_trace_wf ops SparseSet.empty (sparse_wf_empty (T:=T))) as HF.
    rewrite H in HF. apply Forall_app in HF as [_ HF].
    by inversion HF.
  - apply sparse_wf_empty.
Qed.

(** ** Scenarios *)

Lemma testbit_1 (b : N) : N.testbit 1 b = true → b = 0.
Proof. destruct b as [|p]; [done|]. by destruct p. Qed.

Lemma testbit_2 (b : N) : N.testbit 2 b = true → b = 1.
Proof. destruct b as [|p]; [done|]. by destruct p as [[]|[]|]. Qed.

Lemma Set_present_keeps_dense_indices_witness :
  let s := sparse_set_after [OpSet 5 50; OpSet 1003 60] in
  sparse_wf s
  ∧ SparseSet.GetDenseIndex 5 s ≠ tombstone
  ∧ ∃ s', SparseSet.Set_ 5 51 s = Ok (SparseSet.GetDenseIndex 5 s, s') ∧
          (∀ id', SparseSet.GetDenseIndex id' s' = SparseSet.GetDenseIndex id' s) ∧
          SparseSet.m_dense s'
          = <[N.to_nat (SparseSet.GetDenseIndex 5 s) := 51]> (SparseSet.m_dense s) ∧
          SparseSet.m_denseToEntity s' = SparseSet.m_denseToEntity s ∧
          SparseSet.deref (SparseSet.GetDenseIndex 5 s) s' = Ok 51.
Proof.
  intros s.
  assert (SparseSet.GetDenseIndex 5 s ≠ tombstone) as Hne
    by (vm_compute; discriminate).
  split; [apply sparse_set_after_wf|]. split; [exact Hne|].
  exact (Set_present_keeps_dense_indices s 5 51 (sparse_set_after_wf _) Hne).
Defined.

Lemma CreateEntity_pops_or_bumps_witness :
  let e := engine_after (Val:=N) [Create "a"; Create "b"; Destroy 0] in
  let names := ["x"; EmptyString; "z"]%string in
  ecs_wf e
  ∧ N.of_nat (length names) ≤ MAX_ENTITIES
  ∧ ECS.CreateEntity "c" e
    = Ok (0, ECS.mk [] (<[0 := "c"%string]> (ECS.m_entityNames e))
               (ECS.m_componentPools e) (ECS.m_componentBitPosition e) 2)
  ∧ ∃ e', create_all names (ECS.empty (Val:=N)) = Ok ([0; 1; 2], e').
Proof.
  intros e names.
  assert (N.of_nat (length names) ≤ MAX_ENTITIES) as Hlen
    by (vm_compute; discriminate).
  split; [apply engine_after_wf|]. split; [exact Hlen|].
  destruct (CreateEntity_pops_or_bumps e "c" names (engine_after_wf _) Hlen)
    as [Hone (e' & Hall & _)].
  split; [exact Hone|]. exists e'. exact Hall.
Defined.

Lemma DeleteEntity_keeps_components_witness :
  let e := engine_after garage_engine in
  valid_entity e 0
  ∧ ∃ e', ECS.DeleteEntity 0 e = Ok (NULL_ENTITY, e')
          ∧ ECS.m_entityNames e' !! 0 = None
          ∧ ECS.m_availableEntities e' = [0]
          ∧ ECS.m_componentPools e' = ECS.m_componentPools e.
Proof.
  intros e.
  assert (valid_entity e 0) as Hv by (split; vm_compute; [discriminate|reflexivity]).
  split; [exact Hv|].
  destruct (DeleteEntity_keeps_components e 0 Hv)
    as (e' & HD & _ & Hname & Hfree & Hpools & _).
  exists e'. split; [exact HD|]. split; [exact Hname|].
  split; [exact Hfree|exact Hpools].
Defined.

Lemma Add_enforces_required_mask_witness :
  let bare := engine_after garage in
  let ready := engine_after garage_chassis in
  ecs_wf bare ∧ ecs_wf ready
  ∧ ECS.m_componentBitPosition bare !! "Engine"%string = Some engine_info
  ∧ ECS.m_componentBitPosition ready !! "Engine"%string = Some engine_info
  ∧ fatal (ECS.Add "Engine" ["Chassis"%string] 0 9 bare)
  ∧ ∃ p e', ECS.Add "Engine" ["Chassis"%string] 0 9 ready = Ok (p, e')
            ∧ ECS.Has "Engine" 0 e' = Ok true
            ∧ ECS.Get "Engine" 0 e' = Ok 9.
Proof.
  intros bare ready.
  assert (ECS.m_componentBitPosition bare !! "Engine"%string = Some engine_info)
    as HTb by (vm_compute; reflexivity).
  assert (ECS.m_componentBitPosition ready !! "Engine"%string = Some engine_info)
    as HTr by (vm_compute; reflexivity).
  split; [apply engine_after_wf|]. split; [apply engine_after_wf|].
  split; [exact HTb|]. split; [exact HTr|]. split.
  - destruct (Add_enforces_required_mask bare "Engine" engine_info
                ["Chassis"%string] 0 9 (engine_after_wf _) HTb)
      as (_ & _ & _ & Hlack & _).
    apply Hlack. exists "Chassis"%string, chassis_info.
    split; [vm_compute; reflexivity|]. split; vm_compute; reflexivity.
  - destruct (Add_enforces_required_mask ready "Engine" engine_info
                ["Chassis"%string] 0 9 (engine_after_wf _) HTr)
      as (_ & _ & _ & _ & Hok).
    destruct Hok as (p & e' & HA & _ & Hhas & Hget).
    + split; vm_compute; [discriminate|reflexivity].
    + vm_compute; reflexivity.
    + vm_compute; reflexivity.
    + intros C infoC HC Hbit%testbit_1.
      assert (C = "Chassis"%string) as ->.
      { apply (wf_bit_inj ready C "Chassis" infoC chassis_info
                 (engine_after_wf _) HC); [vm_compute; reflexivity|exact Hbit]. }
      vm_compute; reflexivity.
    + exists p, e'. split; [exact HA|]. split; [exact Hhas|exact Hget].
Defined.

Lemma Remove_enforces_sustained_mask_witness :
  let driving := engine_after garage_engine in
  let stripped := engine_after (garage_engine ++ [Detach "Engine" [] 0]) in
  ecs_wf driving ∧ ecs_wf stripped
  ∧ ECS.m_componentBitPosition driving !! "Chassis"%string = Some chassis_info
  ∧ ECS.m_componentBitPosition stripped !! "Chassis"%string = Some chassis_info
  ∧ fatal (ECS.Remove "Chassis" ["Engine"%string] 0 driving)
  ∧ ∃ e', ECS.Remove "Chassis" ["Engine"%string] 0 stripped = Ok e'
          ∧ ECS.Has "Chassis" 0 e' = Ok false.
Proof.
  intros driving stripped.
  assert (ECS.m_componentBitPosition driving !! "Chassis"%string
          = Some chassis_info) as HTd by (vm_compute; reflexivity).
  assert (ECS.m_componentBitPosition stripped !! "Chassis"%string
          = Some chassis_info) as HTs by (vm_compute; reflexivity).
  split; [apply engine_after_wf|]. split; [apply engine_after_wf|].
  split; [exact HTd|]. split; [exact HTs|]. split.
  - destruct (Remove_enforces_sustained_mask driving "Chassis" chassis_info
                ["Engine"%string] 0 (engine_after_wf _) HTd)
      as (_ & _ & _ & Hheld & _).
    apply Hheld. exists "Engine"%string, engine_info.
    split; [vm_compute; reflexivity|]. split; vm_compute; reflexivity.
  - destruct (Remove_enforces_sustained_mask stripped "Chassis" chassis_info
                ["Engine"%string] 0 (engine_after_wf _) HTs)
      as (_ & _ & _ & _ & _ & Hok).
    apply Hok.
    + split; vm_compute; [discriminate|reflexivity].
    + vm_compute; reflexivity.
    + vm_compute; reflexivity.
    + intros C infoC HC Hbit%testbit_2.
      assert (C = "Engine"%string) as ->.
      { apply (wf_bit_inj stripped C "Engine" infoC engine_info
                 (engine_after_wf _) HC); [vm_compute; reflexivity|exact Hbit]. }
      vm_compute; reflexivity.
Defined.

Lemma Remove_keeps_other_values_witness :
  let e := engine_after garage_chassis in
  let e' := engine_after (garage_chassis ++ [Detach "Chassis" ["Engine"%string] 0]) in
  ecs_wf e
  ∧ ECS.Remove "Chassis" ["Engine"%string] 0 e = Ok e'
  ∧ ECS.Has "Chassis" 0 e' = Ok false
  ∧ ECS.Get "Chassis" 1 e' = Ok 8.
Proof.
  intros e e'.
  assert (ECS.Remove "Chassis" ["Engine"%string] 0 e = Ok e') as HR
    by (vm_compute; reflexivity).
  split; [apply engine_after_wf|]. split; [exact HR|].
  destruct (Remove_keeps_other_values e e' "Chassis" ["Engine"%string] 0
              (engine_after_wf _) HR) as (_ & Hgone & Hothers).
  split; [exact Hgone|].
  apply (Hothers 1 8); [discriminate|vm_compute; reflexivity].
Defined.

Lemma Has_total_on_registered_witness :
  let e := engine_after garage_chassis in
  ecs_wf e
  ∧ registered e "Engine"
  ∧ Forall (registered e) ["Chassis"; "Engine"]%string
  ∧ ECS.Has "Engine" 77 e = Ok false
  ∧ ECS.HasAll ["Chassis"; "Engine"]%string 0 e = Ok false.
Proof.
  intros e.
  assert (registered e "Chassis") as HC
    by (exists chassis_info; vm_compute; reflexivity).
  assert (registered e "Engine") as HE
    by (exists engine_info; vm_compute; reflexivity).
  assert (Forall (registered e) ["Chassis"; "Engine"]%string) as HF
    by (repeat constructor; assumption).
  split; [apply engine_after_wf|]. split; [exact HE|]. split; [exact HF|].
  destruct (Has_total_on_registered e "Engine" ["Chassis"; "Engine"]%string 77
              (engine_after_wf _) HE HF) as [Hhas _].
  destruct (Has_total_on_registered e "Engine" ["Chassis"; "Engine"]%string 0
              (engine_after_wf _) HE HF) as [_ Hall].
  split; [exact Hhas|exact Hall].
Defined.

Lemma unallocated_id_reads_tombstone_witness :
  let e := engine_after garage_chassis in
  let s := default SparseSet.empty (pool_of e "Chassis") in
  ecs_wf e
  ∧ ECS.m_componentBitPosition e !! "Chassis"%string = Some chassis_info
  ∧ pool_of e "Chassis" = Some s
  ∧ size (SparseSet.m_sparsePages s) ≤ NULL_ENTITY / SparseSet.SPARSE_MAX_SIZE
  ∧ SparseSet.GetDenseIndex NULL_ENTITY s = tombstone
  ∧ SparseSet.Get NULL_ENTITY s = Ok None
  ∧ ECS.Has "Chassis" NULL_ENTITY e = Ok false.
Proof.
  intros e s.
  assert (ECS.m_componentBitPosition e !! "Chassis"%string = Some chassis_info)
    as HT by (vm_compute; reflexivity).
  assert (pool_of e "Chassis" = Some s) as Hpo by (vm_compute; reflexivity).
  assert (size (SparseSet.m_sparsePages s) ≤ NULL_ENTITY / SparseSet.SPARSE_MAX_SIZE)
    as Hpage by (vm_compute; discriminate).
  split; [apply engine_after_wf|]. split; [exact HT|]. split; [exact Hpo|].
  split; [exact Hpage|].
  exact (unallocated_id_reads_tombstone e "Chassis" chassis_info s NULL_ENTITY
           (engine_after_wf _) HT Hpo (or_introl Hpage)).
Defined.

(** * Further properties of the sparse set *)

Section sparse_set_more.
Context {T : Type}.
Implicit Types (s : SparseSet.t T) (id : EntityID).

Lemma sparse_ok_empty : sparse_ok (SparseSet.empty (T:=T)).
Proof. split; [apply sparse_wf_empty|]. by vm_compute. Qed.

Lemma Set_ok s id obj p s' :
  sparse_ok s → SparseSet.Set_ id obj s = Ok (p, s') → sparse_ok s'.
Proof.
  intros [Hwf Hsz] HS. split; [by eapply Set_wf|].
  destruct (decide (SparseSet.GetDenseIndex id s = tombstone)) as [Hts|Hne].
  - rewrite Set_absent in HS by (done || by destruct Hwf as [[? _] _]).
    destruct (N.ltb_spec (size (SparseSet.m_dense s)) vector_max_size)
      as [Hroom|]; [|done].
    injection HS as <- <-. simpl. unfold size in *. rewrite length_app. simpl. lia.
  - rewrite Set_present in HS by done. injection HS as <- <-. simpl.
    unfold size in *. by rewrite length_insert.
Qed.

Lemma Delete_ok s id s' :
  sparse_ok s → SparseSet.Delete id s = Ok s' → sparse_ok s'.
Proof.
  intros [Hwf Hsz] HD. split; [by eapply Delete_wf|].
  destruct (decide (SparseSet.GetDenseIndex id s = tombstone)) as [Hts|Hne].
  { by rewrite Delete_absent in HD. }
  destruct (Delete_present s id Hwf Hne)
    as (s1 & moved & b & _ & _ & HD' & Hl1 & _).
  rewrite HD in HD'. injection HD' as <-. unfold size in *. lia.
Qed.

Lemma sparse_step_ok (o : sparse_op T) s s' :
  sparse_ok s → sparse_step o s = Ok s' → sparse_ok s'.
Proof.
  intros Hok Hstep. destruct o as [id obj|id|]; simpl in Hstep.
  - apply bind_Ok in Hstep as ([p s1] & HS & [= <-]). by eapply Set_ok.
  - by eapply Delete_ok.
  - injection Hstep as <-. apply sparse_ok_empty.
Qed.

Lemma sparse_trace_ok (ops : list (sparse_op T)) s :
  sparse_ok s → Forall sparse_ok (sparse_trace ops s).
Proof.
  revert s. induction ops as [|o ops IH]; intros s Hok; simpl; [constructor|].
  destruct (sparse_step o s) as [s'|f] eqn:Hstep; [|constructor].
  assert (sparse_ok s') by by eapply sparse_step_ok.
  constructor; [done|by apply IH].
Qed.

Lemma sparse_set_after_ok (ops : list (sparse_op T)) :
  sparse_ok (sparse_set_after ops).
Proof.
  unfold sparse_set_after.
  destruct (last (sparse_trace ops SparseSet.empty)) as [s|] eqn:H; simpl.
  - apply last_Some in H as [l H].
    pose proof (sparse_trace_ok ops SparseSet.empty sparse_ok_empty) as HF.
    rewrite H in HF. apply Forall_app in HF as [_ HF]. by inversion HF.
  - apply sparse_ok_empty.
Qed.

(** The owners listed in the dense-to-entity array are the entities the
    sparse array maps. *)
Lemma owner_iff_present s id :
  sparse_ok s →
  id ∈ SparseSet.m_denseToEntity s ↔ SparseSet.GetDenseIndex id s ≠ tombstone.
Proof.
  intros [[[Hlen Hb] Hc] Hsz]. split.
  - intros [i Hi]%list_elem_of_lookup. apply lookup_lt_Some in Hi as Hlt.
    rewrite (Hb _ _ Hi). unfold size, vector_max_size, tombstone in *. lia.
  - intros Hne. eapply list_elem_of_lookup_2, Hc, Hne.
Qed.

Lemma Get_present s id :
  sparse_wf s → SparseSet.GetDenseIndex id s ≠ tombstone →
  SparseSet.Get id s = Ok (Some (SparseSet.GetDenseIndex id s)).
Proof.
  intros Hwf Hne. unfold SparseSet.Get.
  rewrite (proj2 (N.eqb_neq _ _) Hne). cbn [negb].
  pose proof (sparse_wf_index_lt _ _ Hwf Hne) as Hlt.
  destruct (lookup_lt_is_Some_2 _ _ Hlt) as [x Hx].
  by rewrite (proj2 (at_Ok _ _ _) Hx).
Qed.

Lemma Get_absent s id :
  SparseSet.GetDenseIndex id s = tombstone → SparseSet.Get id s = Ok None.
Proof. intros Hts. unfold SparseSet.Get. by rewrite Hts. Qed.

(** What a completed [Set] leaves: the written entity at the returned slot,
    every other entity where it was. *)
Lemma Set_Ok_spec s id obj p s' :
  sparse_wf s → SparseSet.Set_ id obj s = Ok (p, s') →
  p ≠ tombstone
  ∧ SparseSet.m_dense s' !! N.to_nat p = Some obj
  ∧ (∀ id', SparseSet.GetDenseIndex id' s'
            = if decide (id' = id) then p else SparseSet.GetDenseIndex id' s)
  ∧ (∀ id', id' ≠ id → SparseSet.GetDenseIndex id' s ≠ tombstone →
            SparseSet.m_dense s' !! N.to_nat (SparseSet.GetDenseIndex id' s)
            = SparseSet.m_dense s !! N.to_nat (SparseSet.GetDenseIndex id' s))
  ∧ size (SparseSet.m_dense s')
    = if decide (SparseSet.GetDenseIndex id s = tombstone)
      then size (SparseSet.m_dense s) + 1 else size (SparseSet.m_dense s).
Proof.
  intros Hwf HS.
  destruct (decide (SparseSet.GetDenseIndex id s = tombstone)) as [Hts|Hne].
  - pose proof Hwf as [[Hlen Hb] Hc].
    rewrite Set_absent in HS by done.
    destruct (N.ltb_spec (size (SparseSet.m_dense s)) vector_max_size)
      as [Hroom|]; [|done].
    injection HS as <- <-. cbn [SparseSet.m_dense].
    split; [unfold size, vector_max_size, tombstone in *; lia|].
    split; [|split; [|split]].
    + unfold size. rewrite Nat2N.id. by rewrite lookup_app_r, Nat.sub_diag by lia.
    + intros id'. rewrite <- GetDenseIndex_SetDenseIndex.
      by apply GetDenseIndex_pages_only.
    + intros id' _ Hne'. pose proof (sparse_wf_index_lt _ _ Hwf Hne').
      by rewrite lookup_app_l.
    + unfold size. rewrite length_app. simpl. lia.
  - rewrite Set_present in HS by done. injection HS as <- <-.
    cbn [SparseSet.m_dense]. pose proof (sparse_wf_index_lt _ _ Hwf Hne) as Hlt.
    destruct Hwf as [[Hlen Hb] Hc].
    split; [done|]. split; [|split; [|split]].
    + by apply list_lookup_insert_eq.
    + intros id'. case_decide as E; [by subst|done].
    + intros id' Hid' Hne'. rewrite list_lookup_insert_ne; [done|].
      intros Heq. apply Hid'. pose proof (Hc _ Hne) as H1.
      pose proof (Hc _ Hne') as H2. rewrite Heq in H1. congruence.
    + unfold size. by rewrite length_insert.
Qed.
End sparse_set_more.

(** X1: a value written with Set is the value read back: after a completed
    Set(id, v), Get(id) returns the pointer Set returned, and that pointer
    refers to v. *)
Theorem Set_then_Get
    {T} (s s' : SparseSet.t T) (id : EntityID) (obj : T) (p : N) :
  sparse_wf s →
  SparseSet.Set_ id obj s = Ok (p, s') →
  SparseSet.Get id s' = Ok (Some p) ∧ SparseSet.deref p s' = Ok obj.
Proof.
  intros Hwf HS.
  destruct (Set_Ok_spec s id obj p s' Hwf HS) as (Hp & Hval & Hidx & _).
  assert (SparseSet.GetDenseIndex id s' = p) as Hid
    by by rewrite Hidx, decide_True.
  split; [|by apply at_Ok].
  rewrite <- Hid. apply Get_present; [by eapply Set_wf|]. by rewrite Hid.
Qed.

Lemma Set_then_Get_witness :
  let s := sparse_set_after [OpSet 5 50; OpSet 1003 60; OpDelete 5] in
  let s' := sparse_set_after [OpSet 5 50; OpSet 1003 60; OpDelete 5; OpSet 7 70] in
  sparse_wf s ∧ SparseSet.Set_ 7 70 s = Ok (1, s')
  ∧ SparseSet.Get 7 s' = Ok (Some 1) ∧ SparseSet.deref 1 s' = Ok 70.
Proof.
  intros s s'.
  assert (SparseSet.Set_ 7 70 s = Ok (1, s')) as HS by (vm_compute; reflexivity).
  split; [apply sparse_set_after_wf|]. split; [exact HS|].
  exact (Set_then_Get s s' 7 70 1 (sparse_set_after_wf _) HS).
Defined.



(** X3: Delete completes exactly on the entities that are present.  On an
    absent entity (an empty sparse set included) it is fatal; on a present
    one the dense array shrinks by one, the entity is absent afterwards and
    every other entity is present exactly if it was. *)
Theorem Delete_removes_exactly_one
    {T} (s : SparseSet.t T) (id : EntityID) :
  sparse_ok s →
  (SparseSet.GetDenseIndex id s = tombstone →
   SparseSet.Delete id s = Fail (Abort DeleteNonExistent))
  ∧ (SparseSet.GetDenseIndex id s ≠ tombstone →
     ∃ s', SparseSet.Delete id s = Ok s'
           ∧ size (SparseSet.m_dense s') + 1 = size (SparseSet.m_dense s)
           ∧ length (SparseSet.m_denseToEntity s') = length (SparseSet.m_dense s')
           ∧ SparseSet.Get id s' = Ok None
           ∧ ∀ x, x ∈ SparseSet.m_denseToEntity s'
                  ↔ x ≠ id ∧ x ∈ SparseSet.m_denseToEntity s).
Proof.
  intros Hok. split; [apply Delete_absent|]. intros Hne.
  pose proof Hok as [Hwf Hsz].
  destruct (Delete_present s id Hwf Hne)
    as (s' & moved & b & Hmoved & _ & HD & Hl1 & Hl2 & _ & _ & Hget).
  pose proof (sparse_wf_index_lt _ _ Hwf Hne) as Hlt.
  pose proof (Delete_ok s id s' Hok HD) as Hok'.
  exists s'. split; [done|]. split; [unfold size; lia|]. split; [lia|].
  split; [apply Get_absent; by rewrite Hget, decide_True|].
  intros x. rewrite !owner_iff_present by done. rewrite Hget.
  destruct (decide (x = id)) as [->|Hx]; [tauto|].
  case_decide as E; [|tauto]. subst x.
  assert (moved ∈ SparseSet.m_denseToEntity s) as Hin
    by by eapply list_elem_of_lookup_2.
  apply (owner_iff_present s moved Hok) in Hin. tauto.
Qed.

Lemma Delete_removes_exactly_one_witness :
  let s := sparse_set_after [OpSet 5 50; OpSet 1003 60; OpSet 7 70] in
  sparse_ok s
  ∧ SparseSet.Delete 9 s = Fail (Abort DeleteNonExistent)
  ∧ ∃ s', SparseSet.Delete 5 s = Ok s'
          ∧ size (SparseSet.m_dense s') + 1 = 3
          ∧ SparseSet.Get 5 s' = Ok None.
Proof.
  intros s.
  destruct (Delete_removes_exactly_one s 9 (sparse_set_after_ok _)) as [Habs _].
  destruct (Delete_removes_exactly_one s 5 (sparse_set_after_ok _)) as [_ Hpres].
  split; [apply sparse_set_after_ok|].
  split; [apply Habs; vm_compute; reflexivity|].
  destruct Hpres as (s' & HD & Hsz & _ & HG & _); [vm_compute; discriminate|].
  exists s'. split; [exact HD|]. split; [exact Hsz|exact HG].
Defined.

(** X4: along every run of Set, Delete and Clear from the empty sparse set,
    no entity owns two dense records, the owners are exactly the entities
    that Get finds, and the dense array stays below the tombstone. *)
Theorem sparse_owners_are_the_present_entities
    {T} (ops : list (sparse_op T)) :
  Forall (λ s, NoDup (SparseSet.m_denseToEntity s)
               ∧ (∀ id, id ∈ SparseSet.m_denseToEntity s
                        ↔ ∃ p, SparseSet.Get id s = Ok (Some p))
               ∧ size (SparseSet.m_dense s) < tombstone)
         (sparse_trace ops SparseSet.empty).
Proof.
  eapply Forall_impl; [apply sparse_trace_ok, sparse_ok_empty|].
  intros s Hok. pose proof Hok as [Hwf Hsz].
  split; [by apply sparse_wf_NoDup|]. split.
  - intros id. rewrite (owner_iff_present s id Hok). split.
    + intros Hne. eexists. by apply Get_present.
    + intros [p HG] Hts. by rewrite Get_absent in HG.
  - unfold vector_max_size, tombstone in *. lia.
Qed.



(** X6: GetRef has no null case.  For a present entity it returns the value
    Get points at; for an absent one it indexes the dense array at the
    tombstone, out of its bounds: undefined, not a fatal assertion. *)
Theorem GetRef_unchecked
    {T} (s : SparseSet.t T) (id : EntityID) :
  sparse_ok s →
  (SparseSet.GetDenseIndex id s ≠ tombstone →
   ∃ v, SparseSet.GetRef id s = Ok v
        ∧ SparseSet.Get id s = Ok (Some (SparseSet.GetDenseIndex id s))
        ∧ SparseSet.deref (SparseSet.GetDenseIndex id s) s = Ok v)
  ∧ (SparseSet.GetDenseIndex id s = tombstone →
     SparseSet.Get id s = Ok None ∧ SparseSet.GetRef id s = Fail Undefined).
Proof.
  intros [Hwf Hsz]. split.
  - intros Hne. pose proof (sparse_wf_index_lt _ _ Hwf Hne) as Hlt.
    destruct (lookup_lt_is_Some_2 _ _ Hlt) as [v Hv]. exists v.
    split; [by apply at_Ok|]. split; [by apply Get_present|by apply at_Ok].
  - intros Hts. split; [by apply Get_absent|].
    unfold SparseSet.GetRef, at_. rewrite Hts.
    rewrite lookup_ge_None_2; [done|].
    unfold size, vector_max_size, tombstone in *. lia.
Qed.

Lemma GetRef_unchecked_witness :
  let s := sparse_set_after [OpSet 5 50; OpSet 1003 60] in
  sparse_ok s
  ∧ (∃ v, SparseSet.GetRef 1003 s = Ok v)
  ∧ SparseSet.GetRef 6 s = Fail Undefined.
Proof.
  intros s.
  destruct (GetRef_unchecked s 1003 (sparse_set_after_ok _)) as [Hpres _].
  destruct (GetRef_unchecked s 6 (sparse_set_after_ok _)) as [_ Habs].
  split; [apply sparse_set_after_ok|]. split.
  - destruct Hpres as (v & Hv & _); [vm_compute; discriminate|].
    exists v. exact Hv.
  - apply Habs. vm_compute; reflexivity.
Defined.

(** X7: IsEmpty is true exactly when no entity is present, and Clear leaves
    an empty, well-formed sparse set. *)
Theorem IsEmpty_iff_no_entity {T} (s : SparseSet.t T) :
  sparse_wf s →
  (SparseSet.IsEmpty s = true ↔ ∀ id, SparseSet.Get id s = Ok None)
  ∧ SparseSet.IsEmpty (SparseSet.Clear s) = true
  ∧ sparse_wf (SparseSet.Clear s).
Proof.
  intros Hwf. split; [|split; [done|apply Clear_wf]].
  pose proof Hwf as [[Hlen Hb] Hc]. unfold SparseSet.IsEmpty. split.
  - intros Hemp id. apply Get_absent.
    destruct (decide (SparseSet.GetDenseIndex id s = tombstone)) as [|Hne];
      [done|].
    pose proof (sparse_wf_index_lt _ _ Hwf Hne) as Hlt.
    destruct (SparseSet.m_dense s); [simpl in Hlt; lia|done].
  - intros Hnone. destruct (SparseSet.m_dense s) as [|v dense] eqn:Hd; [done|].
    destruct (SparseSet.m_denseToEntity s) as [|id0 d2e] eqn:He; [done|].
    assert (SparseSet.GetDenseIndex id0 s = 0) as H0.
    { apply (Hb 0%nat id0). by rewrite ?He. }
    specialize (Hnone id0). rewrite Get_present in Hnone; [done|done|].
    by rewrite H0.
Qed.

Lemma IsEmpty_iff_no_entity_witness :
  let s := sparse_set_after [OpSet 5 50; OpDelete 5] in
  sparse_wf s ∧ SparseSet.IsEmpty s = true ∧ SparseSet.Get 5 s = Ok None.
Proof.
  intros s.
  destruct (IsEmpty_iff_no_entity s (sparse_set_after_wf _)) as [[Hall _] _].
  split; [apply sparse_set_after_wf|]. split; [reflexivity|].
  apply Hall. reflexivity.
Defined.

(** * Further properties of the registry *)

Lemma setbit_idem (a b : N) : N.setbit (N.setbit a b) b = N.setbit a b.
Proof.
  apply N.bits_inj. intros k. rewrite !N.setbit_eqb.
  by destruct (b =? k).
Qed.

Section registry.
Context {Val : Type}.
Implicit Types (e : ECS.t Val) (T C D R : TypeName) (id : EntityID).

Lemma SetComponentBits_registered e (Cs : list TypeName) (mask : N) :
  ecs_wf e → Forall (registered e) Cs →
  ECS.SetComponentBits Cs mask e = Ok (mask_from e Cs mask).
Proof.
  intros Hwf HF. revert mask. induction HF as [|C Cs [info HC] HF IH];
    intros mask; simpl; [done|].
  rewrite (SetComponentBit_registered e C info mask Hwf HC). step.
  by rewrite (GetComponentBitPosition_registered e C info HC).
Qed.

Lemma SetComponentBits_unregistered e (Cs : list TypeName) (mask : N) :
  ecs_wf e → ¬ Forall (registered e) Cs →
  ECS.SetComponentBits Cs mask e = Fail (Abort UnregisteredComponent).
Proof.
  intros Hwf HF. by destruct (SetComponentBits_cases e Cs mask Hwf) as [[? _]|].
Qed.

Lemma GetMask_Ok_registered e (Cs : list TypeName) (m : N) :
  ecs_wf e → ECS.GetMask Cs e = Ok m →
  Forall (registered e) Cs ∧ m = mask_from e Cs 0.
Proof.
  intros Hwf HM. destruct (GetMask_cases e Cs Hwf) as [[HF HM']|HM'];
    rewrite HM' in HM; [|done].
  by injection HM as <-.
Qed.

(** [BroadcastRequirements]: every listed type learns that [D] depends on
    it; nothing else changes. *)
Lemma BroadcastRequirements_spec e D infoD (Rs : list TypeName) :
  ECS.m_componentBitPosition e !! D = Some infoD →
  ECS.m_bitPosition infoD < MAX_COMPONENTS →
  Forall (registered e) Rs →
  ∃ e', ECS.BroadcastRequirements D Rs e = Ok e'
        ∧ ECS.m_componentPools e' = ECS.m_componentPools e
        ∧ ECS.m_availableEntities e' = ECS.m_availableEntities e
        ∧ ECS.m_entityNames e' = ECS.m_entityNames e
        ∧ ECS.m_maxEntityID e' = ECS.m_maxEntityID e
        ∧ ∀ C, ECS.m_componentBitPosition e' !! C
               = add_dependent (ECS.m_bitPosition infoD) Rs C
                 <$> ECS.m_componentBitPosition e !! C.
Proof.
  intros HD Hb HF. revert e infoD HD Hb HF.
  induction Rs as [|R Rs IH]; intros e infoD HD Hb HF.
  - exists e. repeat split. intros C.
    destruct (ECS.m_componentBitPosition e !! C) as [[b r q]|]; [|done].
    unfold add_dependent.
    rewrite bool_decide_eq_false_2 by (by intros ?%elem_of_nil). done.
  - apply Forall_cons in HF as [[infoR HR] HF].
    assert (ECS.SetRequirements D R e
            = Ok (ECS.set_componentBitPosition e
                    (<[R := ECS.mkInfo (ECS.m_bitPosition infoR)
                              (ECS.m_requiredComponents infoR)
                              (N.setbit (ECS.m_isRequiredInComponents infoR)
                                 (ECS.m_bitPosition infoD))]>
                       (ECS.m_componentBitPosition e)))) as HSR.
    { unfold ECS.SetRequirements, ECS.SetComponentBit. rewrite HR.
      rewrite (GetComponentBitPosition_registered e D infoD HD).
      assert ((ECS.m_bitPosition infoD =? tombstone) = false) as ->.
      { apply N.eqb_neq. unfold MAX_COMPONENTS, tombstone in *. lia. }
      cbn [negb BSEECS_ASSERT]. step.
      by rewrite (proj2 (N.ltb_lt _ _) Hb). }
    set (e1 := ECS.set_componentBitPosition e _) in HSR.
    assert (∃ infoD1, ECS.m_componentBitPosition e1 !! D = Some infoD1
                      ∧ ECS.m_bitPosition infoD1 = ECS.m_bitPosition infoD)
      as (infoD1 & HD1 & Hbit1).
    { unfold e1. ecs_simpl. destruct (decide (R = D)) as [->|Hne].
      - rewrite lookup_insert_eq. eexists. split; [done|]. simpl. congruence.
      - rewrite lookup_insert_ne by done. by exists infoD. }
    destruct (IH e1 infoD1 HD1) as (e' & HB & Hp & Hf & Hn & Hm & Hreg).
    + by rewrite Hbit1.
    + eapply Forall_impl; [exact HF|]. intros C [infoC HC]. unfold e1, registered.
      ecs_simpl. destruct (decide (R = C)) as [->|Hne].
      * rewrite lookup_insert_eq. by eexists.
      * rewrite lookup_insert_ne by done. by eexists.
    + exists e'. cbn [ECS.BroadcastRequirements]. rewrite HSR. step.
      split; [done|]. split; [done|]. split; [done|]. split; [done|].
      split; [done|]. intros C. rewrite Hreg, Hbit1. unfold e1. ecs_simpl.
      destruct (decide (R = C)) as [->|Hne].
      * rewrite lookup_insert_eq, HR. cbn [fmap option_fmap option_map].
        f_equal. unfold add_dependent. cbn [ECS.m_bitPosition
          ECS.m_requiredComponents ECS.m_isRequiredInComponents].
        rewrite (bool_decide_eq_true_2 (C ∈ C :: Rs)) by by left.
        f_equal. case_bool_decide; [apply setbit_idem|done].
      * rewrite lookup_insert_ne by done.
        destruct (ECS.m_componentBitPosition e !! C) as [infoC|]; [|done].
        cbn [fmap option_fmap option_map]. f_equal. unfold add_dependent.
        rewrite (bool_decide_ext (C ∈ R :: Rs) (C ∈ Rs)); [done|].
        rewrite elem_of_cons. split; [|by right].
        intros [Heq|Hin]; [by destruct Hne|done].
Qed.

(** [RegisterComponent] where it completes. *)
Lemma RegisterComponent_spec e T (Cs : list TypeName) :
  ecs_wf e →
  ECS.m_componentBitPosition e !! T = None →
  size (ECS.m_componentPools e) < MAX_COMPONENTS →
  Forall (registered e) Cs →
  ∃ e', ECS.RegisterComponent T Cs e = Ok e'
        ∧ ECS.m_componentPools e'
          = ECS.m_componentPools e ++ [ECS.mkPool T SparseSet.empty]
        ∧ ECS.m_availableEntities e' = ECS.m_availableEntities e
        ∧ ECS.m_entityNames e' = ECS.m_entityNames e
        ∧ ECS.m_maxEntityID e' = ECS.m_maxEntityID e
        ∧ ECS.m_componentBitPosition e' !! T
          = Some (ECS.mkInfo (size (ECS.m_componentPools e)) (mask_from e Cs 0) 0)
        ∧ ∀ C, C ≠ T →
               ECS.m_componentBitPosition e' !! C
               = add_dependent (size (ECS.m_componentPools e)) Cs C
                 <$> ECS.m_componentBitPosition e !! C.
Proof.
  intros Hwf HT Hcap HF.
  assert (T ∉ Cs) as HTCs.
  { intros Hin. rewrite Forall_forall in HF. destruct (HF T Hin). congruence. }
  unfold ECS.RegisterComponent.
  rewrite bool_decide_eq_true_2 by done. cbn [BSEECS_ASSERT]. step.
  rewrite (proj2 (N.ltb_lt _ _) Hcap). cbn [BSEECS_ASSERT]. step.
  unfold ECS.GetMask. rewrite (SetComponentBits_registered e Cs 0 Hwf HF). step.
  set (e2 := ECS.set_componentPools _ _).
  destruct (BroadcastRequirements_spec e2 T
              (ECS.mkInfo (size (ECS.m_componentPools e)) (mask_from e Cs 0) 0) Cs)
    as (e' & HB & Hp & Hf & Hn & Hm & Hreg).
  - unfold e2. ecs_simpl. by rewrite lookup_insert_eq.
  - done.
  - eapply Forall_impl; [exact HF|]. intros C [infoC HC]. unfold e2, registered.
    ecs_simpl. rewrite lookup_insert_ne; [by eexists|]. congruence.
  - exists e'. split; [done|]. split; [done|]. split; [done|]. split; [done|].
    split; [done|]. unfold e2 in Hreg. ecs_simpl. split.
    + rewrite Hreg, lookup_insert_eq. cbn [fmap option_fmap option_map].
      unfold add_dependent. simpl. by rewrite bool_decide_eq_false_2.
    + intros C HC. by rewrite Hreg, lookup_insert_ne.
Qed.

(** What a completed [RegisterComponent] was given. *)
Lemma RegisterComponent_Ok_inv e T (Cs : list TypeName) e' :
  ecs_wf e → ECS.RegisterComponent T Cs e = Ok e' →
  ECS.m_componentBitPosition e !! T = None
  ∧ size (ECS.m_componentPools e) < MAX_COMPONENTS
  ∧ Forall (registered e) Cs.
Proof.
  intros Hwf H. unfold ECS.RegisterComponent in H.
  apply bind_Ok in H as (u1 & H1%assert_Ok & H).
  apply bind_Ok in H as (u2 & H2%assert_Ok & H).
  apply bind_Ok in H as (m & HM & H).
  apply bool_decide_eq_true_1 in H1. apply N.ltb_lt in H2.
  by destruct (GetMask_Ok_registered e Cs m Hwf HM).
Qed.
End registry.

(** X8: RegisterComponent<T, Components...> is fatal on a type that is
    already registered, then when MAX_COMPONENTS types are registered, then
    when a listed required type is not registered (T itself among them:
    a type cannot require itself). *)
Theorem RegisterComponent_failures
    {Val} (e : ECS.t Val) (T : TypeName) (Cs : list TypeName) :
  ecs_wf e →
  (registered e T →
   ECS.RegisterComponent T Cs e = Fail (Abort AlreadyRegistered))
  ∧ (¬ registered e T → MAX_COMPONENTS ≤ size (ECS.m_componentPools e) →
     ECS.RegisterComponent T Cs e = Fail (Abort MaxComponentsExceeded))
  ∧ (¬ registered e T → size (ECS.m_componentPools e) < MAX_COMPONENTS →
     (T ∈ Cs ∨ ¬ Forall (registered e) Cs) →
     ECS.RegisterComponent T Cs e = Fail (Abort UnregisteredComponent))
  ∧ ((∃ e', ECS.RegisterComponent T Cs e = Ok e') ↔
     ¬ registered e T ∧ size (ECS.m_componentPools e) < MAX_COMPONENTS
     ∧ Forall (registered e) Cs).
Proof.
  intros Hwf.
  assert (∀ P : Prop, ¬ registered e T →
            bool_decide (ECS.m_componentBitPosition e !! T = None) = true) as Hnone.
  { intros _ Hn. apply bool_decide_eq_true_2.
    destruct (ECS.m_componentBitPosition e !! T) eqn:E; [|done].
    destruct Hn. by eexists. }
  split; [|split; [|split]].
  - intros [info HT]. unfold ECS.RegisterComponent.
    rewrite bool_decide_eq_false_2; [done|]. congruence.
  - intros Hn Hcap. unfold ECS.RegisterComponent.
    rewrite (Hnone True Hn). cbn [BSEECS_ASSERT]. step.
    by rewrite (proj2 (N.ltb_ge _ _) Hcap).
  - intros Hn Hcap Hbad. unfold ECS.RegisterComponent.
    rewrite (Hnone True Hn). cbn [BSEECS_ASSERT]. step.
    rewrite (proj2 (N.ltb_lt _ _) Hcap). cbn [BSEECS_ASSERT]. step.
    unfold ECS.GetMask. rewrite SetComponentBits_unregistered; [done..|].
    destruct Hbad as [Hin|]; [|done].
    intros HF. rewrite Forall_forall in HF. by apply Hn, HF.
  - split.
    + intros [e' H]. destruct (RegisterComponent_Ok_inv e T Cs e' Hwf H)
        as (HT & ? & ?).
      split; [|done]. intros [info Hi]. congruence.
    + intros (Hn & Hcap & HF).
      destruct (RegisterComponent_spec e T Cs Hwf) as (e' & H & _); [|done..|by exists e'].
      destruct (ECS.m_componentBitPosition e !! T) eqn:E; [|done].
      destruct Hn. by eexists.
Qed.

Lemma RegisterComponent_failures_witness :
  let e := engine_after garage in
  ecs_wf e
  ∧ ECS.RegisterComponent "Engine" [] e = Fail (Abort AlreadyRegistered)
  ∧ ECS.RegisterComponent "Wheel" ["Wheel"%string] e
    = Fail (Abort UnregisteredComponent)
  ∧ ∃ e', ECS.RegisterComponent "Wheel" ["Chassis"%string] e = Ok e'.
Proof.
  intros e.
  assert (registered e "Engine") as HE
    by (exists engine_info; vm_compute; reflexivity).
  assert (¬ registered e "Wheel") as HW by (intros [i Hi]; vm_compute in Hi; discriminate).
  assert (size (ECS.m_componentPools e) < MAX_COMPONENTS) as Hcap
    by (vm_compute; reflexivity).
  split; [apply engine_after_wf|]. split; [|split].
  - destruct (RegisterComponent_failures e "Engine" [] (engine_after_wf _))
      as (H & _). exact (H HE).
  - destruct (RegisterComponent_failures e "Wheel" ["Wheel"%string]
                (engine_after_wf _)) as (_ & _ & H & _).
    apply (H HW Hcap). left. by left.
  - destruct (RegisterComponent_failures e "Wheel" ["Chassis"%string]
                (engine_after_wf _)) as (_ & _ & _ & H).
    apply H. split; [exact HW|]. split; [exact Hcap|].
    constructor; [|constructor]. exists chassis_info. vm_compute; reflexivity.
Defined.

(** X9: a completed RegisterComponent<T, Components...> gives T the next
    free bit position (the number of pools before the call), the mask of
    the listed types as required mask and an empty sustained mask, sets T's
    bit in the sustained mask of every listed type and changes no other
    entry, and appends an empty pool for T: no entity has T. *)
Theorem RegisterComponent_assigns_next_bit
    {Val} (e e' : ECS.t Val) (T : TypeName) (Cs : list TypeName) :
  ecs_wf e →
  ECS.RegisterComponent T Cs e = Ok e' →
  ECS.m_componentBitPosition e' !! T
  = Some (ECS.mkInfo (size (ECS.m_componentPools e)) (mask_from e Cs 0) 0)
  ∧ (∀ C, C ≠ T →
          ECS.m_componentBitPosition e' !! C
          = add_dependent (size (ECS.m_componentPools e)) Cs C
            <$> ECS.m_componentBitPosition e !! C)
  ∧ ECS.m_componentPools e'
    = ECS.m_componentPools e ++ [ECS.mkPool T SparseSet.empty]
  ∧ (∀ id, ECS.Has T id e' = Ok false)
  ∧ ECS.m_availableEntities e' = ECS.m_availableEntities e
  ∧ ECS.m_entityNames e' = ECS.m_entityNames e
  ∧ ECS.m_maxEntityID e' = ECS.m_maxEntityID e.
Proof.
  intros Hwf H.
  destruct (RegisterComponent_Ok_inv e T Cs e' Hwf H) as (HT & Hcap & HF).
  destruct (RegisterComponent_spec e T Cs Hwf HT Hcap HF)
    as (e'' & H' & Hp & Hf & Hn & Hm & HregT & Hreg).
  rewrite H in H'. injection H' as <-.
  split; [done|]. split; [done|]. split; [done|]. split; [|done].
  intros id. rewrite Has_registered;
    [|by eapply RegisterComponent_wf|by eexists].
  f_equal. unfold holds, pool_of. rewrite HregT. cbn [mbind option_bind].
  rewrite Hp. cbn [ECS.m_bitPosition]. unfold size. rewrite Nat2N.id.
  rewrite lookup_app_r, Nat.sub_diag by lia. cbn.
  by rewrite GetDenseIndex_cell.
Qed.

Lemma RegisterComponent_assigns_next_bit_witness :
  let e := engine_after garage in
  let e' := engine_after (garage ++ [Register "Wheel" ["Chassis"%string]]) in
  ecs_wf e
  ∧ ECS.RegisterComponent "Wheel" ["Chassis"%string] e = Ok e'
  ∧ ECS.m_componentBitPosition e' !! "Wheel"%string = Some (ECS.mkInfo 2 1 0)
  ∧ ECS.m_componentBitPosition e' !! "Chassis"%string = Some (ECS.mkInfo 0 0 6).
Proof.
  intros e e'.
  assert (ECS.RegisterComponent "Wheel" ["Chassis"%string] e = Ok e') as HR
    by (vm_compute; reflexivity).
  split; [apply engine_after_wf|]. split; [exact HR|].
  destruct (RegisterComponent_assigns_next_bit e e' "Wheel" ["Chassis"%string]
              (engine_after_wf _) HR) as (HW & HC & _).
  split; [exact HW|]. rewrite (HC "Chassis"%string); [|discriminate].
  vm_compute; reflexivity.
Defined.

(** * Invariants of the registry and the pools along runs *)

Section engine_invariants.
Context {Val : Type}.
Implicit Types (e : ECS.t Val) (T C D R : TypeName) (id : EntityID).

Lemma pool_ok e (i : nat) (pool : ECS.Pool Val) :
  ecs_wf e → ECS.m_componentPools e !! i = Some pool →
  sparse_ok (ECS.pool_set pool).
Proof.
  intros Hwf Hi. split; [by eapply wf_pools|].
  pose proof (pool_has_room e i pool Hwf Hi). lia.
Qed.

Lemma Delete_present_iff (s s' : SparseSet.t Val) id :
  sparse_ok s → SparseSet.Delete id s = Ok s' →
  ∀ x, SparseSet.GetDenseIndex x s' ≠ tombstone
       ↔ x ≠ id ∧ SparseSet.GetDenseIndex x s ≠ tombstone.
Proof.
  intros Hok HD x. pose proof Hok as [Hwf Hsz].
  destruct (decide (SparseSet.GetDenseIndex id s = tombstone)) as [Hts|Hne].
  { by rewrite Delete_absent in HD. }
  destruct (Delete_present s id Hwf Hne)
    as (s1 & moved & b & Hmoved & _ & HD' & _ & _ & _ & _ & Hget).
  rewrite HD in HD'. injection HD' as <-. rewrite Hget.
  destruct (decide (x = id)) as [->|Hx]; [tauto|].
  case_decide as E; [|tauto]. subst x.
  assert (moved ∈ SparseSet.m_denseToEntity s) as Hin
    by by eapply list_elem_of_lookup_2.
  apply (owner_iff_present s moved Hok) in Hin. tauto.
Qed.

Lemma GetComponentPool_Ok_cases T (r : bool) e (pool : N) e1 :
  ecs_wf e → ECS.GetComponentPool T r e = Ok (pool, e1) →
  (e1 = e ∧ registered e T)
  ∨ (ECS.m_componentBitPosition e !! T = None
     ∧ ECS.RegisterComponent T [] e = Ok e1).
Proof.
  intros Hwf H.
  destruct (ECS.m_componentBitPosition e !! T) as [info|] eqn:HT.
  - rewrite (GetComponentPool_registered e T info r Hwf HT) in H.
    injection H as <- <-. left. split; [done|by eexists].
  - right. split; [done|].
    unfold ECS.GetComponentPool, ECS.GetComponentBitPosition in H.
    rewrite HT, N.eqb_refl in H. destruct r; [|done].
    apply bind_Ok in H as ([b1 e2] & H1 & H).
    apply bind_Ok in H1 as ([b2 e3] & H2 & H1).
    apply bind_Ok in H2 as (e4 & Hreg & H2).
    cbn [mbind outcome_bind mret outcome_ret BSEECS_ASSERT] in H1, H2.
    injection H2 as <- <-. injection H1 as <- <-.
    apply bind_Ok in H as (u1 & _ & H). apply bind_Ok in H as (g & _ & H).
    apply bind_Ok in H as (u2 & _ & H).
    cbn [mret outcome_ret] in H. by injection H as _ <-.
Qed.

(** What a completed [Add] went through; [e1] is the engine once [T] is
    registered. *)
Lemma Add_Ok_inv T (Rs : list TypeName) id (v : Val) e (p : N) e' :
  ecs_wf e → ECS.Add T Rs id v e = Ok (p, e') →
  ∃ e1 info s s',
    ((e1 = e ∧ registered e T)
     ∨ (ECS.m_componentBitPosition e !! T = None
        ∧ ECS.RegisterComponent T [] e = Ok e1))
    ∧ ecs_wf e1
    ∧ ECS.m_componentBitPosition e1 !! T = Some info
    ∧ pool_of e1 T = Some s ∧ sparse_wf s
    ∧ valid_entity e1 id
    ∧ holds e1 T id = false
    ∧ ECS.GetMask Rs e1 = Ok (ECS.m_requiredComponents info)
    ∧ ECS.HasAllRequired Rs id e1 = Ok true
    ∧ SparseSet.Set_ id v s = Ok (p, s')
    ∧ e' = ECS.set_componentPools e1
             (<[N.to_nat (ECS.m_bitPosition info) := ECS.mkPool T s']>
                (ECS.m_componentPools e1)).
Proof.
  intros Hwf H. unfold ECS.Add in H.
  destruct (valid_entity_cases e id) as [[Hvok Hv]|Hf];
    [|exfalso; eapply fatal_not_Ok; [|done]; by apply fatal_bind].
  rewrite Hvok in H. cbn [mbind outcome_bind] in H.
  apply bind_Ok in H as ([pool e1] & HG & H).
  destruct (GetComponentPool_Ok _ _ _ _ _ Hwf HG)
    as (Hwf1 & (info & HT & ->) & Hmax & _).
  assert (valid_entity e1 id) as Hv1 by (destruct Hv; split; [done|by rewrite Hmax]).
  destruct (pool_of_registered e1 T info Hwf1 HT) as (pl & _ & _ & Hpo & Hs).
  assert (ECS.Add T Rs id v e1 = Ok (p, e')) as HA.
  { unfold ECS.Add. rewrite (valid_entity_Ok e1 id Hv1). step.
    rewrite (GetComponentPool_registered e1 T info true Hwf1 HT). step.
    exact H. }
  rewrite (Add_registered e1 T info Rs id v _ Hwf1 HT Hpo) in HA.
  rewrite (valid_entity_Ok e1 id Hv1) in HA. cbn [mbind outcome_bind] in HA.
  apply bind_Ok in HA as (u1 & Hh%assert_Ok & HA).
  apply bind_Ok in HA as (m & HM & HA).
  apply bind_Ok in HA as (u2 & Hx%assert_Ok & HA).
  apply bind_Ok in HA as (ok & HR & HA).
  apply bind_Ok in HA as (u3 & ->%assert_Ok & HA).
  apply bind_Ok in HA as ([ref s'] & HS & HA).
  cbn [mret outcome_ret] in HA. injection HA as <- <-.
  apply N.eqb_eq, N.lxor_eq in Hx. subst m. apply negb_true_iff in Hh.
  exists e1, info, (ECS.pool_set pl), s'.
  split; [by eapply GetComponentPool_Ok_cases|]. done.
Qed.

(** The declared and checked requirements of a completed [Add]. *)
Lemma required_all_held e (Rs : list TypeName) id (Rm : N) C iC :
  ecs_wf e → ECS.GetMask Rs e = Ok Rm →
  ECS.HasAllRequired Rs id e = Ok true →
  ECS.m_componentBitPosition e !! C = Some iC →
  N.testbit Rm (ECS.m_bitPosition iC) = true → holds e C id = true.
Proof.
  intros Hwf HM HR HC Hbit.
  destruct (GetMask_Ok_registered e Rs Rm Hwf HM) as [HF ->].
  rewrite (HasAllRequired_registered e Rs id Hwf HF) in HR.
  destruct (forallb (λ C, holds e C id) Rs) eqn:Hall; [|done].
  rewrite forallb_forall in Hall. apply Hall, list_elem_of_In.
  by apply (bit_in_mask e Rs C iC Hwf HF HC).
Qed.

Lemma sustained_none_held e (Ss : list TypeName) id (Sm : N) C iC :
  ecs_wf e → ECS.GetMask Ss e = Ok Sm →
  ECS.HasRemovedAll Ss id e = Ok true →
  ECS.m_componentBitPosition e !! C = Some iC →
  N.testbit Sm (ECS.m_bitPosition iC) = true → holds e C id = false.
Proof.
  intros Hwf HM HR HC Hbit.
  destruct (GetMask_Ok_registered e Ss Sm Hwf HM) as [HF ->].
  rewrite (HasRemovedAll_registered e Ss id Hwf HF) in HR.
  destruct (existsb (λ C, holds e C id) Ss) eqn:Hex; [done|].
  apply not_true_is_false. intros Hh.
  assert (existsb (λ C, holds e C id) Ss = true); [|congruence].
  apply existsb_exists. exists C. split; [|done]. apply list_elem_of_In.
  by apply (bit_in_mask e Ss C iC Hwf HF HC).
Qed.

(** *** Who holds what after an operation *)

Lemma holds_same e e' T id :
  ECS.m_componentPools e' = ECS.m_componentPools e →
  ECS.m_componentBitPosition e' = ECS.m_componentBitPosition e →
  holds e' T id = holds e T id.
Proof. unfold holds, pool_of. by intros -> ->. Qed.

Lemma holds_after_Set e T info (s s' : SparseSet.t Val) id (v : Val) (p : N) X id0 :
  ecs_wf e → ECS.m_componentBitPosition e !! T = Some info →
  pool_of e T = Some s → sparse_wf s →
  SparseSet.Set_ id v s = Ok (p, s') →
  holds (ECS.set_componentPools e
           (<[N.to_nat (ECS.m_bitPosition info) := ECS.mkPool T s']>
              (ECS.m_componentPools e))) X id0
  = bool_decide (X = T ∧ id0 = id) || holds e X id0.
Proof.
  intros Hwf HT Hpo Hs HS. unfold holds at 1.
  rewrite (pool_of_update e T info s' X Hwf HT).
  destruct (Set_Ok_spec s id v p s' Hs HS) as (Hp & _ & Hidx & _).
  destruct (decide (X = T)) as [->|HX].
  - rewrite Hidx. unfold holds. rewrite Hpo.
    destruct (decide (id0 = id)) as [->|Hid].
    + rewrite bool_decide_eq_true_2 by done.
      by rewrite (proj2 (N.eqb_neq _ _) Hp).
    + rewrite bool_decide_eq_false_2; [done|]. by intros [_ ?].
  - rewrite bool_decide_eq_false_2; [done|]. by intros [? _].
Qed.

Lemma holds_after_Delete e T info (s s' : SparseSet.t Val) id X id0 :
  ecs_wf e → ECS.m_componentBitPosition e !! T = Some info →
  pool_of e T = Some s → sparse_ok s →
  SparseSet.Delete id s = Ok s' →
  holds (ECS.set_componentPools e
           (<[N.to_nat (ECS.m_bitPosition info) := ECS.mkPool T s']>
              (ECS.m_componentPools e))) X id0
  = negb (bool_decide (X = T ∧ id0 = id)) && holds e X id0.
Proof.
  intros Hwf HT Hpo Hs HD. unfold holds at 1.
  rewrite (pool_of_update e T info s' X Hwf HT).
  pose proof (Delete_present_iff s s' id Hs HD id0) as Hiff.
  destruct (decide (X = T)) as [->|HX].
  - unfold holds. rewrite Hpo.
    destruct (N.eqb_spec (SparseSet.GetDenseIndex id0 s') tombstone) as [E'|E'];
      destruct (N.eqb_spec (SparseSet.GetDenseIndex id0 s) tombstone) as [E|E];
      destruct (decide (id0 = id)) as [->|Hid];
      rewrite ?(bool_decide_eq_true_2 (T = T ∧ id = id)) by done;
      rewrite ?(bool_decide_eq_false_2 (T = T ∧ id0 = id)) by (by intros [_ ?]);
      simpl; try done; tauto.
  - rewrite bool_decide_eq_false_2; [done|]. by intros [? _].
Qed.

Lemma pool_of_after_Register e e' T (Cs : list TypeName) C :
  ecs_wf e → ECS.RegisterComponent T Cs e = Ok e' →
  pool_of e' C
  = if decide (C = T) then Some SparseSet.empty else pool_of e C.
Proof.
  intros Hwf H.
  destruct (RegisterComponent_Ok_inv e T Cs e' Hwf H) as (HT & Hcap & HF).
  destruct (RegisterComponent_spec e T Cs Hwf HT Hcap HF)
    as (e'' & H' & Hp & _ & _ & _ & HregT & Hreg).
  rewrite H in H'. injection H' as <-. unfold pool_of.
  case_decide as E.
  - subst C. rewrite HregT. cbn [mbind option_bind ECS.m_bitPosition].
    rewrite Hp. unfold size. rewrite Nat2N.id.
    by rewrite lookup_app_r, Nat.sub_diag by lia.
  - rewrite (Hreg C E).
    destruct (ECS.m_componentBitPosition e !! C) as [infoC|] eqn:HC; [|done].
    cbn [fmap option_fmap option_map mbind option_bind add_dependent
         ECS.m_bitPosition].
    destruct (wf_pool_of e Hwf C infoC HC) as (pool & Hpl & _).
    rewrite Hp, lookup_app_l; [done|]. by eapply lookup_lt_Some.
Qed.

Lemma holds_after_Register e e' T (Cs : list TypeName) C id :
  ecs_wf e → ECS.RegisterComponent T Cs e = Ok e' →
  holds e' C id = if decide (C = T) then false else holds e C id.
Proof.
  intros Hwf H. unfold holds. rewrite (pool_of_after_Register e e' T Cs C Hwf H).
  case_decide; [|done]. by rewrite GetDenseIndex_cell.
Qed.

(** *** The registry only grows *)

Lemma registry_extends_refl e : registry_extends e e.
Proof. intros T info HT. by exists info. Qed.

Lemma registry_extends_trans e1 e2 e3 :
  registry_extends e1 e2 → registry_extends e2 e3 → registry_extends e1 e3.
Proof.
  intros H12 H23 T info HT.
  destruct (H12 T info HT) as (i2 & HT2 & Hb2 & Hr2).
  destruct (H23 T i2 HT2) as (i3 & HT3 & Hb3 & Hr3).
  exists i3. split; [done|]. split; congruence.
Qed.

Lemma registry_extends_same e e' :
  ECS.m_componentBitPosition e' = ECS.m_componentBitPosition e →
  registry_extends e e'.
Proof. intros Heq T info HT. exists info. by rewrite Heq. Qed.

Lemma RegisterComponent_extends e e' T (Cs : list TypeName) :
  ecs_wf e → ECS.RegisterComponent T Cs e = Ok e' → registry_extends e e'.
Proof.
  intros Hwf H.
  destruct (RegisterComponent_Ok_inv e T Cs e' Hwf H) as (HT & Hcap & HF).
  destruct (RegisterComponent_spec e T Cs Hwf HT Hcap HF)
    as (e'' & H' & _ & _ & _ & _ & _ & Hreg).
  rewrite H in H'. injection H' as <-.
  intros C info HC. rewrite Hreg by congruence. rewrite HC.
  eexists. split; [done|]. done.
Qed.

Lemma ecs_step_extends (o : ecs_op Val) e e' :
  ecs_wf e → ecs_step o e = Ok e' → registry_extends e e'.
Proof.
  intros Hwf H. destruct o as [T Cs|name|id|T Rs id v|T Ss id]; simpl in H.
  - by eapply RegisterComponent_extends.
  - apply bind_Ok in H as ([id e1] & HC & [= <-]).
    destruct (CreateEntity_wf _ _ _ _ Hwf HC) as (_ & _ & _ & Hreg).
    by apply registry_extends_same.
  - apply bind_Ok in H as ([h e1] & HD & [= <-]).
    destruct (valid_entity_cases e id) as [[_ Hv]|Hf];
      [|exfalso; eapply fatal_not_Ok; [|done]; by apply fatal_bind].
    rewrite (DeleteEntity_valid e id Hv) in HD. injection HD as <- <-.
    by apply registry_extends_same.
  - apply bind_Ok in H as ([p e1] & HA & [= <-]).
    destruct (Add_Ok_inv _ _ _ _ _ _ _ Hwf HA)
      as (e0 & info & s & s' & Hcase & _ & _ & _ & _ & _ & _ & _ & _ & _ & ->).
    apply (registry_extends_trans e e0); [|by apply registry_extends_same].
    destruct Hcase as [[-> _]|[_ HR]]; [apply registry_extends_refl|].
    by eapply RegisterComponent_extends.
  - destruct (Remove_Ok_inv e T Ss id e' Hwf H)
      as (info & s & s' & _ & _ & _ & _ & _ & _ & _ & _ & ->).
    by apply registry_extends_same.
Qed.

Lemma ecs_run_extends (ops : list (ecs_op Val)) e e' :
  ecs_wf e → ecs_run ops e = Ok e' → registry_extends e e'.
Proof.
  revert e. induction ops as [|o ops IH]; intros e Hwf H; simpl in H.
  - unfold mret, outcome_ret in H. injection H as <-. apply registry_extends_refl.
  - apply bind_Ok in H as (e1 & Hstep & H).
    eapply registry_extends_trans; [by eapply ecs_step_extends|].
    eapply IH; [|done]. by eapply ecs_step_wf.
Qed.
End engine_invariants.

(** X10: bit positions are unique and stable.  Along every run of
    operations a registered type keeps its bit position and its required
    mask, no two registered types share a bit position, and every bit
    position is below MAX_COMPONENTS. *)
Theorem bit_positions_unique_and_stable
    {Val} (ops : list (ecs_op Val)) (e e' : ECS.t Val) :
  ecs_wf e →
  ecs_run ops e = Ok e' →
  (∀ (T : TypeName) info,
     ECS.m_componentBitPosition e !! T = Some info →
     ∃ info', ECS.m_componentBitPosition e' !! T = Some info'
              ∧ ECS.m_bitPosition info' = ECS.m_bitPosition info
              ∧ ECS.m_requiredComponents info' = ECS.m_requiredComponents info)
  ∧ (∀ (T T' : TypeName) i i',
       ECS.m_componentBitPosition e' !! T = Some i →
       ECS.m_componentBitPosition e' !! T' = Some i' →
       ECS.m_bitPosition i = ECS.m_bitPosition i' → T = T')
  ∧ (∀ (T : TypeName) i,
       ECS.m_componentBitPosition e' !! T = Some i →
       ECS.m_bitPosition i < MAX_COMPONENTS).
Proof.
  intros Hwf Hrun. pose proof (ecs_run_wf ops e e' Hwf Hrun) as Hwf'.
  split; [by apply (ecs_run_extends ops e e')|]. split.
  - intros T T' i i'. by apply wf_bit_inj.
  - intros T i HT. by destruct (wf_bit_lt e' T i Hwf' HT).
Qed.

Lemma bit_positions_unique_and_stable_witness :
  let e := engine_after garage in
  let ops := [Attach "Wheel" [] 0 4; Register "Seat" ["Wheel"%string];
              Detach "Wheel" ["Seat"%string] 0] in
  ecs_wf e
  ∧ ecs_run ops e = Ok (engine_after (garage ++ ops))
  ∧ ∃ info', ECS.m_componentBitPosition (engine_after (garage ++ ops))
               !! "Engine"%string = Some info'
             ∧ ECS.m_bitPosition info' = 1.
Proof.
  intros e ops.
  assert (ecs_run ops e = Ok (engine_after (garage ++ ops))) as Hrun
    by (vm_compute; reflexivity).
  split; [apply engine_after_wf|]. split; [exact Hrun|].
  destruct (bit_positions_unique_and_stable ops e _ (engine_after_wf _) Hrun)
    as (Hstable & _).
  destruct (Hstable "Engine"%string engine_info) as (info' & H1 & H2 & _).
  - vm_compute; reflexivity.
  - exists info'. split; [exact H1|exact H2].
Defined.

Section dependency_invariants.
Context {Val : Type}.
Implicit Types (e : ECS.t Val) (T C D R : TypeName) (id : EntityID).

Lemma engine_inv_empty : engine_inv (ECS.empty (Val:=Val)).
Proof.
  split; [apply ecs_wf_empty|]. split; [|split].
  - intros T C iT iC HT. unfold ECS.empty in HT. ecs_simpl.
    by rewrite lookup_empty in HT.
  - intros C info k HC. unfold ECS.empty in HC. ecs_simpl.
    by rewrite lookup_empty in HC.
  - intros T C iT iC id HT. unfold ECS.empty in HT. ecs_simpl.
    by rewrite lookup_empty in HT.
Qed.

Lemma engine_inv_same e e' :
  engine_inv e → ecs_wf e' →
  ECS.m_componentBitPosition e' = ECS.m_componentBitPosition e →
  ECS.m_componentPools e' = ECS.m_componentPools e →
  engine_inv e'.
Proof.
  intros (Hwf & Hdual & Hbnd & Hcl) Hwf' Hreg Hp.
  split; [done|]. split; [|split].
  - intros T C iT iC. rewrite Hreg. apply Hdual.
  - intros C info k. rewrite Hreg, Hp. apply Hbnd.
  - intros T C iT iC id. rewrite Hreg, !(holds_same e e') by done. apply Hcl.
Qed.

Lemma mask_from_bit_lt e (Cs : list TypeName) (k : N) :
  ecs_wf e → Forall (registered e) Cs →
  N.testbit (mask_from e Cs 0) k = true → k < size (ECS.m_componentPools e).
Proof.
  intros Hwf HF Hk. apply testbit_mask_from in Hk as [Hk|(C & HC & <-)].
  { by rewrite N.bits_0 in Hk. }
  rewrite Forall_forall in HF. destruct (HF C HC) as [info Hi].
  rewrite (GetComponentBitPosition_registered e C info Hi).
  by destruct (wf_bit_lt e C info Hwf Hi).
Qed.

Lemma RegisterComponent_inv e e' T (Cs : list TypeName) :
  engine_inv e → ECS.RegisterComponent T Cs e = Ok e' → engine_inv e'.
Proof.
  intros (Hwf & Hdual & Hbnd & Hcl) H.
  pose proof (RegisterComponent_wf T Cs e e' Hwf H) as Hwf'.
  destruct (RegisterComponent_Ok_inv e T Cs e' Hwf H) as (HT & Hcap & HF).
  destruct (RegisterComponent_spec e T Cs Hwf HT Hcap HF)
    as (e'' & H' & Hp & _ & _ & _ & HregT & Hreg).
  rewrite H in H'. injection H' as <-.
  set (b := size (ECS.m_componentPools e)) in *.
  (* an entry of the new registry is T's or an old one with T added *)
  assert (∀ C info', ECS.m_componentBitPosition e' !! C = Some info' →
            (C = T ∧ info' = ECS.mkInfo b (mask_from e Cs 0) 0)
            ∨ (C ≠ T ∧ ∃ info, ECS.m_componentBitPosition e !! C = Some info
                               ∧ info' = add_dependent b Cs C info)) as Hentry.
  { intros C info' HC. destruct (decide (C = T)) as [->|Hne].
    - left. split; [done|]. congruence.
    - right. split; [done|]. rewrite (Hreg C Hne) in HC.
      destruct (ECS.m_componentBitPosition e !! C) as [info|]; [|done].
      exists info. split; [done|]. by injection HC as <-. }
  assert (∀ k, N.testbit (mask_from e Cs 0) k = true → k < b) as Hmask
    by (intros k; by apply mask_from_bit_lt).
  assert (N.testbit (mask_from e Cs 0) b = false) as Hmaskb.
  { apply not_true_is_false. intros Hk%Hmask. lia. }
  assert (∀ C info, ECS.m_componentBitPosition e !! C = Some info →
            ECS.m_bitPosition info < b
            ∧ N.testbit (ECS.m_requiredComponents info) b = false
            ∧ N.testbit (ECS.m_isRequiredInComponents info) b = false) as Hold.
  { intros C info HC. split; [by destruct (wf_bit_lt e C info Hwf HC)|].
    split; apply not_true_is_false; intros Hk.
    - assert (b < b); [|lia]. eapply Hbnd; [done|by left].
    - assert (b < b); [|lia]. eapply Hbnd; [done|by right]. }
  split; [done|]. split; [|split].
  - intros T1 C1 i1 j1 HT1 HC1.
    destruct (Hentry T1 i1 HT1) as [[-> ->]|(HneT & iT & HiT & ->)];
      destruct (Hentry C1 j1 HC1) as [[-> ->]|(HneC & jC & HjC & ->)];
      cbn [add_dependent ECS.m_bitPosition ECS.m_requiredComponents
           ECS.m_isRequiredInComponents].
    + by rewrite Hmaskb, N.bits_0.
    + destruct (Hold C1 jC HjC) as (_ & _ & Hq).
      case_bool_decide as Hin.
      * rewrite N.setbit_eqb, N.eqb_refl. cbn [orb].
        by apply (bit_in_mask e Cs C1 jC Hwf HF HjC).
      * rewrite Hq. apply not_true_is_false. intros Hk.
        by apply (bit_in_mask e Cs C1 jC Hwf HF HjC) in Hk.
    + destruct (Hold T1 iT HiT) as (_ & Hr & _). by rewrite Hr, N.bits_0.
    + destruct (Hold T1 iT HiT) as (Hlt & _ & _).
      rewrite (Hdual T1 C1 iT jC HiT HjC).
      case_bool_decide; [|done]. rewrite N.setbit_neq; [done|lia].
  - intros C1 info' k HC1 Hk. rewrite Hp.
    assert (k < b ∨ k = b) as Hkb;
      [|unfold b, size in *; rewrite length_app; simpl; lia].
    destruct (Hentry C1 info' HC1) as [[-> ->]|(HneC & jC & HjC & ->)];
      cbn [add_dependent ECS.m_bitPosition ECS.m_requiredComponents
           ECS.m_isRequiredInComponents] in Hk.
    + destruct Hk as [Hk|Hk]; [left; by apply Hmask|by rewrite N.bits_0 in Hk].
    + destruct Hk as [Hk|Hk]; [left; eapply Hbnd; [done|by left]|].
      case_bool_decide; [|left; eapply Hbnd; [done|by right]].
      rewrite N.setbit_eqb in Hk. apply orb_true_iff in Hk as [Hk%N.eqb_eq|Hk];
        [by right|left; eapply Hbnd; [done|by right]].
  - intros T1 C1 i1 j1 id HT1 HC1 Hbit Hh.
    rewrite (holds_after_Register e e' T Cs T1 id Hwf H) in Hh.
    rewrite (holds_after_Register e e' T Cs C1 id Hwf H).
    destruct (decide (T1 = T)) as [|HneT]; [done|].
    destruct (Hentry T1 i1 HT1) as [[? _]|(_ & iT & HiT & ->)]; [done|].
    cbn [add_dependent ECS.m_requiredComponents] in Hbit.
    destruct (Hentry C1 j1 HC1) as [[-> ->]|(HneC & jC & HjC & ->)];
      cbn [add_dependent ECS.m_bitPosition] in Hbit.
    + destruct (Hold T1 iT HiT) as (_ & Hr & _). congruence.
    + rewrite decide_False by done. exact (Hcl T1 C1 iT jC id HiT HjC Hbit Hh).
Qed.

Lemma Add_inv T (Rs : list TypeName) id (v : Val) e (p : N) e' :
  engine_inv e → ECS.Add T Rs id v e = Ok (p, e') → engine_inv e'.
Proof.
  intros Hinv HA. pose proof Hinv as (Hwf & _).
  pose proof (Add_wf T Rs id v e p e' Hwf HA) as Hwf'.
  destruct (Add_Ok_inv _ _ _ _ _ _ _ Hwf HA)
    as (e1 & info & s & s' & Hcase & Hwf1 & HT & Hpo & Hs & Hv & Hh & HM & HR
        & HS & ->).
  assert (engine_inv e1) as (_ & Hdual & Hbnd & Hcl).
  { destruct Hcase as [[-> _]|[_ Hreg]]; [done|].
    by eapply RegisterComponent_inv. }
  split; [done|]. split; [|split].
  - exact Hdual.
  - intros C i k HC Hk. ecs_simpl. unfold size. rewrite length_insert.
    by eapply Hbnd.
  - intros T1 C1 i1 j1 id0 HT1 HC1 Hbit. ecs_simpl.
    rewrite !(holds_after_Set e1 T info s s' id v p) by done.
    intros [Hnew|Hold]%orb_true_iff; apply orb_true_iff; right.
    + apply bool_decide_eq_true_1 in Hnew as [-> ->].
      rewrite HT in HT1. injection HT1 as <-.
      exact (required_all_held e1 Rs id _ C1 j1 Hwf1 HM HR HC1 Hbit).
    + exact (Hcl T1 C1 i1 j1 id0 HT1 HC1 Hbit Hold).
Qed.

Lemma Remove_inv T (Ss : list TypeName) id e e' :
  engine_inv e → ECS.Remove T Ss id e = Ok e' → engine_inv e'.
Proof.
  intros (Hwf & Hdual & Hbnd & Hcl) HR.
  pose proof (Remove_wf T Ss id e e' Hwf HR) as Hwf'.
  destruct (Remove_Ok_inv e T Ss id e' Hwf HR)
    as (info & s & s' & HT & Hpo & Hs & Hv & Hh & HM & HRA & HD & ->).
  assert (sparse_ok s) as Hok.
  { destruct (pool_of_registered e T info Hwf HT) as (pl & Hpl & _ & Hpo' & _).
    rewrite Hpo in Hpo'. injection Hpo' as ->. exact (pool_ok e _ pl Hwf Hpl). }
  split; [done|]. split; [|split].
  - exact Hdual.
  - intros C i k HC Hk. ecs_simpl. unfold size. rewrite length_insert.
    by eapply Hbnd.
  - intros T1 C1 i1 j1 id0 HT1 HC1 Hbit. ecs_simpl.
    rewrite !(holds_after_Delete e T info s s' id) by done.
    intros [Hnot Hold]%andb_true_iff. apply andb_true_iff.
    split; [|exact (Hcl T1 C1 i1 j1 id0 HT1 HC1 Hbit Hold)].
    apply negb_true_iff, bool_decide_eq_false_2. intros [-> ->].
    rewrite HT in HC1. injection HC1 as <-.
    rewrite (Hdual T1 T i1 info HT1 HT) in Hbit.
    pose proof (sustained_none_held e Ss id _ T1 i1 Hwf HM HRA HT1 Hbit).
    congruence.
Qed.

Lemma ecs_step_inv (o : ecs_op Val) e e' :
  engine_inv e → ecs_step o e = Ok e' → engine_inv e'.
Proof.
  intros Hinv H. pose proof Hinv as (Hwf & _).
  destruct o as [T Cs|name|id|T Rs id v|T Ss id]; simpl in H.
  - by eapply RegisterComponent_inv.
  - apply bind_Ok in H as ([id e1] & HC & [= <-]).
    destruct (CreateEntity_wf _ _ _ _ Hwf HC) as (Hwf1 & _ & Hp & Hreg).
    by eapply engine_inv_same.
  - apply bind_Ok in H as ([h e1] & HD & [= <-]).
    pose proof (DeleteEntity_wf _ _ _ _ Hwf HD) as Hwf1.
    destruct (valid_entity_cases e id) as [[_ Hv]|Hf];
      [|exfalso; eapply fatal_not_Ok; [|done]; by apply fatal_bind].
    rewrite (DeleteEntity_valid e id Hv) in HD. injection HD as _ <-.
    by eapply engine_inv_same.
  - apply bind_Ok in H as ([p e1] & HA & [= <-]). by eapply Add_inv.
  - by eapply Remove_inv.
Qed.

Lemma ecs_run_inv (ops : list (ecs_op Val)) e e' :
  engine_inv e → ecs_run ops e = Ok e' → engine_inv e'.
Proof.
  revert e. induction ops as [|o ops IH]; intros e Hinv H; simpl in H.
  - unfold mret, outcome_ret in H. by injection H as <-.
  - apply bind_Ok in H as (e1 & Hstep & H).
    eapply IH; [|done]. by eapply ecs_step_inv.
Qed.
End dependency_invariants.

(** X11: the two dependency masks mirror each other along every run from a
    fresh engine: T's required mask has C's bit exactly when C's sustained
    mask has T's bit, and a mask only has bits of registered types. *)
Theorem requires_iff_sustains
    {Val} (ops : list (ecs_op Val)) (e : ECS.t Val) :
  ecs_run ops ECS.empty = Ok e →
  (∀ (T C : TypeName) iT iC,
     ECS.m_componentBitPosition e !! T = Some iT →
     ECS.m_componentBitPosition e !! C = Some iC →
     N.testbit (ECS.m_requiredComponents iT) (ECS.m_bitPosition iC)
     = N.testbit (ECS.m_isRequiredInComponents iC) (ECS.m_bitPosition iT))
  ∧ (∀ (C : TypeName) info (k : N),
       ECS.m_componentBitPosition e !! C = Some info →
       N.testbit (ECS.m_requiredComponents info) k = true
       ∨ N.testbit (ECS.m_isRequiredInComponents info) k = true →
       k < size (ECS.m_componentPools e)).
Proof.
  intros Hrun.
  destruct (ecs_run_inv ops ECS.empty e engine_inv_empty Hrun)
    as (_ & Hdual & Hbnd & _).
  split; [exact Hdual|exact Hbnd].
Qed.

Lemma requires_iff_sustains_witness :
  ecs_run garage_engine (ECS.empty (Val:=N)) = Ok (engine_after garage_engine)
  ∧ N.testbit (ECS.m_requiredComponents engine_info) (ECS.m_bitPosition chassis_info)
    = N.testbit (ECS.m_isRequiredInComponents chassis_info)
        (ECS.m_bitPosition engine_info).
Proof.
  assert (ecs_run garage_engine (ECS.empty (Val:=N))
          = Ok (engine_after garage_engine)) as Hrun by (vm_compute; reflexivity).
  split; [exact Hrun|].
  destruct (requires_iff_sustains garage_engine _ Hrun) as [Hdual _].
  apply (Hdual "Engine"%string "Chassis"%string); vm_compute; reflexivity.
Defined.

(** X12: dependencies stay satisfied.  Along every run of RegisterComponent,
    CreateEntity, DeleteEntity, Add and Remove from a fresh engine, an
    entity id that has a component of type T has a component of every type
    in T's required mask. *)
Theorem required_components_stay_attached
    {Val} (ops : list (ecs_op Val)) (e : ECS.t Val) :
  ecs_run ops ECS.empty = Ok e →
  ∀ (T C : TypeName) iT iC (id : EntityID),
    ECS.m_componentBitPosition e !! T = Some iT →
    ECS.m_componentBitPosition e !! C = Some iC →
    N.testbit (ECS.m_requiredComponents iT) (ECS.m_bitPosition iC) = true →
    ECS.Has T id e = Ok true → ECS.Has C id e = Ok true.
Proof.
  intros Hrun T C iT iC id HT HC Hbit.
  destruct (ecs_run_inv ops ECS.empty e engine_inv_empty Hrun)
    as (Hwf & _ & _ & Hcl).
  rewrite !Has_registered; [|done|by eexists|done|by eexists].
  intros [= Hh]. f_equal. exact (Hcl T C iT iC id HT HC Hbit Hh).
Qed.

Lemma required_components_stay_attached_witness :
  ecs_run garage_engine (ECS.empty (Val:=N)) = Ok (engine_after garage_engine)
  ∧ ECS.Has "Chassis" 0 (engine_after garage_engine) = Ok true.
Proof.
  assert (ecs_run garage_engine (ECS.empty (Val:=N))
          = Ok (engine_after garage_engine)) as Hrun by (vm_compute; reflexivity).
  split; [exact Hrun|].
  apply (required_components_stay_attached garage_engine _ Hrun
           "Engine"%string "Chassis"%string engine_info chassis_info 0);
    vm_compute; reflexivity.
Defined.

(** * Further properties of Add, Get and Remove *)

Section facade.
Context {Val : Type}.
Implicit Types (e : ECS.t Val) (T C D R : TypeName) (id : EntityID).

Lemma valid_entity_dec e id : valid_entity e id ∨ ¬ valid_entity e id.
Proof.
  destruct (decide (id = NULL_ENTITY)) as [->|Hn]; [right; by intros [? _]|].
  destruct (N.ltb_spec id (ECS.m_maxEntityID e)); [left; by split|].
  right. intros [_ ?]. lia.
Qed.

(** The id check fails with one of its two assertions. *)
Lemma invalid_entity_Fail e id :
  ¬ valid_entity e id →
  ECS.BSEECS_ASSERT_VALID_ENTITY id e = Fail (Abort NullEntityOperated)
  ∨ ECS.BSEECS_ASSERT_VALID_ENTITY id e = Fail (Abort EntityOutOfBounds).
Proof.
  intros Hnv. unfold ECS.BSEECS_ASSERT_VALID_ENTITY.
  destruct (N.eqb_spec id NULL_ENTITY) as [|Hn]; [by left|]. right.
  cbn [negb BSEECS_ASSERT]. step. rewrite leb_0_l.
  destruct (N.ltb_spec id (ECS.m_maxEntityID e)); [|done].
  destruct Hnv. by split.
Qed.

Lemma valid_entity_same e e' id :
  ECS.m_maxEntityID e' = ECS.m_maxEntityID e →
  ECS.BSEECS_ASSERT_VALID_ENTITY id e' = ECS.BSEECS_ASSERT_VALID_ENTITY id e.
Proof. unfold ECS.BSEECS_ASSERT_VALID_ENTITY. by intros ->. Qed.

(** [Get] on a registered type, with the pool lookups resolved. *)
Lemma Get_registered_gen e T info s id :
  ecs_wf e → ECS.m_componentBitPosition e !! T = Some info →
  pool_of e T = Some s →
  ECS.Get T id e
  = (_ ← ECS.BSEECS_ASSERT_VALID_ENTITY id e;
     if holds e T id
     then at_ (SparseSet.m_dense s) (SparseSet.GetDenseIndex id s)
     else Fail (Abort MissingComponent)).
Proof.
  intros Hwf HT Hpo.
  destruct (valid_entity_dec e id) as [Hv|Hnv].
  - rewrite (Get_registered e T info s id Hwf HT Hpo Hv).
    by rewrite (valid_entity_Ok e id Hv).
  - unfold ECS.Get.
    by destruct (invalid_entity_Fail e id Hnv) as [-> | ->].
Qed.

(** [Add] where it completes. *)
Lemma Add_succeeds e T info (Rs : list TypeName) id (v : Val) :
  ecs_wf e → ECS.m_componentBitPosition e !! T = Some info →
  valid_entity e id → holds e T id = false →
  ECS.GetMask Rs e = Ok (ECS.m_requiredComponents info) →
  ECS.HasAllRequired Rs id e = Ok true →
  ∃ p e', ECS.Add T Rs id v e = Ok (p, e')
          ∧ ecs_wf e'
          ∧ ECS.m_componentBitPosition e' = ECS.m_componentBitPosition e
          ∧ ECS.Has T id e' = Ok true
          ∧ ECS.Get T id e' = Ok v.
Proof.
  intros Hwf HT Hv Hh HM HR.
  destruct (pool_of_registered e T info Hwf HT) as (pl & Hpl & _ & Hpo & Hs).
  rewrite (Add_registered e T info Rs id v _ Hwf HT Hpo).
  rewrite (valid_entity_Ok e id Hv). step. rewrite Hh.
  cbn [negb BSEECS_ASSERT]. step. rewrite HM. step.
  rewrite N.lxor_nilpotent. cbn [N.eqb BSEECS_ASSERT]. step.
  rewrite HR. cbn [BSEECS_ASSERT]. step.
  pose proof Hh as Hts. rewrite (holds_pool e T _ id Hpo) in Hts.
  apply negb_false_iff, N.eqb_eq in Hts.
  destruct (Set_absent_Ok (ECS.pool_set pl) id v Hs Hts (pool_has_room e _ pl Hwf Hpl))
    as (s' & HS & Hs' & Hidx & Hdense & Hd2e).
  rewrite HS. step. eexists _, _. split; [done|].
  set (e' := ECS.set_componentPools e _).
  assert (ecs_wf e') as Hwf'.
  { apply pool_update_wf; [done..|]. rewrite Hd2e.
    intros x [Hx| ->%list_elem_of_singleton]%elem_of_app.
    - by eapply wf_owners.
    - by destruct Hv. }
  assert (pool_of e' T = Some s') as Hpo'.
  { unfold e'. by rewrite (pool_of_update e T info s' T Hwf HT), decide_True. }
  assert (holds e' T id = true) as Hh'.
  { unfold e'. rewrite (holds_after_Set e T info _ s' id v _ T id Hwf HT Hpo Hs HS).
    by rewrite bool_decide_eq_true_2. }
  split; [done|]. split; [done|]. split.
  - rewrite Has_registered; [by rewrite Hh'|done|by eexists].
  - rewrite (Get_registered e' T info s' id Hwf' HT Hpo' Hv), Hh', Hidx.
    apply at_Ok. rewrite Hdense. unfold size. rewrite Nat2N.id.
    by rewrite lookup_app_r, Nat.sub_diag by lia.
Qed.

(** [Add] on an unregistered type continues on the engine where the type
    has just been registered. *)
Lemma Add_auto e e1 T (Rs : list TypeName) id (v : Val) :
  ecs_wf e → valid_entity e id →
  ECS.m_componentBitPosition e !! T = None →
  ECS.RegisterComponent T [] e = Ok e1 →
  ECS.Add T Rs id v e = ECS.Add T Rs id v e1.
Proof.
  intros Hwf Hv HT Hreg.
  pose proof (RegisterComponent_wf T [] e e1 Hwf Hreg) as Hwf1.
  destruct (RegisterComponent_registers T [] e e1 Hreg) as ([info HT1] & Hmax & _).
  assert (valid_entity e1 id) as Hv1 by (destruct Hv; split; [done|by rewrite Hmax]).
  unfold ECS.Add. rewrite (valid_entity_Ok e id Hv), (valid_entity_Ok e1 id Hv1).
  step. rewrite (GetComponentPool_registered e1 T info true Hwf1 HT1).
  assert (ECS.GetComponentPool T true e = Ok (ECS.m_bitPosition info, e1)) as ->;
    [|done].
  pose proof (GetComponentPool_registered e1 T info true Hwf1 HT1) as HG1.
  unfold ECS.GetComponentPool in *.
  unfold ECS.GetComponentBitPosition at 1 2. rewrite HT, N.eqb_refl, Hreg. step.
  cbn [BSEECS_ASSERT]. step.
  rewrite (GetComponentBitPosition_registered e1 T info HT1) in *.
  assert ((ECS.m_bitPosition info =? tombstone) = false) as Hnt.
  { destruct (wf_bit_lt e1 T info Hwf1 HT1) as [_ Hlt].
    apply N.eqb_neq. unfold MAX_COMPONENTS, tombstone in *. lia. }
  rewrite Hnt in HG1. rewrite HT1. exact HG1.
Qed.
End facade.

(** X13: Add<T> on a type that is not registered registers it first, with
    no required types.  With an empty declared list it then stores the
    value for a valid entity; with a non-empty declared list it is fatal,
    and it is fatal when MAX_COMPONENTS types are registered already. *)
Theorem Add_registers_unknown_type
    {Val} (e : ECS.t Val) (T : TypeName) (Rs : list TypeName)
    (id : EntityID) (v : Val) :
  ecs_wf e →
  ECS.m_componentBitPosition e !! T = None →
  valid_entity e id →
  (size (ECS.m_componentPools e) < MAX_COMPONENTS →
   ∃ p e', ECS.Add T [] id v e = Ok (p, e')
           ∧ ECS.m_componentBitPosition e' !! T
             = Some (ECS.mkInfo (size (ECS.m_componentPools e)) 0 0)
           ∧ ECS.Has T id e' = Ok true
           ∧ ECS.Get T id e' = Ok v)
  ∧ (size (ECS.m_componentPools e) < MAX_COMPONENTS → Rs ≠ [] →
     ECS.Add T Rs id v e = Fail (Abort UnregisteredComponent)
     ∨ ECS.Add T Rs id v e = Fail (Abort RequiredMismatch))
  ∧ (MAX_COMPONENTS ≤ size (ECS.m_componentPools e) →
     ECS.Add T Rs id v e = Fail (Abort MaxComponentsExceeded)).
Proof.
  intros Hwf HT Hv. split; [|split].
  - intros Hcap.
    destruct (RegisterComponent_spec e T [] Hwf HT Hcap (Forall_nil_2 _))
      as (e1 & Hreg & Hp & _ & _ & Hmax & HT1 & _).
    pose proof (RegisterComponent_wf T [] e e1 Hwf Hreg) as Hwf1.
    rewrite (Add_auto e e1 T [] id v Hwf Hv HT Hreg).
    destruct (Add_succeeds e1 T _ [] id v Hwf1 HT1) as (p & e' & HA & _ & Hr & Hhas & Hget).
    + destruct Hv. split; [done|by rewrite Hmax].
    + by rewrite (holds_after_Register e e1 T [] T id Hwf Hreg), decide_True.
    + done.
    + done.
    + exists p, e'. split; [done|]. by rewrite Hr.
  - intros Hcap HRs.
    destruct (RegisterComponent_spec e T [] Hwf HT Hcap (Forall_nil_2 _))
      as (e1 & Hreg & Hp & _ & _ & Hmax & HT1 & _).
    pose proof (RegisterComponent_wf T [] e e1 Hwf Hreg) as Hwf1.
    rewrite (Add_auto e e1 T Rs id v Hwf Hv HT Hreg).
    destruct (pool_of_registered e1 T _ Hwf1 HT1) as (pl & _ & _ & Hpo & _).
    rewrite (Add_registered e1 T _ Rs id v _ Hwf1 HT1 Hpo).
    assert (valid_entity e1 id) as Hv1 by (destruct Hv; split; [done|by rewrite Hmax]).
    rewrite (valid_entity_Ok e1 id Hv1). step.
    rewrite (holds_after_Register e e1 T [] T id Hwf Hreg), decide_True by done.
    cbn [negb BSEECS_ASSERT]. step.
    destruct (GetMask_cases e1 Rs Hwf1) as [[HF ->]| ->]; [right|by left].
    step. cbn [ECS.m_requiredComponents]. rewrite N.lxor_0_r.
    destruct Rs as [|C Rs]; [done|].
    apply Forall_cons in HF as [[iC HC] HF].
    assert (N.testbit (mask_from e1 (C :: Rs) 0) (ECS.m_bitPosition iC) = true) as Hbit.
    { apply (bit_in_mask e1 (C :: Rs) C iC Hwf1); [|done|by left].
      constructor; [by eexists|done]. }
    destruct (N.eqb_spec (mask_from e1 (C :: Rs) 0) 0) as [Hz|]; [|done].
    by rewrite Hz, N.bits_0 in Hbit.
  - intros Hcap. unfold ECS.Add. rewrite (valid_entity_Ok e id Hv). step.
    unfold ECS.GetComponentPool, ECS.GetComponentBitPosition.
    rewrite HT, N.eqb_refl. unfold ECS.RegisterComponent.
    rewrite bool_decide_eq_true_2 by done. cbn [BSEECS_ASSERT]. step.
    by rewrite (proj2 (N.ltb_ge _ _) Hcap).
Qed.

Lemma Add_registers_unknown_type_witness :
  let e := engine_after garage in
  ecs_wf e
  ∧ ECS.m_componentBitPosition e !! "Wheel"%string = None
  ∧ valid_entity e 1
  ∧ (∃ p e', ECS.Add "Wheel" [] 1 4 e = Ok (p, e')
             ∧ ECS.m_componentBitPosition e' !! "Wheel"%string
               = Some (ECS.mkInfo 2 0 0)
             ∧ ECS.Get "Wheel" 1 e' = Ok 4)
  ∧ ECS.Add "Wheel" ["Chassis"%string] 1 4 e = Fail (Abort RequiredMismatch).
Proof.
  intros e.
  assert (ECS.m_componentBitPosition e !! "Wheel"%string = None) as HT
    by (vm_compute; reflexivity).
  assert (valid_entity e 1) as Hv by (split; vm_compute; [discriminate|reflexivity]).
  assert (size (ECS.m_componentPools e) < MAX_COMPONENTS) as Hcap
    by (vm_compute; reflexivity).
  split; [apply engine_after_wf|]. split; [exact HT|]. split; [exact Hv|].
  split.
  - destruct (Add_registers_unknown_type e "Wheel" [] 1 4 (engine_after_wf _) HT Hv)
      as (Hok & _).
    destruct (Hok Hcap) as (p & e' & HA & Hi & _ & HG).
    exists p, e'. split; [exact HA|]. split; [exact Hi|exact HG].
  - vm_compute; reflexivity.
Defined.

(** ** How the operations can fail *)

Ltac in_list :=
  repeat first [apply list_elem_of_here | apply list_elem_of_further].

(** Closes [aborts_with r l] once [r] is a value or a listed assertion. *)
Ltac aborts :=
  let f := fresh "f" in let H := fresh "H" in
  intros f H; first
    [ discriminate H
    | injection H as <-; eexists; split; [reflexivity|in_list] ].

Lemma aborts_with_mono {A} (r : outcome A) (l k : list assertion) :
  aborts_with r l → (∀ a, a ∈ l → a ∈ k) → aborts_with r k.
Proof. intros Hr Hsub f Hf. destruct (Hr f Hf) as (a & -> & Ha). eauto. Qed.

Section outcomes.
Context {Val : Type}.
Implicit Types (e : ECS.t Val) (T C D R : TypeName) (id : EntityID).

Lemma Add_registered_outcomes e T info (Rs : list TypeName) id (v : Val) :
  ecs_wf e → ECS.m_componentBitPosition e !! T = Some info →
  aborts_with (ECS.Add T Rs id v e)
    [NullEntityOperated; EntityOutOfBounds; AlreadyHasComponent;
     UnregisteredComponent; RequiredMismatch; NoRequiredComponent].
Proof.
  intros Hwf HT.
  destruct (pool_of_registered e T info Hwf HT) as (pl & Hpl & _ & Hpo & Hs).
  rewrite (Add_registered e T info Rs id v _ Hwf HT Hpo).
  destruct (valid_entity_dec e id) as [Hv|Hnv];
    [|destruct (invalid_entity_Fail e id Hnv) as [-> | ->]; aborts].
  rewrite (valid_entity_Ok e id Hv). step.
  destruct (holds e T id) eqn:Hh; [aborts|]. cbn [negb BSEECS_ASSERT]. step.
  destruct (GetMask_cases e Rs Hwf) as [[HF ->]| ->]; [|aborts]. step.
  destruct (N.lxor _ _ =? 0); [|aborts]. cbn [BSEECS_ASSERT]. step.
  rewrite (HasAllRequired_registered e Rs id Hwf HF).
  destruct (forallb _ Rs); [|aborts]. cbn [BSEECS_ASSERT]. step.
  rewrite (holds_pool e T _ id Hpo) in Hh.
  apply negb_false_iff, N.eqb_eq in Hh.
  destruct (Set_absent_Ok (ECS.pool_set pl) id v Hs Hh (pool_has_room e _ pl Hwf Hpl))
    as (s' & -> & _). aborts.
Qed.

Lemma RegisterComponent_outcomes e T (Cs : list TypeName) :
  ecs_wf e →
  aborts_with (ECS.RegisterComponent T Cs e)
    [AlreadyRegistered; MaxComponentsExceeded; UnregisteredComponent].
Proof.
  intros Hwf.
  destruct (ECS.m_componentBitPosition e !! T) as [info|] eqn:HT.
  { unfold ECS.RegisterComponent. rewrite HT.
    rewrite bool_decide_eq_false_2 by done. aborts. }
  destruct (N.ltb_spec (size (ECS.m_componentPools e)) MAX_COMPONENTS) as [Hcap|Hcap].
  - destruct (decide (Forall (registered e) Cs)) as [HF|HF].
    + destruct (RegisterComponent_spec e T Cs Hwf HT Hcap HF) as (e' & -> & _).
      aborts.
    + unfold ECS.RegisterComponent. rewrite HT.
      rewrite bool_decide_eq_true_2 by done. cbn [BSEECS_ASSERT]. step.
      rewrite (proj2 (N.ltb_lt _ _) Hcap). cbn [BSEECS_ASSERT]. step.
      unfold ECS.GetMask. rewrite SetComponentBits_unregistered by done. aborts.
  - unfold ECS.RegisterComponent. rewrite HT.
    rewrite bool_decide_eq_true_2 by done. cbn [BSEECS_ASSERT]. step.
    rewrite (proj2 (N.ltb_ge _ _) Hcap). aborts.
Qed.

Lemma Add_outcomes e T (Rs : list TypeName) id (v : Val) :
  ecs_wf e →
  aborts_with (ECS.Add T Rs id v e)
    [NullEntityOperated; EntityOutOfBounds; MaxComponentsExceeded;
     AlreadyHasComponent; UnregisteredComponent; RequiredMismatch;
     NoRequiredComponent].
Proof.
  intros Hwf.
  destruct (ECS.m_componentBitPosition e !! T) as [info|] eqn:HT.
  { eapply aborts_with_mono; [by eapply Add_registered_outcomes|].
    intros a Ha. repeat (apply elem_of_cons in Ha as [->|Ha]; [in_list|]).
    by apply elem_of_nil in Ha. }
  destruct (valid_entity_dec e id) as [Hv|Hnv].
  - destruct (N.ltb_spec (size (ECS.m_componentPools e)) MAX_COMPONENTS) as [Hcap|Hcap].
    + destruct (RegisterComponent_spec e T [] Hwf HT Hcap (Forall_nil_2 _))
        as (e1 & Hreg & _ & _ & _ & _ & HT1 & _).
      rewrite (Add_auto e e1 T Rs id v Hwf Hv HT Hreg).
      eapply aborts_with_mono.
      * eapply Add_registered_outcomes; [by eapply RegisterComponent_wf|done].
      * intros a Ha. repeat (apply elem_of_cons in Ha as [->|Ha]; [in_list|]).
        by apply elem_of_nil in Ha.
    + unfold ECS.Add. rewrite (valid_entity_Ok e id Hv). step.
      unfold ECS.GetComponentPool, ECS.GetComponentBitPosition.
      rewrite HT, N.eqb_refl. unfold ECS.RegisterComponent. rewrite HT.
      rewrite bool_decide_eq_true_2 by done. cbn [BSEECS_ASSERT]. step.
      rewrite (proj2 (N.ltb_ge _ _) Hcap). aborts.
  - unfold ECS.Add.
    destruct (invalid_entity_Fail e id Hnv) as [-> | ->]; aborts.
Qed.

Lemma Remove_outcomes e T (Ss : list TypeName) id :
  ecs_wf e →
  aborts_with (ECS.Remove T Ss id e)
    [NullEntityOperated; EntityOutOfBounds; UnregisteredComponent;
     NoComponentToRemove; SustainedMismatch; HasToRemoveComponent].
Proof.
  intros Hwf.
  destruct (valid_entity_dec e id) as [Hv|Hnv];
    [|unfold ECS.Remove;
      destruct (invalid_entity_Fail e id Hnv) as [-> | ->]; aborts].
  destruct (ECS.m_componentBitPosition e !! T) as [info|] eqn:HT.
  - destruct (pool_of_registered e T info Hwf HT) as (pl & Hpl & _ & Hpo & Hs).
    rewrite (Remove_registered e T info Ss id _ Hwf HT Hpo).
    rewrite (valid_entity_Ok e id Hv). step.
    destruct (holds e T id) eqn:Hh; [|aborts]. cbn [BSEECS_ASSERT]. step.
    destruct (GetMask_cases e Ss Hwf) as [[HF ->]| ->]; [|aborts]. step.
    destruct (N.lxor _ _ =? 0); [|aborts]. cbn [BSEECS_ASSERT]. step.
    rewrite (HasRemovedAll_registered e Ss id Hwf HF).
    destruct (existsb _ Ss); [aborts|]. cbn [BSEECS_ASSERT]. step.
    rewrite (holds_pool e T _ id Hpo) in Hh.
    apply negb_true_iff, N.eqb_neq in Hh.
    destruct (Delete_present_Ok _ id Hs Hh) as [s' ->]. aborts.
  - unfold ECS.Remove. rewrite (valid_entity_Ok e id Hv). step.
    rewrite GetComponentPool_unregistered by done. aborts.
Qed.

Lemma CreateEntity_outcomes e (name : string) :
  ecs_wf e → aborts_with (ECS.CreateEntity name e) [EntityLimitExceeded].
Proof.
  intros Hwf.
  destruct (ECS.m_availableEntities e) as [|id0 free0] eqn:Hfree using rev_ind.
  - destruct (N.ltb_spec (ECS.m_maxEntityID e) MAX_ENTITIES).
    + rewrite CreateEntity_fresh by done. aborts.
    + rewrite CreateEntity_full by done. aborts.
  - clear IHfree0. rewrite (CreateEntity_reuse e name free0 id0 Hfree); [aborts|].
    assert (id0 < ECS.m_maxEntityID e) as Hlt.
    { apply (wf_free e Hwf). rewrite Hfree. apply elem_of_app. right.
      by apply list_elem_of_singleton. }
    pose proof (wf_max e Hwf). unfold MAX_ENTITIES, tombstone in *. lia.
Qed.

Lemma DeleteEntity_outcomes e id :
  aborts_with (ECS.DeleteEntity id e) [NullEntityOperated; EntityOutOfBounds].
Proof.
  destruct (valid_entity_dec e id) as [Hv|Hnv].
  - rewrite (DeleteEntity_valid e id Hv). aborts.
  - unfold ECS.DeleteEntity.
    destruct (invalid_entity_Fail e id Hnv) as [-> | ->]; aborts.
Qed.

Lemma ecs_step_stops_at_assertion (o : ecs_op Val) e f :
  ecs_wf e → ecs_step o e = Fail f → ∃ a, f = Abort a.
Proof.
  intros Hwf H. destruct o as [T Cs|name|id|T Rs id v|T Ss id]; simpl in H.
  - destruct (RegisterComponent_outcomes e T Cs Hwf f H) as (a & -> & _); eauto.
  - destruct (ECS.CreateEntity name e) as [[id e1]|f'] eqn:HC; [done|].
    injection H as <-.
    destruct (CreateEntity_outcomes e name Hwf f' HC) as (a & -> & _); eauto.
  - destruct (ECS.DeleteEntity id e) as [[h e1]|f'] eqn:HD; [done|].
    injection H as <-.
    destruct (DeleteEntity_outcomes e id f' HD) as (a & -> & _); eauto.
  - destruct (ECS.Add T Rs id v e) as [[p e1]|f'] eqn:HA; [done|].
    injection H as <-.
    destruct (Add_outcomes e T Rs id v Hwf f' HA) as (a & -> & _); eauto.
  - destruct (Remove_outcomes e T Ss id Hwf f H) as (a & -> & _); eauto.
Qed.
End outcomes.

(** X14: Add stops only at an assertion, and only at seven of them.  On a
    well-formed engine it never reads out of bounds, never dereferences a
    null mask and never overflows a vector, and its own assertion "is
    missing some required components" cannot fire: HasRequired aborts
    before it. *)
Theorem Add_stops_at_listed_assertions
    {Val} (e : ECS.t Val) (T : TypeName) (Rs : list TypeName)
    (id : EntityID) (v : Val) (f : failure) :
  ecs_wf e →
  ECS.Add T Rs id v e = Fail f →
  ∃ a, f = Abort a
       ∧ a ∈ [NullEntityOperated; EntityOutOfBounds; MaxComponentsExceeded;
              AlreadyHasComponent; UnregisteredComponent; RequiredMismatch;
              NoRequiredComponent].
Proof. intros Hwf H. by apply (Add_outcomes e T Rs id v Hwf). Qed.

Lemma Add_stops_at_listed_assertions_witness :
  let e := engine_after garage in
  ecs_wf e
  ∧ ECS.Add "Engine" ["Chassis"%string] 0 9 e = Fail (Abort NoRequiredComponent)
  ∧ ∃ a, Abort NoRequiredComponent = Abort a
         ∧ a ∈ [NullEntityOperated; EntityOutOfBounds; MaxComponentsExceeded;
                AlreadyHasComponent; UnregisteredComponent; RequiredMismatch;
                NoRequiredComponent].
Proof.
  intros e.
  assert (ECS.Add "Engine" ["Chassis"%string] 0 9 e
          = Fail (Abort NoRequiredComponent)) as H by (vm_compute; reflexivity).
  split; [apply engine_after_wf|]. split; [exact H|].
  exact (Add_stops_at_listed_assertions e "Engine" ["Chassis"%string] 0 9 _
           (engine_after_wf _) H).
Defined.

(** X15: Remove stops only at an assertion, and only at six of them.  On a
    well-formed engine the sparse set's own "non-existent entity" assertion
    and Remove's "Delete first all sustained components" cannot fire:
    the presence check and HasRemoved abort before them. *)
Theorem Remove_stops_at_listed_assertions
    {Val} (e : ECS.t Val) (T : TypeName) (Ss : list TypeName)
    (id : EntityID) (f : failure) :
  ecs_wf e →
  ECS.Remove T Ss id e = Fail f →
  ∃ a, f = Abort a
       ∧ a ∈ [NullEntityOperated; EntityOutOfBounds; UnregisteredComponent;
              NoComponentToRemove; SustainedMismatch; HasToRemoveComponent].
Proof. intros Hwf H. by apply (Remove_outcomes e T Ss id Hwf). Qed.

Lemma Remove_stops_at_listed_assertions_witness :
  let e := engine_after garage_engine in
  ecs_wf e
  ∧ ECS.Remove "Chassis" ["Engine"%string] 0 e = Fail (Abort HasToRemoveComponent)
  ∧ ∃ a, Abort HasToRemoveComponent = Abort a
         ∧ a ∈ [NullEntityOperated; EntityOutOfBounds; UnregisteredComponent;
                NoComponentToRemove; SustainedMismatch; HasToRemoveComponent].
Proof.
  intros e.
  assert (ECS.Remove "Chassis" ["Engine"%string] 0 e
          = Fail (Abort HasToRemoveComponent)) as H by (vm_compute; reflexivity).
  split; [apply engine_after_wf|]. split; [exact H|].
  exact (Remove_stops_at_listed_assertions e "Chassis" ["Engine"%string] 0 _
           (engine_after_wf _) H).
Defined.

(** X16: no run of RegisterComponent, CreateEntity, DeleteEntity, Add and
    Remove from a fresh engine reaches an unchecked access or overflows a
    vector: a run that stops, stops at one of the header's assertions. *)
Theorem runs_stop_at_assertions
    {Val} (ops : list (ecs_op Val)) (f : failure) :
  ecs_run ops (ECS.empty (Val:=Val)) = Fail f → ∃ a, f = Abort a.
Proof.
  assert (∀ e, ecs_wf e → ecs_run ops e = Fail f → ∃ a, f = Abort a) as Hgen.
  { induction ops as [|o ops IH]; intros e Hwf H; simpl in H; [done|].
    destruct (ecs_step o e) as [e1|f1] eqn:Hstep.
    - apply (IH e1); [by eapply ecs_step_wf|done].
    - injection H as <-. by eapply ecs_step_stops_at_assertion. }
  apply Hgen, ecs_wf_empty.
Qed.

Lemma runs_stop_at_assertions_witness :
  ecs_run [Create "a"; Attach "Wheel" [] 0 4; Destroy 5] (ECS.empty (Val:=N))
  = Fail (Abort EntityOutOfBounds)
  ∧ ∃ a, Abort EntityOutOfBounds = Abort a.
Proof.
  assert (ecs_run [Create "a"; Attach "Wheel" [] 0 4; Destroy 5]
            (ECS.empty (Val:=N)) = Fail (Abort EntityOutOfBounds)) as H
    by (vm_compute; reflexivity).
  split; [exact H|]. exact (runs_stop_at_assertions _ _ H).
Defined.

(** ** What an operation leaves alone *)

Section frames.
Context {Val : Type}.
Implicit Types (e : ECS.t Val) (T C D R : TypeName) (id : EntityID).

Lemma frame_helper e e' T i i' (s s' : SparseSet.t Val) id :
  ecs_wf e → ecs_wf e' →
  ECS.m_componentBitPosition e !! T = Some i →
  ECS.m_componentBitPosition e' !! T = Some i' →
  pool_of e T = Some s → pool_of e' T = Some s' →
  ECS.m_maxEntityID e' = ECS.m_maxEntityID e →
  SparseSet.GetDenseIndex id s' = SparseSet.GetDenseIndex id s →
  (SparseSet.GetDenseIndex id s ≠ tombstone →
   SparseSet.m_dense s' !! N.to_nat (SparseSet.GetDenseIndex id s)
   = SparseSet.m_dense s !! N.to_nat (SparseSet.GetDenseIndex id s)) →
  ECS.Has T id e' = ECS.Has T id e ∧ ECS.Get T id e' = ECS.Get T id e.
Proof.
  intros Hwf Hwf' HT HT' Hpo Hpo' Hmax Hidx Hval.
  rewrite !Has_registered by (done || by eexists).
  rewrite (Get_registered_gen e T i s id Hwf HT Hpo).
  rewrite (Get_registered_gen e' T i' s' id Hwf' HT' Hpo').
  rewrite (valid_entity_same e e' id Hmax).
  rewrite (holds_pool e T s id Hpo), (holds_pool e' T s' id Hpo'), Hidx.
  split; [done|].
  destruct (ECS.BSEECS_ASSERT_VALID_ENTITY id e) as [[]|f]; [|done]. step.
  destruct (N.eqb_spec (SparseSet.GetDenseIndex id s) tombstone) as [|Hne];
    [done|].
  cbn [negb]. unfold at_. by rewrite Hval.
Qed.

Lemma Get_unregistered e T id :
  ECS.m_componentBitPosition e !! T = None →
  ECS.Get T id e
  = (_ ← ECS.BSEECS_ASSERT_VALID_ENTITY id e; Fail (Abort UnregisteredComponent)).
Proof.
  intros HT. unfold ECS.Get.
  destruct (ECS.BSEECS_ASSERT_VALID_ENTITY id e) as [[]|f]; [|done]. step.
  by rewrite GetComponentPool_unregistered.
Qed.

(** [Has] and [Get] read the pools, the registry and the high-water mark. *)
Lemma Has_Get_same e e' T id :
  ecs_wf e → ecs_wf e' →
  ECS.m_componentPools e' = ECS.m_componentPools e →
  ECS.m_componentBitPosition e' = ECS.m_componentBitPosition e →
  ECS.m_maxEntityID e' = ECS.m_maxEntityID e →
  ECS.Has T id e' = ECS.Has T id e ∧ ECS.Get T id e' = ECS.Get T id e.
Proof.
  intros Hwf Hwf' Hp Hr Hm.
  destruct (ECS.m_componentBitPosition e !! T) as [info|] eqn:HT.
  - destruct (pool_of_registered e T info Hwf HT) as (pl & _ & _ & Hpo & _).
    eapply (frame_helper e e' T info info (ECS.pool_set pl) (ECS.pool_set pl));
      try done.
    + by rewrite Hr.
    + unfold pool_of in *. by rewrite Hr, Hp.
  - rewrite !Has_unregistered by (by rewrite ?Hr).
    rewrite !Get_unregistered by (by rewrite ?Hr).
    by rewrite (valid_entity_same e e' id Hm).
Qed.

Lemma Register_frame e e1 T (Cs : list TypeName) T' id :
  ecs_wf e → ECS.RegisterComponent T Cs e = Ok e1 → registered e T' →
  ECS.Has T' id e1 = ECS.Has T' id e ∧ ECS.Get T' id e1 = ECS.Get T' id e.
Proof.
  intros Hwf Hreg [i HT'].
  pose proof (RegisterComponent_wf T Cs e e1 Hwf Hreg) as Hwf1.
  destruct (RegisterComponent_extends e e1 T Cs Hwf Hreg T' i HT') as (i' & HT1 & _).
  destruct (RegisterComponent_registers T Cs e e1 Hreg) as (_ & Hmax & _).
  destruct (RegisterComponent_Ok_inv e T Cs e1 Hwf Hreg) as (HT & _).
  destruct (pool_of_registered e T' i Hwf HT') as (pl & _ & _ & Hpo & _).
  eapply (frame_helper e e1 T' i i' (ECS.pool_set pl) (ECS.pool_set pl));
    try done.
  rewrite (pool_of_after_Register e e1 T Cs T' Hwf Hreg).
  rewrite decide_False; [done|]. congruence.
Qed.
End frames.

(** X17: Add<T>(id) changes nothing else.  For every registered type T'
    and entity id', other than T on id itself, Has<T'>(id') and Get<T'>(id')
    return after a completed Add what they returned before. *)
Theorem Add_leaves_the_rest
    {Val} (e e' : ECS.t Val) (T : TypeName) (Rs : list TypeName)
    (id : EntityID) (v : Val) (p : N) :
  ecs_wf e →
  ECS.Add T Rs id v e = Ok (p, e') →
  ∀ (T' : TypeName) (id' : EntityID),
    registered e T' → T' ≠ T ∨ id' ≠ id →
    ECS.Has T' id' e' = ECS.Has T' id' e ∧ ECS.Get T' id' e' = ECS.Get T' id' e.
Proof.
  intros Hwf HA T' id' HT' Hother.
  pose proof (Add_wf T Rs id v e p e' Hwf HA) as Hwf'.
  destruct (Add_Ok_inv _ _ _ _ _ _ _ Hwf HA)
    as (e1 & info & s & s' & Hcase & Hwf1 & HT & Hpo & Hs & Hv & Hh & HM & HR
        & HS & ->).
  (* from [e] to the engine where [T] is registered *)
  assert (registered e1 T'
          ∧ ECS.Has T' id' e1 = ECS.Has T' id' e
          ∧ ECS.Get T' id' e1 = ECS.Get T' id' e) as ([i1 HT1] & <- & <-).
  { destruct Hcase as [[-> _]|[_ Hreg]]; [done|]. split.
    - destruct HT' as [i HT'].
      destruct (RegisterComponent_extends e e1 T [] Hwf Hreg T' i HT')
        as (i' & ? & _). by eexists.
    - by apply (Register_frame e e1 T [] T' id' Hwf Hreg). }
  (* from there to the engine with the value stored *)
  destruct (pool_of_registered e1 T' i1 Hwf1 HT1) as (pl & _ & _ & Hpo1 & _).
  destruct (Set_Ok_spec s id v p s' Hs HS) as (_ & _ & Hidx & Hvals & _).
  destruct (decide (T' = T)) as [->|HneT].
  - destruct Hother as [|Hid]; [done|].
    eapply (frame_helper e1 _ T i1 i1 s s'); try done.
    + by rewrite (pool_of_update e1 T info s' T Hwf1 HT), decide_True.
    + by rewrite Hidx, decide_False.
    + intros Hne. by apply Hvals.
  - eapply (frame_helper e1 _ T' i1 i1 (ECS.pool_set pl) (ECS.pool_set pl));
      try done.
    by rewrite (pool_of_update e1 T info s' T' Hwf1 HT), decide_False.
Qed.

Lemma Add_leaves_the_rest_witness :
  let e := engine_after garage_chassis in
  let e' := engine_after garage_engine in
  ecs_wf e
  ∧ ECS.Add "Engine" ["Chassis"%string] 0 9 e = Ok (0, e')
  ∧ ECS.Get "Chassis" 0 e' = ECS.Get "Chassis" 0 e
  ∧ ECS.Has "Engine" 1 e' = ECS.Has "Engine" 1 e.
Proof.
  intros e e'.
  assert (ECS.Add "Engine" ["Chassis"%string] 0 9 e = Ok (0, e')) as HA
    by (vm_compute; reflexivity).
  split; [apply engine_after_wf|]. split; [exact HA|].
  pose proof (Add_leaves_the_rest e e' "Engine" ["Chassis"%string] 0 9 0
                (engine_after_wf _) HA) as H.
  split.
  - apply (H "Chassis"%string 0).
    + exists chassis_info. vm_compute; reflexivity.
    + left. discriminate.
  - apply (H "Engine"%string 1).
    + exists engine_info. vm_compute; reflexivity.
    + right. discriminate.
Defined.

(** X18: Remove<T>(id) changes nothing else.  For every registered type T'
    and entity id', other than T on id itself, Has<T'>(id') and Get<T'>(id')
    return after a completed Remove what they returned before; the
    registry, the names and the allocator are untouched. *)
Theorem Remove_leaves_the_rest
    {Val} (e e' : ECS.t Val) (T : TypeName) (Ss : list TypeName) (id : EntityID) :
  ecs_wf e →
  ECS.Remove T Ss id e = Ok e' →
  (∀ (T' : TypeName) (id' : EntityID),
     registered e T' → T' ≠ T ∨ id' ≠ id →
     ECS.Has T' id' e' = ECS.Has T' id' e ∧ ECS.Get T' id' e' = ECS.Get T' id' e)
  ∧ ECS.m_componentBitPosition e' = ECS.m_componentBitPosition e
  ∧ ECS.m_entityNames e' = ECS.m_entityNames e
  ∧ ECS.m_availableEntities e' = ECS.m_availableEntities e
  ∧ ECS.m_maxEntityID e' = ECS.m_maxEntityID e.
Proof.
  intros Hwf HR.
  pose proof (Remove_wf T Ss id e e' Hwf HR) as Hwf'.
  destruct (Remove_Ok_inv e T Ss id e' Hwf HR)
    as (info & s & s' & HT & Hpo & Hs & Hv & Hh & HM & HRA & HD & ->).
  split; [|done]. intros T' id' [i HT'] Hother.
  destruct (pool_of_registered e T' i Hwf HT') as (pl & Hpl & _ & Hpo1 & _).
  destruct (decide (T' = T)) as [->|HneT].
  - destruct Hother as [|Hid]; [done|].
    rewrite Hpo in Hpo1. injection Hpo1 as Heq.
    assert (sparse_ok s) as Hok by (rewrite Heq; exact (pool_ok e _ pl Hwf Hpl)).
    destruct (Delete_others s s' id Hs HD) as [_ Hothers].
    pose proof (Delete_present_iff s s' id Hok HD id') as Hiff.
    destruct (decide (SparseSet.GetDenseIndex id' s = tombstone)) as [Hts|Hne].
    + assert (SparseSet.GetDenseIndex id' s' = tombstone) as Hts'.
      { destruct (decide (SparseSet.GetDenseIndex id' s' = tombstone));
          [done|tauto]. }
      eapply (frame_helper e _ T i i s s'); try done.
      * by rewrite (pool_of_update e T info s' T Hwf HT), decide_True.
      * congruence.
    + destruct (Hothers id' Hid Hne) as [Hne' Hval].
      (* the record may have moved: compare through the sparse entries *)
      rewrite !Has_registered by (done || by eexists).
      rewrite (Get_registered_gen e T i s id' Hwf HT' Hpo).
      rewrite (Get_registered_gen _ T i s' id' Hwf' HT').
      2:{ by rewrite (pool_of_update e T info s' T Hwf HT), decide_True. }
      rewrite (holds_after_Delete e T info s s' id T id' Hwf HT Hpo Hok HD).
      rewrite bool_decide_eq_false_2 by (by intros [_ ?]). cbn [negb andb].
      split; [done|].
      rewrite (valid_entity_same e
                 (ECS.set_componentPools e
                    (<[N.to_nat (ECS.m_bitPosition info) := ECS.mkPool T s']>
                       (ECS.m_componentPools e))) id' eq_refl).
      destruct (ECS.BSEECS_ASSERT_VALID_ENTITY id' e) as [[]|f]; [|done]. step.
      destruct (holds e T id'); [|done]. unfold at_. by rewrite Hval.
  - eapply (frame_helper e _ T' i i (ECS.pool_set pl) (ECS.pool_set pl));
      try done.
    by rewrite (pool_of_update e T info s' T' Hwf HT), decide_False.
Qed.

Lemma Remove_leaves_the_rest_witness :
  let e := engine_after garage_engine in
  let e' := engine_after (garage_engine ++ [Detach "Engine" [] 0]) in
  ecs_wf e
  ∧ ECS.Remove "Engine" [] 0 e = Ok e'
  ∧ ECS.Get "Chassis" 0 e' = ECS.Get "Chassis" 0 e.
Proof.
  intros e e'.
  assert (ECS.Remove "Engine" [] 0 e = Ok e') as HR by (vm_compute; reflexivity).
  split; [apply engine_after_wf|]. split; [exact HR|].
  destruct (Remove_leaves_the_rest e e' "Engine" [] 0 (engine_after_wf _) HR)
    as [H _].
  apply (H "Chassis"%string 0).
  - exists chassis_info. vm_compute; reflexivity.
  - left. discriminate.
Defined.

(** X19: Get validates the entity id, Has does not.  Get<T>(id) returns a
    value exactly for a valid id that has T; it is fatal on the sentinel or
    an id at or above the high-water mark, on an unregistered type and on a
    missing component, while Has<T> on a registered type answers for every
    id. *)
Theorem Get_cases
    {Val} (e : ECS.t Val) (T : TypeName) (id : EntityID) :
  ecs_wf e →
  (¬ valid_entity e id →
   ECS.Get T id e = Fail (Abort NullEntityOperated)
   ∨ ECS.Get T id e = Fail (Abort EntityOutOfBounds))
  ∧ (valid_entity e id → ¬ registered e T →
     ECS.Get T id e = Fail (Abort UnregisteredComponent))
  ∧ (valid_entity e id → ECS.Has T id e = Ok false →
     ECS.Get T id e = Fail (Abort MissingComponent))
  ∧ (valid_entity e id → ECS.Has T id e = Ok true →
     ∃ v, ECS.Get T id e = Ok v)
  ∧ (∀ v, ECS.Get T id e = Ok v →
          valid_entity e id ∧ ECS.Has T id e = Ok true).
Proof.
  intros Hwf.
  assert (∀ b, ECS.Has T id e = Ok b → registered e T) as Hreg.
  { intros b Hb. destruct (ECS.m_componentBitPosition e !! T) eqn:HT;
      [by eexists|]. by rewrite Has_unregistered in Hb. }
  assert (∀ b, valid_entity e id → ECS.Has T id e = Ok b →
            ∃ info s, ECS.m_componentBitPosition e !! T = Some info
                      ∧ pool_of e T = Some s ∧ sparse_wf s ∧ holds e T id = b
                      ∧ ECS.Get T id e
                        = if b then at_ (SparseSet.m_dense s)
                                      (SparseSet.GetDenseIndex id s)
                          else Fail (Abort MissingComponent)) as Hget.
  { intros b Hv Hb. destruct (Hreg b Hb) as [info HT].
    destruct (pool_of_registered e T info Hwf HT) as (pl & _ & _ & Hpo & Hs).
    pose proof (Has_Ok_holds e T id b Hwf (ex_intro _ info HT) Hb) as Hh.
    exists info, (ECS.pool_set pl). repeat (split; [done|]).
    by rewrite (Get_registered e T info _ id Hwf HT Hpo Hv), Hh. }
  split; [|split; [|split; [|split]]].
  - intros Hnv. unfold ECS.Get.
    by destruct (invalid_entity_Fail e id Hnv) as [-> | ->]; [left|right].
  - intros Hv Hn. unfold ECS.Get. rewrite (valid_entity_Ok e id Hv). step.
    rewrite GetComponentPool_unregistered; [done|].
    destruct (ECS.m_componentBitPosition e !! T) eqn:HT; [|done].
    destruct Hn. by eexists.
  - intros Hv Hb. by destruct (Hget false Hv Hb) as (_ & _ & _ & _ & _ & _ & ->).
  - intros Hv Hb. destruct (Hget true Hv Hb) as (info & s & _ & Hpo & Hs & Hh & ->).
    rewrite (holds_pool e T s id Hpo) in Hh.
    apply negb_true_iff, N.eqb_neq in Hh.
    pose proof (sparse_wf_index_lt _ _ Hs Hh) as Hlt.
    destruct (lookup_lt_is_Some_2 _ _ Hlt) as [v Hv'].
    exists v. by apply at_Ok.
  - intros v HG.
    destruct (valid_entity_dec e id) as [Hv|Hnv].
    + split; [done|].
      destruct (ECS.m_componentBitPosition e !! T) as [info|] eqn:HT.
      * destruct (pool_of_registered e T info Hwf HT) as (pl & _ & _ & Hpo & Hs).
        rewrite (Get_registered e T info _ id Hwf HT Hpo Hv) in HG.
        rewrite Has_registered; [|done|by eexists].
        by destruct (holds e T id).
      * unfold ECS.Get in HG. rewrite (valid_entity_Ok e id Hv) in HG.
        cbn [mbind outcome_bind] in HG.
        by rewrite GetComponentPool_unregistered in HG.
    + unfold ECS.Get in HG.
      by destruct (invalid_entity_Fail e id Hnv) as [H|H]; rewrite H in HG.
Qed.

Lemma Get_cases_witness :
  let e := engine_after garage_chassis in
  ecs_wf e
  ∧ ECS.Has "Chassis" 7 e = Ok false
  ∧ ECS.Get "Chassis" 7 e = Fail (Abort EntityOutOfBounds)
  ∧ ECS.Get "Engine" 0 e = Fail (Abort MissingComponent)
  ∧ ∃ v, ECS.Get "Chassis" 1 e = Ok v.
Proof.
  intros e.
  destruct (Get_cases e "Chassis" 7 (engine_after_wf _)) as (Hinv & _).
  destruct (Get_cases e "Engine" 0 (engine_after_wf _)) as (_ & _ & Hmiss & _).
  destruct (Get_cases e "Chassis" 1 (engine_after_wf _)) as (_ & _ & _ & Hok & _).
  split; [apply engine_after_wf|]. split; [vm_compute; reflexivity|].
  split; [|split].
  - destruct Hinv as [H|H]; [by intros [_ H]; vm_compute in H| |exact H].
    vm_compute in H. discriminate H.
  - apply Hmiss; [split; vm_compute; [discriminate|reflexivity]|].
    vm_compute; reflexivity.
  - apply Hok; [split; vm_compute; [discriminate|reflexivity]|].
    vm_compute; reflexivity.
Defined.

(** ** Entity names and recycled identifiers *)

Section names.
Context {Val : Type}.
Implicit Types (e : ECS.t Val) (T C : TypeName) (id : EntityID).

Lemma CreateEntity_names e name id e' :
  ecs_wf e → ECS.CreateEntity name e = Ok (id, e') →
  ECS.m_entityNames e' = record_name name id (ECS.m_entityNames e).
Proof.
  intros Hwf HC. pose proof (wf_max e Hwf) as Hmax.
  destruct (ECS.m_availableEntities e) as [|id0 free0] eqn:Hfree using rev_ind.
  - destruct (N.ltb_spec (ECS.m_maxEntityID e) MAX_ENTITIES) as [Hlt|Hge].
    + rewrite (CreateEntity_fresh e name Hfree Hlt) in HC. by injection HC as <- <-.
    + unfold ECS.CreateEntity in HC. rewrite Hfree in HC. simpl in HC.
      by rewrite (proj2 (N.ltb_ge _ _) Hge) in HC.
  - clear IHfree0.
    assert (id0 ≠ tombstone) as Hne.
    { assert (id0 < ECS.m_maxEntityID e) as Hlt.
      { apply (wf_free e Hwf). rewrite Hfree, elem_of_app, list_elem_of_singleton.
        by right. }
      intros ->. unfold tombstone, MAX_ENTITIES in *. lia. }
    rewrite (CreateEntity_reuse e name free0 id0 Hfree Hne) in HC.
    by injection HC as <- <-.
Qed.

Lemma Get_Ok_inv e T id (v : Val) :
  ecs_wf e → ECS.Get T id e = Ok v →
  valid_entity e id ∧ ECS.Has T id e = Ok true.
Proof.
  intros Hwf HG. destruct (valid_entity_dec e id) as [Hv|Hnv].
  - split; [done|].
    destruct (ECS.m_componentBitPosition e !! T) as [info|] eqn:HT.
    + destruct (pool_of_registered e T info Hwf HT) as (pl & _ & _ & Hpo & Hs).
      rewrite (Get_registered e T info _ id Hwf HT Hpo Hv) in HG.
      rewrite Has_registered; [|done|by eexists].
      by destruct (holds e T id).
    + rewrite (Get_unregistered e T id HT), (valid_entity_Ok e id Hv) in HG.
      done.
  - unfold ECS.Get in HG.
    by destruct (invalid_entity_Fail e id Hnv) as [H|H]; rewrite H in HG.
Qed.
End names.

(** X20: the name given to CreateEntity is what GetEntityName returns for
    the new id; with an empty name nothing is recorded, so the id reads
    whatever the name table held for it, or the default Entity.  No other
    id's name changes. *)
Theorem CreateEntity_then_GetEntityName
    {Val} (e e' : ECS.t Val) (name : string) (id : EntityID) :
  ecs_wf e →
  ECS.CreateEntity name e = Ok (id, e') →
  ECS.GetEntityName id e'
  = Ok (if bool_decide (name = EmptyString)
        then default "Entity"%string (ECS.m_entityNames e !! id)
        else name)
  ∧ ∀ id', id' ≠ id → ECS.m_entityNames e' !! id' = ECS.m_entityNames e !! id'.
Proof.
  intros Hwf HC.
  destruct (CreateEntity_wf e name id e' Hwf HC) as (_ & Hv & _).
  pose proof (CreateEntity_names e name id e' Hwf HC) as Hn.
  unfold ECS.GetEntityName. rewrite (valid_entity_Ok e' id Hv), Hn.
  cbn [mbind outcome_bind]. unfold record_name.
  destruct (bool_decide (name = EmptyString)); cbn [negb].
  - split; [|done]. by destruct (ECS.m_entityNames e !! id).
  - rewrite lookup_insert_eq. split; [done|].
    intros id' Hne. by rewrite lookup_insert_ne.
Qed.

Lemma CreateEntity_then_GetEntityName_witness :
  let e := engine_after (Val:=N) [Create "car"] in
  let e' := engine_after (Val:=N) [Create "car"; Create "bike"] in
  ecs_wf e
  ∧ ECS.CreateEntity "bike" e = Ok (1, e')
  ∧ ECS.GetEntityName 1 e' = Ok "bike"%string.
Proof.
  intros e e'.
  assert (ECS.CreateEntity "bike" e = Ok (1, e')) as HC
    by (vm_compute; reflexivity).
  split; [apply engine_after_wf|]. split; [exact HC|].
  exact (proj1 (CreateEntity_then_GetEntityName e _ "bike" 1
                  (engine_after_wf _) HC)).
Defined.

(** X21: a destroyed id comes back with its components.  After
    DeleteEntity(id) the name of id reads the default; the next CreateEntity
    returns the same id (the free pool is last in, first out), and the new
    entity has every component the old one had, with the old values. *)
Theorem recycled_id_keeps_components
    {Val} (e : ECS.t Val) (T : TypeName) (id : EntityID) (v : Val)
    (name : string) :
  ecs_wf e →
  ECS.Get T id e = Ok v →
  ∃ e1 e2,
    ECS.DeleteEntity id e = Ok (NULL_ENTITY, e1)
    ∧ ECS.m_entityNames e1 !! id = None
    ∧ ECS.CreateEntity name e1 = Ok (id, e2)
    ∧ ECS.Has T id e2 = Ok true
    ∧ ECS.Get T id e2 = Ok v.
Proof.
  intros Hwf HG. destruct (Get_Ok_inv e T id v Hwf HG) as [Hv HH].
  pose proof (DeleteEntity_valid e id Hv) as HD.
  pose proof (DeleteEntity_wf e id _ _ Hwf HD) as Hwf1.
  set (e1 := ECS.mk (ECS.m_availableEntities e ++ [id])
               (delete id (ECS.m_entityNames e)) (ECS.m_componentPools e)
               (ECS.m_componentBitPosition e) (ECS.m_maxEntityID e)) in *.
  assert (id ≠ tombstone) as Hne by (by destruct Hv).
  pose proof (CreateEntity_reuse e1 name (ECS.m_availableEntities e) id
                eq_refl Hne) as HC.
  destruct (CreateEntity_wf e1 name id _ Hwf1 HC) as (Hwf2 & _).
  eexists e1, _. split; [exact HD|]. split; [apply lookup_delete_eq|].
  split; [exact HC|].
  match goal with |- ECS.Has T id ?e2 = _ ∧ _ =>
    destruct (Has_Get_same e e2 T id Hwf Hwf2 eq_refl eq_refl eq_refl)
      as [-> ->] end.
  done.
Qed.

Lemma recycled_id_keeps_components_witness :
  let e := engine_after garage_engine in
  ecs_wf e ∧ ECS.Get "Engine" 0 e = Ok 9
  ∧ ∃ e1 e2, ECS.DeleteEntity 0 e = Ok (NULL_ENTITY, e1)
             ∧ ECS.m_entityNames e1 !! 0 = None
             ∧ ECS.CreateEntity "new" e1 = Ok (0, e2)
             ∧ ECS.Has "Engine" 0 e2 = Ok true
             ∧ ECS.Get "Engine" 0 e2 = Ok 9.
Proof.
  intros e.
  assert (ECS.Get "Engine" 0 e = Ok 9) as HG by (vm_compute; reflexivity).
  split; [apply engine_after_wf|]. split; [exact HG|].
  exact (recycled_id_keeps_components e "Engine" 0 9 "new"
           (engine_after_wf _) HG).
Defined.

(** ** The presence folds *)

Section folds.
Context {Val : Type}.
Implicit Types (e : ECS.t Val) (T C : TypeName) (id : EntityID).

Lemma HasRequired_Has e T id :
  ECS.HasRequired T id e
  = match ECS.Has T id e with
    | Ok true => Ok true
    | Ok false => Fail (Abort NoRequiredComponent)
    | Fail f => Fail f
    end.
Proof.
  unfold ECS.HasRequired, ECS.Has.
  destruct (ECS.GetComponentPool T false e) as [[pool e1]|f]; [|done]. step.
  destruct (ECS.pool_at pool e1) as [s|f]; [|done]. step.
  by destruct (SparseSet.Get id s) as [[p|]|f].
Qed.

Lemma HasRemoved_Has e T id :
  ECS.HasRemoved T id e
  = match ECS.Has T id e with
    | Ok true => Fail (Abort HasToRemoveComponent)
    | Ok false => Ok true
    | Fail f => Fail f
    end.
Proof.
  unfold ECS.HasRemoved, ECS.Has.
  destruct (ECS.GetComponentPool T false e) as [[pool e1]|f]; [|done]. step.
  destruct (ECS.pool_at pool e1) as [s|f]; [|done]. step.
  by destruct (SparseSet.Get id s) as [[p|]|f].
Qed.

Lemma HasAll_true e (Ts : list TypeName) id :
  ECS.HasAll Ts id e = Ok true ↔ Forall (λ C, ECS.Has C id e = Ok true) Ts.
Proof.
  induction Ts as [|C Ts IH]; cbn [ECS.HasAll].
  - split; [by constructor|done].
  - rewrite Forall_cons, <- IH.
    destruct (ECS.Has C id e) as [[|]|f]; step; split; try done;
      by intros [? ?].
Qed.

Lemma HasAllRequired_true e (Ts : list TypeName) id :
  ECS.HasAllRequired Ts id e = Ok true
  ↔ Forall (λ C, ECS.Has C id e = Ok true) Ts.
Proof.
  induction Ts as [|C Ts IH]; cbn [ECS.HasAllRequired].
  - split; [by constructor|done].
  - rewrite Forall_cons, <- IH, HasRequired_Has.
    destruct (ECS.Has C id e) as [[|]|f]; step; split; try done;
      by intros [? ?].
Qed.

Lemma HasAllRequired_never_false_aux e (Ts : list TypeName) id :
  ECS.HasAllRequired Ts id e ≠ Ok false.
Proof.
  induction Ts as [|C Ts IH]; cbn [ECS.HasAllRequired]; [done|].
  rewrite HasRequired_Has. by destruct (ECS.Has C id e) as [[|]|f]; step.
Qed.

Lemma HasRemovedAll_true e (Ts : list TypeName) id :
  ECS.HasRemovedAll Ts id e = Ok true
  ↔ Forall (λ C, ECS.Has C id e = Ok false) Ts.
Proof.
  induction Ts as [|C Ts IH]; cbn [ECS.HasRemovedAll].
  - split; [by constructor|done].
  - rewrite Forall_cons, <- IH, HasRemoved_Has.
    destruct (ECS.Has C id e) as [[|]|f]; step; split; try done;
      by intros [? ?].
Qed.
End folds.

(** X22: HasAll is the left-to-right conjunction of Has and stops at the
    first false.  It returns true exactly when every Has returns true, and
    false exactly when some type is reported missing after a prefix of
    present ones; the types after that one are never looked at, so they may
    even be unregistered. *)
Theorem HasAll_stops_at_first_false
    {Val} (e : ECS.t Val) (Ts : list TypeName) (id : EntityID) :
  (ECS.HasAll Ts id e = Ok true
   ↔ Forall (λ C, ECS.Has C id e = Ok true) Ts)
  ∧ (ECS.HasAll Ts id e = Ok false
     ↔ ∃ Ts1 C Ts2, Ts = Ts1 ++ C :: Ts2
                    ∧ Forall (λ C, ECS.Has C id e = Ok true) Ts1
                    ∧ ECS.Has C id e = Ok false).
Proof.
  split; [apply HasAll_true|].
  induction Ts as [|C Ts IH]; cbn [ECS.HasAll].
  - split; [done|]. intros (Ts1 & C & Ts2 & Heq & _). by destruct Ts1.
  - destruct (ECS.Has C id e) as [[|]|f] eqn:HC; step.
    + rewrite IH. split.
      * intros (Ts1 & C' & Ts2 & -> & HF & HC').
        exists (C :: Ts1), C', Ts2. split; [done|]. split; [|done].
        by constructor.
      * intros (Ts1 & C' & Ts2 & Heq & HF & HC').
        destruct Ts1 as [|C1 Ts1]; injection Heq as -> ->; [congruence|].
        exists Ts1, C', Ts2. split; [done|]. split; [|done].
        by apply Forall_cons in HF as [_ ?].
    + split; [|done]. intros _. exists [], C, Ts. split; [done|].
      split; [by constructor|done].
    + split; [done|]. intros (Ts1 & C' & Ts2 & Heq & HF & HC').
      destruct Ts1 as [|C1 Ts1]; injection Heq as -> ->; [congruence|].
      apply Forall_cons in HF as [HF _]. congruence.
Qed.



(** X24: HasRemovedAll is an assertion as well.  It returns true exactly
    when Has is false for every listed type, it never returns false, and it
    is fatal as soon as a listed type is still attached. *)
Theorem HasRemovedAll_never_false
    {Val} (e : ECS.t Val) (Ts : list TypeName) (id : EntityID) :
  (ECS.HasRemovedAll Ts id e = Ok true
   ↔ Forall (λ C, ECS.Has C id e = Ok false) Ts)
  ∧ ECS.HasRemovedAll Ts id e ≠ Ok false
  ∧ (Exists (λ C, ECS.Has C id e = Ok true) Ts →
     (∀ C, C ∈ Ts → ∃ b, ECS.Has C id e = Ok b) →
     fatal (ECS.HasRemovedAll Ts id e)).
Proof.
  split; [apply HasRemovedAll_true|].
  induction Ts as [|C Ts [IH1 IH2]]; cbn [ECS.HasRemovedAll].
  - split; [done|]. by intros ?%Exists_nil.
  - rewrite HasRemoved_Has. split.
    + by destruct (ECS.Has C id e) as [[|]|f]; step.
    + intros Hex Hall. destruct (Hall C) as [b Hb]; [by left|].
      rewrite Hb. destruct b; step; [by eexists|].
      apply IH2.
      * apply Exists_cons in Hex as [Hex|Hex]; [congruence|done].
      * intros C' HC'. apply Hall. by right.
Qed.

Lemma HasRemovedAll_never_false_witness :
  let e := engine_after garage_engine in
  fatal (ECS.HasRemovedAll ["Engine"%string] 0 e).
Proof.
  intros e.
  destruct (HasRemovedAll_never_false e ["Engine"%string] 0) as (_ & _ & H).
  apply H.
  - apply Exists_cons_hd. vm_compute; reflexivity.
  - intros C HC. apply list_elem_of_singleton in HC as ->.
    eexists; vm_compute; reflexivity.
Defined.

(** * Iteration *)

Section loops.
Context {St : Type}.

Lemma for_fold {B} (args : list B) (step : St → B → St) first
    (body : N → St → outcome St) st :
  (∀ (k : nat) b st, args !! k = Some b →
     body (first + N.of_nat k) st = Ok (step st b)) →
  for_ (length args) first body st = Ok (foldl step st args).
Proof.
  revert first st. induction args as [|b args IH]; intros first st Hbody;
    cbn [length for_ foldl]; [done|].
  pose proof (Hbody 0%nat b st eq_refl) as H0.
  change (N.of_nat 0) with 0 in H0. rewrite N.add_0_r in H0. rewrite H0. step.
  apply IH. intros k b' st' Hk.
  replace (first + 1 + N.of_nat k) with (first + N.of_nat (S k)) by lia.
  by apply Hbody.
Qed.

Lemma for_Undefined (count k : nat) first (body : N → St → outcome St) st :
  (k < count)%nat →
  (∀ (j : nat) st, (j < k)%nat →
     (∃ st', body (first + N.of_nat j) st = Ok st')
     ∨ body (first + N.of_nat j) st = Fail Undefined) →
  (∀ st, body (first + N.of_nat k) st = Fail Undefined) →
  for_ count first body st = Fail Undefined.
Proof.
  revert k first st. induction count as [|count IH]; intros k first st Hk Hlow Hat;
    [lia|].
  cbn [for_]. destruct k as [|k].
  - specialize (Hat st). change (N.of_nat 0) with 0 in Hat.
    rewrite N.add_0_r in Hat. by rewrite Hat.
  - destruct (Hlow 0%nat st ltac:(lia)) as [[st' H0]|H0];
      change (N.of_nat 0) with 0 in H0;
      rewrite N.add_0_r in H0; rewrite H0; [|done]. step.
    apply (IH k); [lia| |].
    + intros j st1 Hj.
      replace (first + 1 + N.of_nat j) with (first + N.of_nat (S j)) by lia.
      apply Hlow. lia.
    + intros st1.
      replace (first + 1 + N.of_nat k) with (first + N.of_nat (S k)) by lia.
      apply Hat.
Qed.
End loops.

Lemma for_checks (count : nat) first (check : N → outcome bool) :
  ((∀ k : nat, (k < count)%nat → ∃ b, check (first + N.of_nat k) = Ok b) →
   for_ count first (λ i _, _ ← check i; mret tt) tt = Ok tt)
  ∧ ((∀ k : nat, (k < count)%nat →
        (∃ b, check (first + N.of_nat k) = Ok b)
        ∨ fatal (check (first + N.of_nat k))) →
     (∃ k : nat, (k < count)%nat ∧ fatal (check (first + N.of_nat k))) →
     fatal (for_ count first (λ i _, _ ← check i; mret tt) tt)).
Proof.
  revert first. induction count as [|count IH]; intros first.
  { split; [done|]. intros _ (k & Hk & _). lia. }
  assert (∀ k, first + 1 + N.of_nat k = first + N.of_nat (S k)) as Hshift
    by (intros; lia).
  cbn [for_]. split.
  - intros Hall. destruct (Hall 0%nat ltac:(lia)) as [b Hb].
    change (N.of_nat 0) with 0 in Hb.
    rewrite N.add_0_r in Hb. rewrite Hb. step.
    apply (proj1 (IH (first + 1))). intros k Hk. rewrite Hshift.
    apply Hall. lia.
  - intros Hall (k & Hk & Hf).
    destruct (Hall 0%nat ltac:(lia)) as [[b Hb]|[a Ha]];
      change (N.of_nat 0) with 0 in *; rewrite N.add_0_r in *.
    + rewrite Hb. step. apply (proj2 (IH (first + 1))).
      * intros j Hj. rewrite Hshift. apply Hall. lia.
      * destruct k as [|k].
        { change (N.of_nat 0) with 0 in Hf.
          rewrite N.add_0_r, Hb in Hf. by destruct Hf. }
        exists k. split; [lia|]. by rewrite Hshift.
    + rewrite Ha. by eexists.
Qed.

Lemma for_checks_inv (count : nat) first (check : N → outcome bool) :
  for_ count first (λ i _, _ ← check i; mret tt) tt = Ok tt →
  ∀ k : nat, (k < count)%nat → ∃ b, check (first + N.of_nat k) = Ok b.
Proof.
  revert first. induction count as [|count IH]; intros first H k Hk; [lia|].
  cbn [for_] in H. destruct (check first) as [b|f] eqn:Hb; [|done].
  cbn [mbind outcome_bind mret outcome_ret] in H.
  destruct k as [|k].
  - change (N.of_nat 0) with 0. rewrite N.add_0_r. by exists b.
  - replace (first + N.of_nat (S k)) with (first + 1 + N.of_nat k) by lia.
    apply (IH (first + 1) H k). lia.
Qed.

Lemma for_checks_cases (count : nat) first (check : N → outcome bool) :
  (∀ k : nat, (k < count)%nat →
     (∃ b, check (first + N.of_nat k) = Ok b)
     ∨ fatal (check (first + N.of_nat k))) →
  for_ count first (λ i _, _ ← check i; mret tt) tt = Ok tt
  ∨ fatal (for_ count first (λ i _, _ ← check i; mret tt) tt).
Proof.
  revert first. induction count as [|count IH]; intros first Hall; [by left|].
  cbn [for_].
  destruct (Hall 0%nat ltac:(lia)) as [[b Hb]|[a Ha]];
    change (N.of_nat 0) with 0 in *; rewrite N.add_0_r in *.
  - rewrite Hb. step. apply IH. intros k Hk.
    replace (first + 1 + N.of_nat k) with (first + N.of_nat (S k)) by lia.
    apply Hall. lia.
  - rewrite Ha. right. by eexists.
Qed.

Section iteration.
Context {Val : Type}.
Implicit Types (e : ECS.t Val) (T C Main : TypeName) (id : EntityID).

Lemma Has_Ok_registered e T id (b : bool) :
  ECS.Has T id e = Ok b → registered e T.
Proof.
  intros Hb. destruct (ECS.m_componentBitPosition e !! T) eqn:HT; [by eexists|].
  by rewrite (Has_unregistered e T id HT) in Hb.
Qed.

(** The pool of a registered type, as the accessors reach it. *)
Lemma pool_reached e T :
  ecs_wf e → registered e T →
  ∃ info s,
    ECS.m_componentBitPosition e !! T = Some info
    ∧ pool_of e T = Some s ∧ sparse_ok s
    ∧ (∀ id, id ∈ SparseSet.m_denseToEntity s → valid_entity e id)
    ∧ ECS.GetComponentPool T false e = Ok (ECS.m_bitPosition info, e)
    ∧ ECS.pool_at (ECS.m_bitPosition info) e = Ok s.
Proof.
  intros Hwf [info HT].
  destruct (pool_of_registered e T info Hwf HT) as (pl & Hpl & _ & Hpo & Hs).
  exists info, (ECS.pool_set pl). split; [done|]. split; [done|].
  split; [by eapply pool_ok|]. split.
  - intros id Hid. pose proof (wf_owners e Hwf _ pl id Hpl Hid) as Hlt.
    pose proof (wf_max e Hwf). split; [|done].
    intros ->. unfold NULL_ENTITY, MAX_ENTITIES in *. lia.
  - split; [by apply GetComponentPool_registered|].
    unfold ECS.pool_at. by rewrite (proj2 (at_Ok _ _ _) Hpl).
Qed.

Lemma GetRef_absent (s : SparseSet.t Val) id :
  sparse_ok s → SparseSet.GetDenseIndex id s = tombstone →
  SparseSet.GetRef id s = Fail Undefined.
Proof.
  intros [_ Hsz] Hts. unfold SparseSet.GetRef, at_. rewrite Hts.
  rewrite lookup_ge_None_2; [done|].
  unfold size, vector_max_size, tombstone in *. lia.
Qed.

(** One argument of the call: the value [Get] returns, or no value at all. *)
Lemma GetRef_Has e C id :
  ecs_wf e → registered e C →
  ∃ info s,
    ECS.GetComponentPool C false e = Ok (ECS.m_bitPosition info, e)
    ∧ ECS.pool_at (ECS.m_bitPosition info) e = Ok s
    ∧ (if holds e C id
       then ∃ c, SparseSet.GetRef id s = Ok c
                 ∧ (valid_entity e id → ECS.Get C id e = Ok c)
       else SparseSet.GetRef id s = Fail Undefined).
Proof.
  intros Hwf HC.
  destruct (pool_reached e C Hwf HC) as (info & s & HT & Hpo & Hok & _ & HG & HP).
  exists info, s. split; [done|]. split; [done|].
  rewrite (holds_pool e C s id Hpo).
  destruct (N.eqb_spec (SparseSet.GetDenseIndex id s) tombstone) as [Hts|Hne];
    cbn [negb].
  - by apply GetRef_absent.
  - pose proof (sparse_wf_index_lt _ _ (proj1 Hok) Hne) as Hlt.
    destruct (lookup_lt_is_Some_2 _ _ Hlt) as [c Hc]. exists c.
    split; [by apply at_Ok|]. intros Hv.
    rewrite (Get_registered e C info s id Hwf HT Hpo Hv).
    rewrite (holds_pool e C s id Hpo), (proj2 (N.eqb_neq _ _) Hne). cbn [negb].
    by apply at_Ok.
Qed.

Lemma GetRefs_held e (Cs : list TypeName) id :
  ecs_wf e → valid_entity e id →
  Forall (λ C, ECS.Has C id e = Ok true) Cs →
  ∃ cs, ECS.GetRefs Cs id e = Ok cs
        ∧ Forall2 (λ C c, ECS.Get C id e = Ok c) Cs cs.
Proof.
  intros Hwf Hv. induction 1 as [|C Cs HC HF (cs & IH1 & IH2)];
    cbn [ECS.GetRefs]; [by exists []|].
  pose proof (Has_Ok_registered e C id true HC) as Hreg.
  destruct (GetRef_Has e C id Hwf Hreg) as (info & s & -> & HP & Hh). step.
  rewrite HP. step.
  rewrite (Has_Ok_holds e C id true Hwf Hreg HC) in Hh.
  destruct Hh as (c & -> & HG). step. rewrite IH1. step.
  exists (c :: cs). split; [done|]. constructor; [by apply HG|done].
Qed.

Lemma GetRefs_cases e (Cs : list TypeName) id :
  ecs_wf e → Forall (registered e) Cs →
  (∃ cs, ECS.GetRefs Cs id e = Ok cs) ∨ ECS.GetRefs Cs id e = Fail Undefined.
Proof.
  intros Hwf. induction 1 as [|C Cs HC HF IH]; cbn [ECS.GetRefs];
    [left; by eexists|].
  destruct (GetRef_Has e C id Hwf HC) as (info & s & -> & HP & Hh). step.
  rewrite HP. step.
  destruct (holds e C id); [|right; by rewrite Hh].
  destruct Hh as (c & -> & _). step.
  destruct IH as [[cs ->]| ->]; [left; by eexists|by right].
Qed.

Lemma GetRefs_missing e (Cs : list TypeName) C id :
  ecs_wf e → Forall (registered e) Cs →
  C ∈ Cs → ECS.Has C id e = Ok false →
  ECS.GetRefs Cs id e = Fail Undefined.
Proof.
  intros Hwf HF HC Hno. induction HF as [|C0 Cs HC0 HF IH]; [by inversion HC|].
  cbn [ECS.GetRefs].
  destruct (GetRef_Has e C0 id Hwf HC0) as (info & s & -> & HP & Hh). step.
  rewrite HP. step.
  destruct (holds e C0 id) eqn:Hh0; [|by rewrite Hh].
  destruct Hh as (c & -> & _). step.
  apply elem_of_cons in HC as [->|HC].
  - rewrite (Has_registered e C0 id Hwf HC0), Hh0 in Hno. done.
  - by rewrite (IH HC).
Qed.

Lemma visits_zip (ids : list EntityID) (mains : list Val)
    (others : list (list Val)) :
  length mains = length ids → length others = length ids →
  visit_entity <$> zip (zip ids mains) others = ids
  ∧ visit_main <$> zip (zip ids mains) others = mains.
Proof.
  revert mains others.
  induction ids as [|id ids IH]; intros [|m mains] [|o others] H1 H2;
    try done.
  injection H1 as H1. injection H2 as H2.
  destruct (IH mains others H1 H2) as [IH1 IH2].
  split; cbn [zip zip_with fmap list_fmap]; unfold visit_entity, visit_main;
    cbn [fst snd]; f_equal; [apply IH1|apply IH2].
Qed.

(** The calls [ForEach] makes, from the main pool. *)
Lemma ForEach_visits e Main (Cs : list TypeName) :
  ecs_wf e → registered e Main →
  (∀ id, ECS.Has Main id e = Ok true →
         Forall (λ C, ECS.Has C id e = Ok true) Cs) →
  ∃ (s : SparseSet.t Val) (visits : list (visit Val)),
    pool_of e Main = Some s
    ∧ visit_entity <$> visits = SparseSet.m_denseToEntity s
    ∧ visit_main <$> visits = SparseSet.m_dense s
    ∧ Forall (λ v, ECS.Get Main (visit_entity v) e = Ok (visit_main v)
                   ∧ Forall2 (λ C c, ECS.Get C (visit_entity v) e = Ok c)
                       Cs (visit_others v)) visits
    ∧ ∀ A (func : ECS.callable A) (a : A),
        ECS.ForEach Main Cs func e a = Ok (invoke_all func visits a).
Proof.
  intros Hwf HM Hall.
  destruct (pool_reached e Main Hwf HM)
    as (info & s & HT & Hpo & Hok & Hvalid & HG & HP).
  destruct Hok as [Hs Hsz]. pose proof Hs as [[Hlen Hb] Hc].
  set (others := λ id, match ECS.GetRefs Cs id e with Ok cs => cs | Fail _ => [] end).
  set (visits := zip (zip (SparseSet.m_denseToEntity s) (SparseSet.m_dense s))
                   (others <$> SparseSet.m_denseToEntity s)).
  assert (∀ (k : nat) v, visits !! k = Some v →
            SparseSet.m_denseToEntity s !! k = Some (visit_entity v)
            ∧ SparseSet.m_dense s !! k = Some (visit_main v)
            ∧ visit_others v = others (visit_entity v)) as Hlook.
  { intros k [[id m] cs] Hk. unfold visits in Hk.
    apply lookup_zip_with_Some in Hk as ([id' m'] & cs' & [= <- <- <-] & Hk1 & Hk2).
    apply lookup_zip_with_Some in Hk1 as (id1 & m1 & [= <- <-] & Hid & Hm).
    rewrite list_lookup_fmap, Hid in Hk2. by injection Hk2 as <-. }
  assert (∀ id, id ∈ SparseSet.m_denseToEntity s →
            valid_entity e id
            ∧ holds e Main id = true
            ∧ ∃ cs, ECS.GetRefs Cs id e = Ok cs
                    ∧ others id = cs
                    ∧ Forall2 (λ C c, ECS.Get C id e = Ok c) Cs cs) as Hown.
  { intros id Hid. pose proof (Hvalid id Hid) as Hv. split; [done|].
    assert (holds e Main id = true) as Hh.
    { rewrite (holds_pool e Main s id Hpo). apply negb_true_iff, N.eqb_neq.
      by apply (owner_iff_present s id (conj Hs Hsz)). }
    split; [done|].
    destruct (GetRefs_held e Cs id Hwf Hv) as (cs & Hcs & HF2).
    { apply Hall. by rewrite (Has_registered e Main id Hwf HM), Hh. }
    exists cs. split; [done|]. split; [|done]. unfold others. by rewrite Hcs. }
  exists s, visits. split; [done|].
  assert (length (zip (SparseSet.m_denseToEntity s) (SparseSet.m_dense s))
          = length (SparseSet.m_denseToEntity s)) as Hlz.
  { rewrite length_zip_with. lia. }
  destruct (visits_zip (SparseSet.m_denseToEntity s) (SparseSet.m_dense s)
              (others <$> SparseSet.m_denseToEntity s) Hlen
              (length_fmap _ _)) as [Hv1 Hv2].
  split; [done|]. split; [done|]. split.
  - apply Forall_lookup. intros k v Hk.
    destruct (Hlook k v Hk) as (Hid & Hm & Ho).
    destruct (Hown (visit_entity v)) as (Hv & Hh & cs & _ & Hcs & HF2);
      [by eapply list_elem_of_lookup_2|].
    split; [|by rewrite Ho, Hcs].
    rewrite (Get_registered e Main info s _ Hwf HT Hpo Hv), Hh.
    apply at_Ok. by rewrite (Hb k _ Hid), Nat2N.id.
  - intros A func a. unfold ECS.ForEach. rewrite HG. step. rewrite HP. step.
    unfold SparseSet.Data, invoke_all.
    assert (length (SparseSet.m_dense s) = length visits) as ->.
    { unfold visits. rewrite length_zip_with, Hlz, length_fmap. lia. }
    apply for_fold. intros k v a' Hk. rewrite N.add_0_l.
    destruct (Hlook k v Hk) as (Hid & Hm & Ho).
    destruct (Hown (visit_entity v)) as (_ & _ & cs & Hcs & Hcs' & _);
      [by eapply list_elem_of_lookup_2|].
    unfold SparseSet.GetEntity, at_. rewrite Nat2N.id, Hid. step.
    rewrite Hm. step. rewrite Hcs. step. by rewrite Ho, Hcs'.
Qed.
End iteration.

(** X25: ForEach calls a callable that reads its arguments once for every
    entity that has the main component, in the order of the main pool's
    dense array, and hands it what Get returns for that entity: the main
    component and each of the other components.  This holds when every
    entity that has the main component has the others too. *)
Theorem ForEach_visits_each_holder_once
    {Val} (e : ECS.t Val) (Main : TypeName) (Cs : list TypeName) :
  ecs_wf e →
  registered e Main →
  (∀ id, ECS.Has Main id e = Ok true →
         Forall (λ C, ECS.Has C id e = Ok true) Cs) →
  ∃ visits : list (visit Val),
    (∀ A (func : ECS.callable A) (a : A),
       ECS.ForEach Main Cs func e a = Ok (invoke_all func visits a))
    ∧ (∃ s, pool_of e Main = Some s
            ∧ visit_entity <$> visits = SparseSet.m_denseToEntity s)
    ∧ NoDup (visit_entity <$> visits)
    ∧ (∀ id, id ∈ visit_entity <$> visits ↔ ECS.Has Main id e = Ok true)
    ∧ Forall (λ v, ECS.Get Main (visit_entity v) e = Ok (visit_main v)
                   ∧ Forall2 (λ C c, ECS.Get C (visit_entity v) e = Ok c)
                       Cs (visit_others v)) visits.
Proof.
  intros Hwf HM Hall.
  destruct (ForEach_visits e Main Cs Hwf HM Hall)
    as (s & visits & Hpo & Hids & _ & HF & Hrun).
  destruct (pool_reached e Main Hwf HM) as (info & s' & _ & Hpo' & Hok & _).
  rewrite Hpo in Hpo'. injection Hpo' as <-.
  exists visits. split; [done|]. split; [by exists s|].
  rewrite Hids. split; [by apply sparse_wf_NoDup, Hok|]. split; [|done].
  intros id. rewrite (owner_iff_present s id Hok).
  rewrite (Has_registered e Main id Hwf HM), (holds_pool e Main s id Hpo).
  destruct (N.eqb_spec (SparseSet.GetDenseIndex id s) tombstone);
    cbn [negb]; split; (done || congruence).
Qed.

Lemma ForEach_visits_each_holder_once_witness :
  let e := engine_after garage_engine in
  ∃ visits : list (visit N),
    ECS.ForEach "Engine" ["Chassis"%string]
      (ECS.with_entity _ (λ id main others ids, ids ++ [id])) e []
    = Ok (visit_entity <$> visits)
    ∧ ∀ id, id ∈ visit_entity <$> visits ↔ ECS.Has "Engine" id e = Ok true.
Proof.
  intros e.
  destruct (ForEach_visits_each_holder_once e "Engine" ["Chassis"%string]
              (engine_after_wf _)) as (visits & Hrun & _ & _ & Hids & _).
  - exists engine_info. vm_compute; reflexivity.
  - intros id Hid. constructor; [|constructor].
    assert (ecs_run garage_engine (ECS.empty (Val:=N)) = Ok e) as Hr
      by (vm_compute; reflexivity).
    destruct (ecs_run_inv garage_engine _ e engine_inv_empty Hr)
      as (Hwf & _ & _ & Hcl).
    assert (registered e "Engine") as HE
      by (exists engine_info; vm_compute; reflexivity).
    assert (registered e "Chassis") as HC
      by (exists chassis_info; vm_compute; reflexivity).
    pose proof (Has_Ok_holds e "Engine" id true Hwf HE Hid) as Hh.
    rewrite (Has_registered e "Chassis" id Hwf HC). f_equal.
    apply (Hcl "Engine"%string "Chassis"%string engine_info chassis_info id);
      [vm_compute; reflexivity|vm_compute; reflexivity
      |vm_compute; reflexivity|exact Hh].
  - exists visits. split; [|done]. rewrite Hrun. f_equal.
    unfold invoke_all. clear.
    enough (∀ acc, foldl (λ (a : list EntityID) (v : visit N),
                            ECS.invoke (ECS.with_entity _
                              (λ id _ _ ids, ids ++ [id]))
                              (visit_entity v) (visit_main v) (visit_others v) a)
                     acc visits = acc ++ (visit_entity <$> visits)) as H
      by apply (H []).
    induction visits as [|v visits IH]; intros acc; cbn [foldl fmap list_fmap].
    + by rewrite app_nil_r.
    + rewrite IH. cbn [ECS.invoke]. by rewrite <- app_assoc.
Defined.

(** X26: ForEach does not check that an entity has the other components.
    If some entity has the main component and lacks one of the others, the
    call reads that component through GetRef at the tombstone index: the
    behaviour is undefined, and no assertion reports it. *)
Theorem ForEach_missing_component_undefined
    {Val A} (e : ECS.t Val) (Main C : TypeName) (Cs : list TypeName)
    (id : EntityID) (func : ECS.callable A) (a : A) :
  ecs_wf e →
  Forall (registered e) Cs →
  ECS.Has Main id e = Ok true →
  C ∈ Cs →
  ECS.Has C id e = Ok false →
  ECS.ForEach Main Cs func e a = Fail Undefined.
Proof.
  intros Hwf HF HM HC Hno.
  pose proof (Has_Ok_registered e Main id true HM) as Hreg.
  destruct (pool_reached e Main Hwf Hreg)
    as (info & s & HT & Hpo & Hok & Hvalid & HG & HP).
  pose proof Hok as [[[Hlen Hb] Hc] _].
  rewrite (Has_registered e Main id Hwf Hreg), (holds_pool e Main s id Hpo) in HM.
  injection HM as HM. apply negb_true_iff, N.eqb_neq in HM.
  pose proof (sparse_wf_index_lt _ _ (proj1 Hok) HM) as Hlt.
  unfold ECS.ForEach. rewrite HG. step. rewrite HP. step. unfold SparseSet.Data.
  apply (for_Undefined _ (N.to_nat (SparseSet.GetDenseIndex id s))); [done| |].
  - intros j a' Hj. rewrite N.add_0_l.
    assert (j < length (SparseSet.m_denseToEntity s))%nat as Hj' by lia.
    destruct (lookup_lt_is_Some_2 _ _ Hj') as [idj Hidj].
    assert (j < length (SparseSet.m_dense s))%nat as Hj'' by lia.
    destruct (lookup_lt_is_Some_2 _ _ Hj'') as [mj Hmj].
    unfold SparseSet.GetEntity, at_. rewrite Nat2N.id, Hidj, Hmj. step.
    destruct (GetRefs_cases e Cs idj Hwf HF) as [[cs ->]| ->];
      [left; by eexists|by right].
  - intros a'. rewrite N.add_0_l, N2Nat.id.
    unfold SparseSet.GetEntity, at_. rewrite (Hc id HM).
    destruct (lookup_lt_is_Some_2 _ _ Hlt) as [m ->]. step.
    by rewrite (GetRefs_missing e Cs C id Hwf HF HC Hno).
Qed.

Lemma ForEach_missing_component_undefined_witness :
  let e := engine_after garage_chassis in
  ECS.ForEach "Chassis" ["Engine"%string]
    (ECS.components_only _ (λ main others (n : N), n + 1)) e 0
  = Fail Undefined.
Proof.
  intros e.
  apply (ForEach_missing_component_undefined e "Chassis" "Engine"
           ["Engine"%string] 0).
  - apply engine_after_wf.
  - constructor; [exists engine_info; vm_compute; reflexivity|constructor].
  - vm_compute; reflexivity.
  - by left.
  - vm_compute; reflexivity.
Defined.



(** X28: GetSibiling<TDense, T>(i) reads the T component of the entity that
    owns position i of TDense's dense array.  It returns what Get<T> returns
    for that entity when the entity has T; when the entity lacks T, or when
    i is not a position of the dense array, the read is unchecked and the
    behaviour undefined. *)
Theorem GetSibiling_reads_owner
    {Val} (e : ECS.t Val) (TDense T : TypeName) (s : SparseSet.t Val) (i : N) :
  ecs_wf e →
  pool_of e TDense = Some s →
  registered e T →
  (∀ id, SparseSet.m_denseToEntity s !! N.to_nat i = Some id →
     (ECS.Has T id e = Ok true →
      ∃ v, ECS.GetSibiling TDense T i e = Ok v ∧ ECS.Get T id e = Ok v)
     ∧ (ECS.Has T id e = Ok false →
        ECS.GetSibiling TDense T i e = Fail Undefined))
  ∧ (size (SparseSet.m_denseToEntity s) ≤ i →
     ECS.GetSibiling TDense T i e = Fail Undefined).
Proof.
  intros Hwf Hpo HT.
  assert (registered e TDense) as HD.
  { unfold pool_of in Hpo.
    destruct (ECS.m_componentBitPosition e !! TDense) eqn:H; [by eexists|done]. }
  destruct (pool_reached e TDense Hwf HD)
    as (info & s' & _ & Hpo' & Hok & Hvalid & HG & HP).
  rewrite Hpo in Hpo'. injection Hpo' as <-.
  unfold ECS.GetSibiling. rewrite HG. step. rewrite HP. step.
  unfold SparseSet.GetEntity, at_. split.
  - intros id Hid. rewrite Hid. step.
    destruct (GetRef_Has e T id Hwf HT) as (infoT & sT & HGT & HPT & Hh).
    rewrite HGT. step. rewrite HPT. step.
    rewrite (Has_registered e T id Hwf HT).
    destruct (holds e T id).
    + split; [|done]. intros _. destruct Hh as (v & Hv & HGet).
      exists v. split; [done|]. apply HGet, Hvalid.
      by eapply list_elem_of_lookup_2.
    + split; [done|]. by intros _.
  - intros Hge. rewrite lookup_ge_None_2; [done|]. unfold size in Hge. lia.
Qed.

Lemma GetSibiling_reads_owner_witness :
  let e := engine_after garage_engine in
  ∃ s, pool_of e "Engine" = Some s
       ∧ (∃ v, ECS.GetSibiling "Engine" "Chassis" 0 e = Ok v
               ∧ ECS.Get "Chassis" 0 e = Ok v)
       ∧ ECS.GetSibiling "Engine" "Chassis" 1 e = Fail Undefined.
Proof.
  intros e.
  destruct (pool_of e "Engine") as [s|] eqn:Hpo; [|by vm_compute in Hpo].
  exists s. split; [done|].
  destruct (GetSibiling_reads_owner e "Engine" "Chassis" s 0 (engine_after_wf _) Hpo)
    as [Hin _]; [exists chassis_info; vm_compute; reflexivity|].
  destruct (GetSibiling_reads_owner e "Engine" "Chassis" s 1 (engine_after_wf _) Hpo)
    as [_ Hout]; [exists chassis_info; vm_compute; reflexivity|].
  assert (s = default SparseSet.empty (pool_of e "Engine")) as Hs
    by (by rewrite Hpo).
  split.
  - apply (Hin 0); [rewrite Hs; vm_compute; reflexivity|].
    vm_compute; reflexivity.
  - apply Hout. rewrite Hs. vm_compute. discriminate.
Defined.

(** X29: the constructor of ISystem checks entity ids, not owners.  With n
    main components stored, it runs HasAllRequired on the ids 0 .. n-1: it
    returns exactly when each of these ids has every listed component,
    whoever owns the main components, and otherwise terminates the process
    (for registered component types). *)
Theorem ISystem_checks_low_ids
    {Val} (e : ECS.t Val) (Main : TypeName) (Cs : list TypeName)
    (s : SparseSet.t Val) :
  ecs_wf e →
  pool_of e Main = Some s →
  ((∃ sys, ISystem.new Main Cs e = Ok (sys, e))
   ↔ ∀ i, i < size (SparseSet.m_dense s) →
          Forall (λ C, ECS.Has C i e = Ok true) Cs)
  ∧ (∀ r, ISystem.new Main Cs e = Ok r → r.2 = e)
  ∧ (Forall (registered e) Cs →
     (∃ sys, ISystem.new Main Cs e = Ok (sys, e))
     ∨ fatal (ISystem.new Main Cs e)).
Proof.
  intros Hwf Hpo.
  assert (registered e Main) as HM.
  { unfold pool_of in Hpo.
    destruct (ECS.m_componentBitPosition e !! Main) eqn:H; [by eexists|done]. }
  destruct (pool_reached e Main Hwf HM)
    as (info & s' & _ & Hpo' & Hok & Hvalid & HG & HP).
  rewrite Hpo in Hpo'. injection Hpo' as <-.
  unfold ISystem.new. rewrite HG. step. rewrite HP. step. rewrite HG. step.
  unfold SparseSet.Data, size.
  set (check := λ i : N, ECS.HasAllRequired Cs i e).
  change (λ (i : N) (_ : unit), _ ← ECS.HasAllRequired Cs i e; mret tt)
    with (λ (i : N) (_ : unit), _ ← check i; mret tt).
  split; [|split].
  - split.
    + intros [sys Hnew] i Hi.
      destruct (for_ (length (SparseSet.m_dense s)) 0
                  (λ i _, _ ← check i; mret tt) tt) as [[]|f] eqn:Hfor; [|done].
      destruct (for_checks_inv _ 0 check Hfor (N.to_nat i) ltac:(lia)) as [b Hb].
      rewrite N.add_0_l, N2Nat.id in Hb. unfold check in Hb.
      apply HasAllRequired_true. destruct b; [done|].
      by destruct (HasAllRequired_never_false_aux e Cs i).
    + intros Hall.
      rewrite (proj1 (for_checks _ 0 check)); [step; by eexists|].
      intros k Hk. exists true. apply HasAllRequired_true, Hall. lia.
  - intros [sys e'] Hnew.
    destruct (for_ (length (SparseSet.m_dense s)) 0
                (λ i _, _ ← check i; mret tt) tt) as [[]|f]; [|done].
    cbn [mbind outcome_bind mret outcome_ret] in Hnew. by injection Hnew as _ <-.
  - intros HF.
    destruct (for_checks_cases (length (SparseSet.m_dense s)) 0 check)
      as [-> |[a ->]].
    + intros k _. unfold check.
      rewrite (HasAllRequired_registered e Cs _ Hwf HF).
      destruct (forallb _ Cs); [left; by eexists|right; by eexists].
    + left. step. by eexists.
    + right. by eexists.
Qed.

Lemma ISystem_checks_low_ids_witness :
  let e := engine_after (garage ++ [Attach "Chassis" [] 1 7]) in
  ∃ s, pool_of e "Chassis" = Some s
       ∧ ECS.Has "Chassis" 1 e = Ok true
       ∧ fatal (ISystem.new "Chassis" ["Chassis"%string] e).
Proof.
  intros e.
  destruct (pool_of e "Chassis") as [s|] eqn:Hpo; [|by vm_compute in Hpo].
  exists s. split; [done|]. split; [vm_compute; reflexivity|].
  destruct (ISystem_checks_low_ids e "Chassis" ["Chassis"%string] s
              (engine_after_wf _) Hpo) as (Hiff & _ & Hcases).
  destruct Hcases as [Hok|Hf]; [| |done].
  - constructor; [exists chassis_info; vm_compute; reflexivity|constructor].
  - assert (s = default SparseSet.empty (pool_of e "Chassis")) as Hs
      by (by rewrite Hpo).
    pose proof (proj1 Hiff Hok 0) as Hall. rewrite Hs in Hall.
    assert (ECS.Has "Chassis" 0 e = Ok true) as Hhas.
    { refine (proj1 (proj1 (Forall_cons _ _ _) (Hall _))).
      vm_compute; reflexivity. }
    assert (ECS.Has "Chassis" 0 e = Ok false) as Hno
      by (vm_compute; reflexivity).
    rewrite Hno in Hhas. discriminate Hhas.
Defined.

(** * The declared component lists *)

Section declared_lists.
Context {Val : Type}.
Implicit Types (e : ECS.t Val) (T C : TypeName) (id : EntityID).

Lemma GetMask_set e (Cs Cs' : list TypeName) :
  ecs_wf e → (∀ C, C ∈ Cs ↔ C ∈ Cs') →
  ECS.GetMask Cs e = ECS.GetMask Cs' e.
Proof.
  intros Hwf Heq.
  assert (Forall (registered e) Cs ↔ Forall (registered e) Cs') as HF.
  { rewrite !Forall_forall. split; intros H C HC; apply H, Heq, HC. }
  unfold ECS.GetMask.
  destruct (GetMask_cases e Cs Hwf) as [[H1 HM]|HM];
    destruct (GetMask_cases e Cs' Hwf) as [[H2 HM']|HM'];
    unfold ECS.GetMask in HM, HM'; rewrite HM, HM'.
  - f_equal. apply N.bits_inj. intros k.
    apply eq_true_iff_eq. rewrite !testbit_mask_from.
    split; (intros [?|(C & HC & ?)]; [by left|right; exists C]);
      (split; [by apply Heq|done]).
  - apply HF in H1.
    by rewrite (SetComponentBits_registered e Cs' 0 Hwf H1) in HM'.
  - apply HF in H2.
    by rewrite (SetComponentBits_registered e Cs 0 Hwf H2) in HM.
  - done.
Qed.

Lemma HasAllRequired_set e (Cs Cs' : list TypeName) id :
  ecs_wf e → Forall (registered e) Cs → (∀ C, C ∈ Cs ↔ C ∈ Cs') →
  ECS.HasAllRequired Cs id e = ECS.HasAllRequired Cs' id e.
Proof.
  intros Hwf HF Heq.
  assert (Forall (registered e) Cs') as HF'.
  { rewrite Forall_forall in HF |- *. intros C HC. by apply HF, Heq. }
  rewrite (HasAllRequired_registered e Cs id Hwf HF).
  rewrite (HasAllRequired_registered e Cs' id Hwf HF').
  assert (forallb (λ C, holds e C id) Cs = forallb (λ C, holds e C id) Cs')
    as ->; [|done].
  apply eq_true_iff_eq. rewrite !forallb_forall.
  split; intros H C HC%list_elem_of_In; apply H, list_elem_of_In, Heq, HC.
Qed.

Lemma HasRemovedAll_set e (Cs Cs' : list TypeName) id :
  ecs_wf e → Forall (registered e) Cs → (∀ C, C ∈ Cs ↔ C ∈ Cs') →
  ECS.HasRemovedAll Cs id e = ECS.HasRemovedAll Cs' id e.
Proof.
  intros Hwf HF Heq.
  assert (Forall (registered e) Cs') as HF'.
  { rewrite Forall_forall in HF |- *. intros C HC. by apply HF, Heq. }
  rewrite (HasRemovedAll_registered e Cs id Hwf HF).
  rewrite (HasRemovedAll_registered e Cs' id Hwf HF').
  assert (existsb (λ C, holds e C id) Cs = existsb (λ C, holds e C id) Cs')
    as ->; [|done].
  apply eq_true_iff_eq. rewrite !existsb_exists.
  split; intros (C & HC%list_elem_of_In & Hh); exists C;
    (split; [apply list_elem_of_In, Heq, HC|done]).
Qed.
End declared_lists.

(** X30: the component lists declared to Add and Remove are compared as
    sets.  Two lists with the same members, in any order and with any
    repetition, give the same result: the same stored value and engine, or
    the same assertion. *)
Theorem declared_lists_are_sets
    {Val} (e : ECS.t Val) (T : TypeName) (Cs Cs' : list TypeName)
    (id : EntityID) (v : Val) :
  ecs_wf e →
  (∀ C, C ∈ Cs ↔ C ∈ Cs') →
  ECS.Add T Cs id v e = ECS.Add T Cs' id v e
  ∧ ECS.Remove T Cs id e = ECS.Remove T Cs' id e.
Proof.
  intros Hwf Heq. split.
  - unfold ECS.Add.
    destruct (ECS.BSEECS_ASSERT_VALID_ENTITY id e) as [[]|f]; [|done]. step.
    destruct (ECS.GetComponentPool T true e) as [[pool e1]|f] eqn:HG; [|done].
    step. destruct (GetComponentPool_Ok _ _ _ _ _ Hwf HG) as (Hwf1 & _).
    destruct (ECS.pool_at pool e1) as [s|f]; [|done]. step.
    destruct (SparseSet.Get id s) as [p|f]; [|done]. step.
    destruct (BSEECS_ASSERT (negb (ECS.non_null p)) AlreadyHasComponent)
      as [[]|f]; [|done]. step.
    rewrite (GetMask_set e1 Cs Cs' Hwf1 Heq).
    destruct (ECS.GetMask Cs' e1) as [m|f] eqn:HM; [|done]. step.
    destruct (ECS.deref_mask (ECS.GetRequiredComponent T e1)) as [r|f]; [|done].
    step. destruct (BSEECS_ASSERT (N.lxor m r =? 0) RequiredMismatch)
      as [[]|f]; [|done]. step.
    destruct (GetMask_Ok_registered e1 Cs' m Hwf1 HM) as [HF' _].
    rewrite (HasAllRequired_set e1 Cs' Cs id Hwf1 HF'); [done|].
    intros C. by rewrite Heq.
  - unfold ECS.Remove.
    destruct (ECS.BSEECS_ASSERT_VALID_ENTITY id e) as [[]|f]; [|done]. step.
    destruct (ECS.GetComponentPool T false e) as [[pool e1]|f] eqn:HG; [|done].
    step. destruct (GetComponentPool_Ok _ _ _ _ _ Hwf HG) as (Hwf1 & _).
    destruct (ECS.pool_at pool e1) as [s|f]; [|done]. step.
    destruct (SparseSet.Get id s) as [p|f]; [|done]. step.
    destruct (BSEECS_ASSERT (ECS.non_null p) NoComponentToRemove)
      as [[]|f]; [|done]. step.
    rewrite (GetMask_set e1 Cs Cs' Hwf1 Heq).
    destruct (ECS.GetMask Cs' e1) as [m|f] eqn:HM; [|done]. step.
    destruct (ECS.deref_mask (ECS.GetSustainedComponent T e1)) as [r|f]; [|done].
    step. destruct (BSEECS_ASSERT (N.lxor m r =? 0) SustainedMismatch)
      as [[]|f]; [|done]. step.
    destruct (GetMask_Ok_registered e1 Cs' m Hwf1 HM) as [HF' _].
    rewrite (HasRemovedAll_set e1 Cs' Cs id Hwf1 HF'); [done|].
    intros C. by rewrite Heq.
Qed.

Lemma declared_lists_are_sets_witness :
  let e := engine_after garage_chassis in
  ECS.Add "Engine" ["Chassis"; "Chassis"]%string 0 9 e
  = ECS.Add "Engine" ["Chassis"%string] 0 9 e.
Proof.
  intros e.
  apply (declared_lists_are_sets e "Engine" ["Chassis"; "Chassis"]%string
           ["Chassis"%string] 0 9 (engine_after_wf _)).
  intros C. rewrite !elem_of_cons, elem_of_nil. tauto.
Defined.
